(** * stream-where: the caching / aggregation layer of the server

    A shallow embedding of the last server variant of the repository (the
    one with the in-memory cache, the API usage counters, the
    [/api/search], [/api/providers/:imdbId], [/api/bundle] and
    [/api/status] routes and the helpers [getProvidersForMovie] and
    [searchMovie]), and the properties its specification states about it.

    Conventions of the embedding:
    - the process state (the [cache] Map, the [apiUsage] object) is one
      record threaded through a state monad; [Date.now()] is the [clock]
      field of that record, and an [await] on an upstream call moves the
      clock to the moment the reply arrives;
    - the two upstream providers are the environment: every operation that
      may call one is given the reply it would get;
    - the list of upstream requests issued so far is kept in the ghost
      field [sent];
    - an absent property of a JavaScript object ([undefined]) is [None];
    - a string is the sequence of its code units, one [ascii] per unit:
      the embedding has the strings whose code units are all below U+0100
      (the Latin-1 range), the character U+00C9 being the unit 201.  Text
      that the server only compares, stores and passes on (titles, ids,
      service names) is not looked into; the query is, by [toLowerCase]
      and [trim], which are those of the language on these strings. *)

From Stdlib Require Import ZArith Floats Ascii String.
From stdpp Require Import gmap strings list sorting.

Local Open Scope string_scope.
Local Open Scope list_scope.
Local Open Scope stdpp_scope.
Local Open Scope Z_scope.

(** ** JavaScript built-ins used by the server *)

Module Js.

(** Truthiness of a possibly absent string: [undefined] and [""] are
    falsy. *)
Definition truthy (s : option string) : bool :=
  match s with
  | Some EmptyString | None => false
  | Some _ => true
  end.

(** [a || b] on possibly absent strings. *)
Definition or_else (a b : option string) : option string :=
  if truthy a then a else b.

(** [String.prototype.includes]. *)
Definition includes (s sub : string) : bool :=
  match String.index 0 sub s with
  | Some _ => true
  | None => false
  end.

(** [String.prototype.toLowerCase].  Below U+0100 the characters with a
    distinct lower-case form are U+0041 to U+005A (A to Z) and U+00C0 to
    U+00DE, the multiplication sign U+00D7 apart; the lower-case form is
    32 units up.  The sharp s U+00DF, the micro sign U+00B5 and U+00FF are
    lower-case already. *)
Definition lower_unit (c : ascii) : ascii :=
  let n := nat_of_ascii c in
  if (((65 <=? n) && (n <=? 90))
      || ((192 <=? n) && (n <=? 222) && negb (n =? 215)))%nat
  then ascii_of_nat (n + 32) else c.

Fixpoint toLowerCase (s : string) : string :=
  match s with
  | EmptyString => EmptyString
  | String c r => String (lower_unit c) (toLowerCase r)
  end.

(** [String.prototype.trim] strips white space and line terminators.
    Below U+0100 these are the tab, line feed, vertical tab, form feed
    and carriage return (U+0009 to U+000D), the space U+0020 and the
    no-break space U+00A0; the next line control U+0085 is not one. *)
Definition is_space (c : ascii) : bool :=
  let n := nat_of_ascii c in
  (((9 <=? n) && (n <=? 13)) || (n =? 32) || (n =? 160))%nat.

Fixpoint trimStart (s : string) : string :=
  match s with
  | String c r => if is_space c then trimStart r else s
  | EmptyString => EmptyString
  end.

Fixpoint trimEnd (s : string) : string :=
  match s with
  | EmptyString => EmptyString
  | String c r =>
      match trimEnd r with
      | EmptyString => if is_space c then EmptyString else String c EmptyString
      | r' => String c r'
      end
  end.

Definition trim (s : string) : string := trimEnd (trimStart s).

(** [Array.prototype.slice(0, n)]. *)
Definition slice0 {A} (n : nat) (l : list A) : list A := take n l.

(** [Array.prototype.includes] on an array of strings. *)
Definition arr_includes (l : list string) (x : string) : bool :=
  bool_decide (x ∈ l).

End Js.

(** ** The cache store

    [const cache = new Map()], with [getFromCache], [setCache] and the
    hourly sweep.  The store is generic in the cached value. *)

Definition CACHE_TTL : Z := 24 * 60 * 60 * 1000.

Record CacheEntry (V : Type) := mkEntry { data : V; timestamp : Z }.
Arguments mkEntry {V} _ _.
Arguments data {V} _.
Arguments timestamp {V} _.

Module Cache.
Section store.
Context {V : Type}.
Implicit Types (c : gmap string (CacheEntry V)) (key : string) (now : Z).

(** [getFromCache(key)] run when [Date.now()] is [now]: the value, if
    any, and the store after the call. *)
Definition getFromCache now key c : option V * gmap string (CacheEntry V) :=
  match c !! key with
  | None => (None, c)
  | Some cached =>
      if bool_decide (now - timestamp cached > CACHE_TTL)
      then (None, delete key c)
      else (Some (data cached), c)
  end.

(** [setCache(key, data)] run when [Date.now()] is [now]. *)
Definition setCache now key (d : V) c : gmap string (CacheEntry V) :=
  <[key := mkEntry d now]> c.

(** The body of the [setInterval] callback. *)
Definition sweep now c : gmap string (CacheEntry V) :=
  filter (λ kv, ¬ (now - timestamp kv.2 > CACHE_TTL)) c.

(** What a lookup at [now] answers, without the eviction. *)
Definition fresh now key c : option V :=
  (getFromCache now key c).1.

End store.
End Cache.

(** ** Data exchanged with the two upstream providers *)

(** One element of OMDb's [Search] array. *)
Record OmdbMovie := mkOmdbMovie {
  imdbID : string; Title : string; Year : string; Poster : string }.

(** [response.data] of an OMDb search. *)
Record OmdbData := mkOmdbData {
  Error : option string;
  Search : option (list OmdbMovie) }.

(** What [axios.get] does: it resolves with a response, or rejects with an
    error whose [error.response?.status] is [status] ([None] when there is
    no response at all). *)
Inductive OmdbReply :=
| OmdbResponse (d : OmdbData)
| OmdbRejects (status : option Z).

(** [opt.service] of a streaming option. *)
Record Service := mkService {
  svc_id : option string;
  svc_name : option string }.

(** One element of [streamingOptions.in]. *)
Record StreamingOption := mkOption {
  type : option string;
  service : option Service }.

Record RapidHeaders := mkHeaders {
  x_ratelimit_requests_remaining : option string;
  x_ratelimit_requests_limit : option string }.

(** [response.data] of an availability lookup; [streamingOptions_in] is
    [response.data.streamingOptions?.in]. *)
Record RapidData := mkRapidData {
  streamingOptions_in : option (list StreamingOption);
  imdbLink : option string }.

Inductive RapidReply :=
| RapidResponse (headers : RapidHeaders) (d : RapidData)
| RapidRejects (status : option Z).

(** A reply and the value of [Date.now()] when it is delivered. *)
Record Reply (A : Type) := mkReply { payload : A; arrival : Z }.
Arguments mkReply {A} _ _.
Arguments payload {A} _.
Arguments arrival {A} _.

(** ** Values built by the server *)

Module Movie.
(** The "clean format" of a search result. *)
Record t := mk { id : string; title : string; year : string; poster : string }.

Definition of_omdb (movie : OmdbMovie) : t :=
  {| id := imdbID movie; title := Title movie;
     year := Year movie; poster := Poster movie |}.
End Movie.

(** The availability object: [link] is absent in the objects that do not
    set it, [notFound] is [true] where the object has [notFound: true]. *)
Record Providers := mkProviders {
  link : option string;
  flatrate : list StreamingOption;
  rent : list StreamingOption;
  buy : list StreamingOption;
  notFound : bool;
  message : option string }.

(** What the cache holds: the array of a search, or an availability
    object. *)
Inductive CacheData :=
| SearchResults (results : list Movie.t)
| ProviderData (p : Providers).

(** [x.flatrate] on a cached value: an array has no such property. *)
Definition flatrate_of (d : CacheData) : option (list StreamingOption) :=
  match d with
  | ProviderData p => Some (flatrate p)
  | SearchResults _ => None
  end.

(** [x.link] on a cached value. *)
Definition link_of (d : CacheData) : option string :=
  match d with
  | ProviderData p => link p
  | SearchResults _ => None
  end.

(** ** The process state *)

(** The number [parseInt(h)], kept as the header text [h] it is parsed
    from. *)
Inductive JsInt := parseInt (h : string).

Record RapidUsage := mkRapidUsage {
  remaining : option JsInt;
  limit : option JsInt }.

Record OmdbUsage := mkOmdbUsage {
  dailyCount : Z;
  lastReset : Z }.

Inductive Upstream :=
| OmdbSearch (query : string)
| RapidShow (imdbId : string).

Record Process := mkProcess {
  cache : gmap string (CacheEntry CacheData);
  rapidApi : RapidUsage;
  omdb : OmdbUsage;
  clock : Z;
  sent : list Upstream }.

Definition with_cache (c : gmap string (CacheEntry CacheData)) (p : Process) :=
  mkProcess c (rapidApi p) (omdb p) (clock p) (sent p).
Definition with_rapidApi (u : RapidUsage) (p : Process) :=
  mkProcess (cache p) u (omdb p) (clock p) (sent p).
Definition with_omdb (u : OmdbUsage) (p : Process) :=
  mkProcess (cache p) (rapidApi p) u (clock p) (sent p).
Definition with_clock (t : Z) (p : Process) :=
  mkProcess (cache p) (rapidApi p) (omdb p) t (sent p).
Definition with_sent (l : list Upstream) (p : Process) :=
  mkProcess (cache p) (rapidApi p) (omdb p) (clock p) l.

(** The state monad of the handlers. *)
Definition M (A : Type) : Type := Process → A * Process.

#[global] Instance M_ret : MRet M := λ A a p, (a, p).
#[global] Instance M_bind : MBind M := λ A B f m p, let '(a, p') := m p in f a p'.

Definition getFromCache (key : string) : M (option CacheData) :=
  λ p, let '(r, c) := Cache.getFromCache (clock p) key (cache p) in
       (r, with_cache c p).

Definition setCache (key : string) (d : CacheData) : M unit :=
  λ p, (tt, with_cache (Cache.setCache (clock p) key d (cache p)) p).

(** The request leaves: it is recorded in [sent]. *)
Definition send (u : Upstream) : M unit :=
  λ p, (tt, with_sent (sent p ++ [u]) p).

(** The handler is suspended until the reply is delivered. *)
Definition await {A} (r : Reply A) : M A :=
  λ p, (payload r, with_clock (arrival r) p).

(** A request handler entered when [Date.now()] is [now]. *)
Definition at_time {A} (now : Z) (h : M A) : M A :=
  λ p, h (with_clock now p).

(** [checkOmdbReset()]. *)
Definition checkOmdbReset : M unit :=
  λ p, let now := clock p in
       let oneDayMs := 24 * 60 * 60 * 1000 in
       if bool_decide (now - lastReset (omdb p) > oneDayMs)
       then (tt, with_omdb (mkOmdbUsage 0 now) p)
       else (tt, p).

(** [apiUsage.omdb.dailyCount++]. *)
Definition count_omdb_call : M unit :=
  λ p, (tt, with_omdb (mkOmdbUsage (dailyCount (omdb p) + 1) (lastReset (omdb p))) p).

(** [updateRapidApiUsage(headers)]. *)
Definition updateRapidApiUsage (headers : RapidHeaders) : M unit :=
  λ p,
    let u := rapidApi p in
    let u1 :=
      if Js.truthy (x_ratelimit_requests_remaining headers)
      then mkRapidUsage (parseInt <$> x_ratelimit_requests_remaining headers) (limit u)
      else u in
    let u2 :=
      if Js.truthy (x_ratelimit_requests_limit headers)
      then mkRapidUsage (remaining u1) (parseInt <$> x_ratelimit_requests_limit headers)
      else u1 in
    (tt, with_rapidApi u2 p).

(** ** Responses *)

(** One element of [allServices]. [coverage] is the number computed by
    [Math.round]; [None] stands for a result that is not a finite number. *)
Module Rank.
Record t := mk {
  service : string;
  movieCount : nat;
  movies : list string;
  coverage : option Z }.
End Rank.

(** One element of [movieDetails]. *)
Module Detail.
Record t := mk {
  searchQuery : string;
  title : option string;
  year : option string;
  found : bool;
  subscriptionServices : list string }.
End Detail.

Record BundleReport := mkReport {
  totalMovies : nat;
  foundMovies : nat;
  notFoundMovies : list string;
  bestService : option Rank.t;
  allServices : list Rank.t;
  notOnAnySubscription : list string;
  movieDetails : list Detail.t }.

(** The JSON bodies the routes send. [JsonError] is an object with an
    [error] text, [rateLimited: true] where the flag is set, and a
    [service] where one is named. *)
Inductive Body :=
| Json (d : CacheData)
| JsonError (error : string) (rateLimited : bool) (service : option string)
| JsonReport (r : BundleReport).

Record Response := respond { status : Z; body : Body }.

(** ** 1. Search for a movie: [GET /api/search] *)

Definition search_key (query : string) : string :=
  "search:" +:+ Js.trim (Js.toLowerCase query).

(** [response.data.Search.slice(0, 5).map(movie => ({...}))]. *)
Definition clean_results (l : list OmdbMovie) : list Movie.t :=
  Movie.of_omdb <$> Js.slice0 5 l.

Definition search_route (q : option string) (r : Reply OmdbReply) : M Response :=
  if negb (Js.truthy q) then mret (respond 400 (JsonError "Query required" false None))
  else
    let query := default "" q in
    let cacheKey := search_key query in
    cached ← getFromCache cacheKey;
    match cached with
    | Some c => mret (respond 200 (Json c))
    | None =>
        checkOmdbReset;;
        send (OmdbSearch query);;
        response ← await r;
        match response with
        | OmdbRejects st =>
            if bool_decide (st = Some 401)
            then mret (respond 401 (JsonError "Invalid OMDb API key" false None))
            else mret (respond 500 (JsonError "Search failed" false None))
        | OmdbResponse d =>
            count_omdb_call;;
            if Js.truthy (Error d) then
              let e := default "" (Error d) in
              if Js.includes e "limit" || Js.includes e "Request limit"
              then mret (respond 429
                     (JsonError "OMDb daily limit reached (1000 requests/day)"
                        true (Some "omdb")))
              else mret (respond 200 (Json (SearchResults [])))
            else
              match Search d with
              | None =>
                  (* [undefined.slice] throws; the [catch] answers *)
                  mret (respond 500 (JsonError "Search failed" false None))
              | Some l =>
                  let results := clean_results l in
                  setCache cacheKey (SearchResults results);;
                  mret (respond 200 (Json (SearchResults results)))
              end
        end
    end.

(** ** 2. Streaming providers: [GET /api/providers/:imdbId] *)

Definition providers_key (imdbId : string) : string := "providers:" +:+ imdbId.

(** [indiaOptions.filter(opt => opt.type === t)]. *)
Definition of_type (t : string) (indiaOptions : list StreamingOption) :
    list StreamingOption :=
  filter (λ opt, type opt = Some t) indiaOptions.

(** [{ flatrate: [], rent: [], buy: [] }] and its variants. *)
Definition no_providers (nf : bool) (msg : option string) : Providers :=
  mkProviders None [] [] [] nf msg.

Definition providers_route (imdbId : string) (r : Reply RapidReply) : M Response :=
  let cacheKey := providers_key imdbId in
  cached ← getFromCache cacheKey;
  match cached with
  | Some c => mret (respond 200 (Json c))
  | None =>
      send (RapidShow imdbId);;
      response ← await r;
      match response with
      | RapidResponse headers d =>
          updateRapidApiUsage headers;;
          let indiaOptions := default [] (streamingOptions_in d) in
          let result :=
            {| link := Js.or_else (imdbLink d) (Some "");
               flatrate := of_type "subscription" indiaOptions;
               rent := of_type "rent" indiaOptions;
               buy := of_type "buy" indiaOptions;
               notFound := false; message := None |} in
          setCache cacheKey (ProviderData result);;
          mret (respond 200 (Json (ProviderData result)))
      | RapidRejects st =>
          if bool_decide (st = Some 429) then
            mret (respond 429
              (JsonError "RapidAPI rate limit exceeded. Please try again later."
                 true (Some "rapidapi")))
          else if bool_decide (st = Some 402) then
            mret (respond 402
              (JsonError "RapidAPI monthly quota exceeded (1000 requests/month)"
                 true (Some "rapidapi")))
          else if bool_decide (st = Some 403) then
            mret (respond 403
              (JsonError "RapidAPI access denied. Check your API key or subscription."
                 false (Some "rapidapi")))
          else if bool_decide (st = Some 404) then
            mret (respond 200 (Json (ProviderData (no_providers true None))))
          else
            mret (respond 200
              (Json (ProviderData (no_providers false (Some "Provider data unavailable")))))
      end
  end.

(** ** The helpers of the bundle route

    Each helper is an [async] function with one [await].  It is given in
    two parts, the code that runs before the [await] and the code that runs
    when the reply is delivered, so that [Promise.all] can interleave
    several of them; the helper itself is the two parts in sequence. *)

(** Where an [async] call stands after its synchronous part. *)
Inductive Step (A : Type) :=
| Done (a : A)
| Awaiting.
Arguments Done {A} _.
Arguments Awaiting {A}.

(** What the helpers throw: the [Error] with [rateLimited = true] and a
    [status], or a [TypeError]. *)
Inductive Thrown :=
| RateLimitError (status : Z)
| TypeError.

Inductive Settled (A : Type) :=
| Fulfilled (a : A)
| Rejected (e : Thrown).
Arguments Fulfilled {A} _.
Arguments Rejected {A} _.

Definition getProvidersForMovie_begin (imdbId : string) : M (Step (Settled CacheData)) :=
  cached ← getFromCache (providers_key imdbId);
  match cached with
  | Some c => mret (Done (Fulfilled c))
  | None => send (RapidShow imdbId);; mret Awaiting
  end.

Definition getProvidersForMovie_resume (imdbId : string) (response : RapidReply) :
    M (Settled CacheData) :=
  match response with
  | RapidResponse headers d =>
      updateRapidApiUsage headers;;
      let indiaOptions := default [] (streamingOptions_in d) in
      let result :=
        {| link := None;
           flatrate := of_type "subscription" indiaOptions;
           rent := of_type "rent" indiaOptions;
           buy := of_type "buy" indiaOptions;
           notFound := false; message := None |} in
      setCache (providers_key imdbId) (ProviderData result);;
      mret (Fulfilled (ProviderData result))
  | RapidRejects st =>
      match st with
      | Some status =>
          if bool_decide (status = 429) || bool_decide (status = 402)
          then mret (Rejected (RateLimitError status))
          else mret (Fulfilled (ProviderData (no_providers false None)))
      | None => mret (Fulfilled (ProviderData (no_providers false None)))
      end
  end.

Definition run_async {A R} (begin : M (Step (Settled A)))
    (resume : R → M (Settled A)) (r : Reply R) : M (Settled A) :=
  s ← begin;
  match s with
  | Done v => mret v
  | Awaiting => response ← await r; resume response
  end.

Definition getProvidersForMovie (imdbId : string) (r : Reply RapidReply) :
    M (Settled CacheData) :=
  run_async (getProvidersForMovie_begin imdbId) (getProvidersForMovie_resume imdbId) r.

(** [cached && cached.length > 0], then [cached[0]]: the first element of a
    non-empty cached array. *)
Definition first_cached (cached : option CacheData) : option Movie.t :=
  match cached with
  | Some (SearchResults (m :: _)) => Some m
  | _ => None
  end.

Definition searchMovie_begin (query : string) : M (Step (Settled (option Movie.t))) :=
  cached ← getFromCache (search_key query);
  match first_cached cached with
  | Some m => mret (Done (Fulfilled (Some m)))
  | None => send (OmdbSearch query);; mret Awaiting
  end.

Definition searchMovie_resume (query : string) (response : OmdbReply) :
    M (Settled (option Movie.t)) :=
  match response with
  | OmdbResponse d =>
      if Js.truthy (Error d) then mret (Fulfilled None)
      else
        match Search d with
        | None | Some [] => mret (Fulfilled None)
        | Some (movie :: rest) =>
            let results := clean_results (movie :: rest) in
            setCache (search_key query) (SearchResults results);;
            mret (Fulfilled (head results))
        end
  | OmdbRejects _ => mret (Fulfilled None)
  end.

Definition searchMovie (query : string) (r : Reply OmdbReply) :
    M (Settled (option Movie.t)) :=
  run_async (searchMovie_begin query) (searchMovie_resume query) r.

(** ** [Array.prototype.sort] and [Object.entries] *)

Module JsArray.
Section sort.
Context {A : Type}.
(** [after a b] is [compareFn(a, b) > 0]: [a] is to come after [b]. *)
Variable after : A → A → bool.

Fixpoint insert (a : A) (l : list A) : list A :=
  match l with
  | [] => [a]
  | b :: l' => if after a b then b :: insert a l' else a :: l
  end.

(** The sort is stable (ECMAScript 2019): among the stable sorts all
    give the same array for a consistent [compareFn]; this one inserts
    the elements from the right. *)
Definition sort (l : list A) : list A := foldr insert [] l.
End sort.
End JsArray.

Module JsObject.

(** The own properties of an object created by [{}], in the order they
    were created. *)
Definition t (V : Type) : Type := list (string * V).

(** The properties every object inherits from [Object.prototype]. *)
Definition inherited : list string :=
  [ "constructor"; "__defineGetter__"; "__defineSetter__"; "hasOwnProperty";
    "__lookupGetter__"; "__lookupSetter__"; "isPrototypeOf";
    "propertyIsEnumerable"; "toString"; "valueOf"; "__proto__";
    "toLocaleString" ].

Fixpoint get {V} (o : t V) (key : string) : option V :=
  match o with
  | [] => None
  | (k, v) :: o' => if bool_decide (k = key) then Some v else get o' key
  end.

(** Assignment to an own property that exists. *)
Fixpoint set {V} (o : t V) (key : string) (v : V) : t V :=
  match o with
  | [] => []
  | (k, w) :: o' =>
      if bool_decide (k = key) then (k, v) :: o' else (k, w) :: set o' key v
  end.

(** The numeric value of a decimal digit. *)
Definition digit (c : ascii) : option N :=
  let n := N_of_ascii c in
  if ((48 <=? n) && (n <=? 57))%N then Some (n - 48)%N else None.

Fixpoint digits (acc : N) (s : string) : option N :=
  match s with
  | EmptyString => Some acc
  | String c r =>
      match digit c with
      | Some d => digits (10 * acc + d)%N r
      | None => None
      end
  end.

(** An array index: the canonical decimal text of an integer below
    [2^32 - 1]. *)
Definition array_index (key : string) : option N :=
  match key with
  | EmptyString => None
  | String "0" EmptyString => Some 0%N
  | String "0" _ => None
  | _ =>
      match digits 0 key with
      | Some n => if (n <? 2 ^ 32 - 1)%N then Some n else None
      | None => None
      end
  end.

Definition is_index (key : string) : bool :=
  match array_index key with Some _ => true | None => false end.

Definition index_after {V} (a b : string * V) : bool :=
  match array_index a.1, array_index b.1 with
  | Some m, Some n => (n <? m)%N
  | _, _ => false
  end.

(** [Object.entries(o)]: the array indices in ascending order, then the
    other keys in the order they were created. *)
Definition entries {V} (o : t V) : list (string * V) :=
  JsArray.sort index_after (filter (λ kv, is_index kv.1 = true) o)
  ++ filter (λ kv, is_index kv.1 = false) o.

(** [Object.values(o)]. *)
Definition values {V} (o : t V) : list V := snd <$> entries o.

End JsObject.

(** ** [Math.round] on IEEE 754 doubles *)

Module JsMath.

(** [n] as a double (exact for the lengths met here). *)
Definition number (n : nat) : float := PrimFloat.of_uint63 (Uint63.of_Z (Z.of_nat n)).

(** The integer closest to [x], the larger one in a tie; [None] when [x]
    is not finite. *)
Definition round (x : float) : option Z :=
  match Prim2SF x with
  | S754_zero _ => Some 0
  | S754_finite s m e =>
      let num := if s then - Z.pos m else Z.pos m in
      Some (match e with
            | Z0 => num
            | Zpos p => num * 2 ^ Z.pos p
            | Zneg p => (2 * num + 2 ^ Z.pos p) `div` (2 * 2 ^ Z.pos p)
            end)
  | S754_infinity _ | S754_nan => None
  end.

End JsMath.

(** ** [Promise.all(items.map(async ...))]

    The synchronous parts of the [async] calls run first, in the order of
    the array; each call that is suspended on an upstream request is
    resumed when its reply is delivered, the earliest arrival first.  The
    promise of [Promise.all] is rejected by the first call that is
    rejected, and fulfilled with all the values, in the order of the array,
    otherwise. *)

Inductive Outcome (A : Type) :=
| Resolved (a : A)
| Failed (e : Thrown)
| Unsettled.
Arguments Resolved {A} _.
Arguments Failed {A} _.
Arguments Unsettled {A}.

Module Promise.
Section all.
Context {X A R : Type}.
Variable begin : X → M (Step (Settled A)).
Variable resume : X → R → M (Settled A).
Variable env : nat → Reply R.

Fixpoint start_all (items : list X) : M (list (Step (Settled A))) :=
  match items with
  | [] => mret []
  | x :: rest =>
      s ← begin x;
      ss ← start_all rest;
      mret (s :: ss)
  end.

Definition is_awaiting (s : Step (Settled A)) : bool :=
  match s with Awaiting => true | Done _ => false end.

(** The indices of the calls that settle without waiting, and of the
    suspended calls. *)
Definition settled_at_start (slots : list (Step (Settled A))) : list nat :=
  filter (λ i, is_awaiting <$> slots !! i = Some false) (seq 0 (length slots)).

Definition suspended (slots : list (Step (Settled A))) : list nat :=
  filter (λ i, is_awaiting <$> slots !! i = Some true) (seq 0 (length slots)).

Definition later (i j : nat) : bool :=
  bool_decide (arrival (env i) > arrival (env j)).

Definition delivery_order (slots : list (Step (Settled A))) : list nat :=
  JsArray.sort later (suspended slots).

(** The reply to the [i]-th call is delivered before the reply to the
    [j]-th: it arrives earlier, or at the same time, the [i]-th call
    having been made first. *)
Definition before (i j : nat) : Prop :=
  arrival (env i) < arrival (env j) ∨
  (arrival (env i) = arrival (env j) ∧ (i < j)%nat).

Fixpoint deliver (order : list nat) (items : list X)
    (slots : list (Step (Settled A))) : M (list (Step (Settled A))) :=
  match order with
  | [] => mret slots
  | i :: rest =>
      match items !! i with
      | Some x =>
          response ← await (env i);
          v ← resume x response;
          deliver rest items (<[i := Done v]> slots)
      | None => deliver rest items slots
      end
  end.

Definition rejection (s : Step (Settled A)) : option Thrown :=
  match s with Done (Rejected e) => Some e | _ => None end.

Definition value (s : Step (Settled A)) : option A :=
  match s with Done (Fulfilled a) => Some a | _ => None end.

(** The first rejection, in the order the calls settled. *)
Fixpoint first_rejection (order : list nat) (slots : list (Step (Settled A))) :
    option Thrown :=
  match order with
  | [] => None
  | i :: rest =>
      match slots !! i ≫= rejection with
      | Some e => Some e
      | None => first_rejection rest slots
      end
  end.

Definition join (order : list nat) (slots : list (Step (Settled A))) :
    Outcome (list A) :=
  match first_rejection order slots with
  | Some e => Failed e
  | None =>
      match mapM value slots with
      | Some values => Resolved values
      | None => Unsettled
      end
  end.

Definition all (items : list X) : M (Outcome (list A)) :=
  slots ← start_all items;
  let order := delivery_order slots in
  slots' ← deliver order items slots;
  mret (join (settled_at_start slots ++ order) slots').

(** The slots once the call for the [i]-th item has been resumed, its
    continuation being run in the state [p]. *)
Definition resumed (p : Process) (items : list X) (slots : list (Step (Settled A)))
    (i : nat) : list (Step (Settled A)) :=
  match items !! i with
  | Some x => <[i := Done (resume x (payload (env i)) p).1]> slots
  | None => slots
  end.

(** What the call for [x], the [i]-th item, settles to when it runs alone
    from the state [p]. *)
Definition alone (p : Process) (i : nat) (x : X) : Settled A :=
  (run_async (begin x) (resume x) (env i) p).1.

End all.
End Promise.

(** ** 3. Bundle: [POST /api/bundle] *)

(** An element of [movieResults]: [{ name, ...movie }] or
    [{ name, notFound: true }]. *)
Inductive MovieResult :=
| Found (name : string) (movie : Movie.t)
| NotFound (name : string).

Definition name_of (m : MovieResult) : string :=
  match m with Found n _ | NotFound n => n end.

Definition is_found (m : MovieResult) : bool :=
  match m with Found _ _ => true | NotFound _ => false end.

(** An element of [moviesWithProviders]: [{ ...movie, providers }], where
    [providers] is [null] for a movie that was not found. *)
Inductive WithProviders :=
| Located (name : string) (movie : Movie.t) (providers : CacheData)
| Missing (name : string).

Definition map_settled {A B} (f : A → B) (s : Settled A) : Settled B :=
  match s with
  | Fulfilled a => Fulfilled (f a)
  | Rejected e => Rejected e
  end.

Definition map_step {A B} (f : A → B) (s : Step A) : Step B :=
  match s with
  | Done a => Done (f a)
  | Awaiting => Awaiting
  end.

(** Step 1, the arrow function mapped over [movies]. *)
Definition as_result (movieName : string) (m : option Movie.t) : MovieResult :=
  match m with
  | Some movie => Found movieName movie
  | None => NotFound movieName
  end.

Definition resolve_begin (movieName : string) : M (Step (Settled MovieResult)) :=
  s ← searchMovie_begin movieName;
  mret (map_step (map_settled (as_result movieName)) s).

Definition resolve_resume (movieName : string) (response : OmdbReply) :
    M (Settled MovieResult) :=
  v ← searchMovie_resume movieName response;
  mret (map_settled (as_result movieName) v).

(** Step 2, the arrow function mapped over [movieResults]. *)
Definition attach_begin (m : MovieResult) : M (Step (Settled WithProviders)) :=
  match m with
  | NotFound n => mret (Done (Fulfilled (Missing n)))
  | Found n mv =>
      s ← getProvidersForMovie_begin (Movie.id mv);
      mret (map_step (map_settled (Located n mv)) s)
  end.

Definition attach_resume (m : MovieResult) (response : RapidReply) :
    M (Settled WithProviders) :=
  match m with
  | NotFound n => mret (Fulfilled (Missing n))
  | Found n mv =>
      v ← getProvidersForMovie_resume (Movie.id mv) response;
      mret (map_settled (Located n mv) v)
  end.

(** Step 3. [provider.service?.name || provider.service?.id]. *)
Definition serviceName (provider : StreamingOption) : option string :=
  Js.or_else (service provider ≫= svc_name) (service provider ≫= svc_id).

(** The body of the inner [forEach], for a movie titled [title]. *)
Definition note_provider (title : string) (provider : StreamingOption)
    (serviceMovieMap : JsObject.t (list string)) :
    Thrown + JsObject.t (list string) :=
  if Js.truthy (serviceName provider) then
    let name := default "" (serviceName provider) in
    match JsObject.get serviceMovieMap name with
    | Some movieList =>
        if Js.arr_includes movieList title then inr serviceMovieMap
        else inr (JsObject.set serviceMovieMap name (movieList ++ [title]))
    | None =>
        if bool_decide (name ∈ JsObject.inherited)
        then inl TypeError (* the inherited value has no [includes] *)
        else inr (serviceMovieMap ++ [(name, [title])])
    end
  else inr serviceMovieMap.

Fixpoint note_providers (title : string) (l : list StreamingOption)
    (serviceMovieMap : JsObject.t (list string)) :
    Thrown + JsObject.t (list string) :=
  match l with
  | [] => inr serviceMovieMap
  | provider :: rest =>
      match note_provider title provider serviceMovieMap with
      | inl e => inl e
      | inr m => note_providers title rest m
      end
  end.

(** The body of the outer [forEach]. *)
Definition note_movie (m : WithProviders)
    (serviceMovieMap : JsObject.t (list string)) :
    Thrown + JsObject.t (list string) :=
  match m with
  | Located _ mv p =>
      match flatrate_of p with
      | Some l => note_providers (Movie.title mv) l serviceMovieMap
      | None => inr serviceMovieMap
      end
  | Missing _ => inr serviceMovieMap
  end.

Fixpoint build_map (l : list WithProviders)
    (serviceMovieMap : JsObject.t (list string)) :
    Thrown + JsObject.t (list string) :=
  match l with
  | [] => inr serviceMovieMap
  | m :: rest =>
      match note_movie m serviceMovieMap with
      | inl e => inl e
      | inr o => build_map rest o
      end
  end.

(** Step 4. [Math.round((movieList.length / movies.length) * 100)]. *)
Definition coverage_of (count total : nat) : option Z :=
  JsMath.round
    (PrimFloat.mul (PrimFloat.div (JsMath.number count) (JsMath.number total))
       (JsMath.number 100)).

Definition rank_entry (total : nat) (e : string * list string) : Rank.t :=
  {| Rank.service := e.1;
     Rank.movieCount := length e.2;
     Rank.movies := e.2;
     Rank.coverage := coverage_of (length e.2) total |}.

(** [(a, b) => b.movieCount - a.movieCount], as "[a] comes after [b]". *)
Definition fewer_movies (a b : Rank.t) : bool :=
  bool_decide (Z.of_nat (Rank.movieCount b) - Z.of_nat (Rank.movieCount a) > 0).

Definition rank_services (total : nat) (serviceMovieMap : JsObject.t (list string)) :
    list Rank.t :=
  JsArray.sort fewer_movies (rank_entry total <$> JsObject.entries serviceMovieMap).

(** Step 5. *)
Definition not_on_subscription (serviceMovieMap : JsObject.t (list string))
    (moviesWithProviders : list WithProviders) : list string :=
  let moviesOnSubscription : gset string :=
    list_to_set (concat (JsObject.values serviceMovieMap)) in
  omap (λ m, match m with
             | Located _ mv _ =>
                 if bool_decide (Movie.title mv ∈ moviesOnSubscription)
                 then None else Some (Movie.title mv)
             | Missing _ => None
             end) moviesWithProviders.

(** [s || null]. *)
Definition or_null (s : string) : option string :=
  if Js.truthy (Some s) then Some s else None.

(** [providers?.flatrate?.map(p => p.service?.name).filter(Boolean) || []]. *)
Definition subscription_names (p : CacheData) : list string :=
  match flatrate_of p with
  | Some l =>
      omap (λ o, let n := service o ≫= svc_name in
                 if Js.truthy n then n else None) l
  | None => []
  end.

Definition detail (m : WithProviders) : Detail.t :=
  match m with
  | Located n mv p =>
      {| Detail.searchQuery := n;
         Detail.title := or_null (Movie.title mv);
         Detail.year := or_null (Movie.year mv);
         Detail.found := true;
         Detail.subscriptionServices := subscription_names p |}
  | Missing n =>
      {| Detail.searchQuery := n; Detail.title := None; Detail.year := None;
         Detail.found := false; Detail.subscriptionServices := [] |}
  end.

(** Steps 3 to 5 and the report. *)
Definition analyze (movies : list string) (movieResults : list MovieResult)
    (moviesWithProviders : list WithProviders) : Thrown + BundleReport :=
  match build_map moviesWithProviders [] with
  | inl e => inl e
  | inr serviceMovieMap =>
      let serviceRanking := rank_services (length movies) serviceMovieMap in
      inr {| totalMovies := length movies;
             foundMovies := length (filter (λ m, is_found m = true) movieResults);
             notFoundMovies :=
               name_of <$> filter (λ m, is_found m = false) movieResults;
             bestService := head serviceRanking;
             allServices := serviceRanking;
             notOnAnySubscription :=
               not_on_subscription serviceMovieMap moviesWithProviders;
             movieDetails := detail <$> moviesWithProviders |}
  end.

(** The [catch] of the route. *)
Definition bundle_catch (error : Thrown) : Response :=
  match error with
  | RateLimitError st =>
      if bool_decide (st = 429)
      then respond 429
             (JsonError "RapidAPI rate limit exceeded. Please try again later."
                true (Some "rapidapi"))
      else respond 402
             (JsonError "RapidAPI monthly quota exceeded (1000 requests/month)"
                true (Some "rapidapi"))
  | TypeError => respond 500 (JsonError "Failed to analyze movies" false None)
  end.

Definition answer (r : Response) : M (option Response) := mret (Some r).

(** The route, for a body whose [movies] is an array of strings.  [None]
    is the route that never answers. *)
Definition bundle_route (movies : list string)
    (omdb_env : nat → Reply OmdbReply) (rapid_env : nat → Reply RapidReply) :
    M (option Response) :=
  if bool_decide (length movies = 0%nat) || bool_decide (10 < length movies)%nat
  then answer (respond 400 (JsonError "Please provide 1-10 movie names" false None))
  else
    found ← Promise.all resolve_begin resolve_resume omdb_env movies;
    match found with
    | Failed e => answer (bundle_catch e)
    | Unsettled => mret None
    | Resolved movieResults =>
        attached ← Promise.all attach_begin attach_resume rapid_env movieResults;
        match attached with
        | Failed e => answer (bundle_catch e)
        | Unsettled => mret None
        | Resolved moviesWithProviders =>
            match analyze movies movieResults moviesWithProviders with
            | inl e => answer (bundle_catch e)
            | inr report => answer (respond 200 (JsonReport report))
            end
        end
    end.

(** ** 4. API status: [GET /api/status] *)

Record StatusReport := mkStatus {
  status_remaining : option JsInt;
  status_limit : option JsInt;
  estimatedDailyUsage : Z;
  entries : nat }.

Definition snapshot : M StatusReport :=
  λ p, (mkStatus (remaining (rapidApi p)) (limit (rapidApi p))
          (dailyCount (omdb p)) (size (cache p)), p).

Definition status_route : M StatusReport :=
  checkOmdbReset;; snapshot.

(** ** Running the model on small inputs *)

Module Examples.

Definition boot : Process :=
  mkProcess ∅ (mkRapidUsage None None) (mkOmdbUsage 0 0) 0 [].

Definition hit (i t y : string) : OmdbReply :=
  OmdbResponse (mkOmdbData None (Some [mkOmdbMovie i t y "N/A"])).

Definition offer (ty : string) (name : string) : StreamingOption :=
  mkOption (Some ty) (Some (mkService (Some (Js.toLowerCase name)) (Some name))).

Definition shows (l : list StreamingOption) : RapidReply :=
  RapidResponse (mkHeaders None None) (mkRapidData (Some l) (Some "https://www.imdb.com/")).

(** Five names; the search provider knows each of them. *)
Definition five : list string := ["Alien"; "Heat"; "Jaws"; "Rocky"; "Tron"].

Definition found_all (i : nat) : Reply OmdbReply :=
  mkReply
    (match i with
     | 0%nat => hit "tt0078748" "Alien" "1979"
     | 1%nat => hit "tt0113277" "Heat" "1995"
     | 2%nat => hit "tt0073195" "Jaws" "1975"
     | 3%nat => hit "tt0075148" "Rocky" "1976"
     | _ => hit "tt0084827" "Tron" "1982"
     end) (10 + Z.of_nat i).

(** The body OMDb sends once the daily limit is reached. *)
Definition limit_reached : OmdbReply :=
  OmdbResponse (mkOmdbData (Some "Request limit reached!") None).

(** The same, with the second lookup hitting the limit. *)
Definition second_limited (i : nat) : Reply OmdbReply :=
  match i with
  | 1%nat => mkReply limit_reached 11
  | _ => found_all i
  end.

Definition on_netflix (i : nat) : Reply RapidReply :=
  mkReply (shows [offer "subscription" "Netflix"]) (20 + Z.of_nat i).

(** The same, with the second lookup refused with [status]. *)
Definition second_refused (status : Z) (i : nat) : Reply RapidReply :=
  match i with
  | 1%nat => mkReply (RapidRejects (Some status)) 21
  | _ => on_netflix i
  end.

(** Two lookups refused: the first with 429, its reply arriving at 25,
    the second with 402, its reply arriving at 21. *)
Definition late_429_early_402 (i : nat) : Reply RapidReply :=
  match i with
  | 0%nat => mkReply (RapidRejects (Some 429)) 25
  | _ => mkReply (RapidRejects (Some 402)) 21
  end.

(** Four names; [A] carries the first three movies, [B] the second and the
    fourth. *)
Definition four : list string := ["Alien"; "Heat"; "Jaws"; "Rocky"].

Definition a_and_b (i : nat) : Reply RapidReply :=
  mkReply
    (match i with
     | 1%nat => shows [offer "subscription" "A"; offer "subscription" "B"]
     | 3%nat => shows [offer "subscription" "B"]
     | _ => shows [offer "subscription" "A"]
     end) (20 + Z.of_nat i).

(** Two names; the first movie is on [Netflix], the second on a service
    named [7]. *)
Definition two : list string := ["Alien"; "Heat"].

Definition netflix_then_7 (i : nat) : Reply RapidReply :=
  mkReply
    (match i with
     | 0%nat => shows [offer "subscription" "Netflix"]
     | _ => shows [offer "subscription" "7"]
     end) (20 + Z.of_nat i).

End Examples.

(** ** What step 3 of the bundle route scans

    The subscription offers met by the two nested [forEach] loops, as
    pairs of a service name and a movie title, in the order they are met:
    the movies in the order of the request, the offers of a movie in the
    order of its [flatrate] array, an offer without a usable service name
    being skipped. *)

Definition offers (m : WithProviders) : list (string * string) :=
  match m with
  | Located _ mv p =>
      omap (λ provider,
              if Js.truthy (serviceName provider)
              then Some (default "" (serviceName provider), Movie.title mv)
              else None)
           (default [] (flatrate_of p))
  | Missing _ => []
  end.

Definition scan (l : list WithProviders) : list (string * string) := l ≫= offers.

(** The elements of [l] not yet in [acc], each once, in the order of their
    first occurrence, after those of [acc]. *)
Definition first_seen_into (acc l : list string) : list string :=
  foldl (λ a x, if bool_decide (x ∈ a) then a else a ++ [x]) acc l.

Definition first_seen (l : list string) : list string := first_seen_into [] l.

(** The services in the order they are first encountered. *)
Definition encountered (l : list WithProviders) : list string :=
  first_seen (scan l).*1.

(** The titles met under the service [s], and the distinct titles it
    covers. *)
Definition titles_on (s : string) (pairs : list (string * string)) : list string :=
  (filter (λ kv, kv.1 = s) pairs).*2.

Definition covered (l : list WithProviders) (s : string) : list string :=
  first_seen (titles_on s (scan l)).

(** The inner [forEach] body on a pair, and the two loops on the list of
    pairs. *)
Definition note_pair (kv : string * string)
    (serviceMovieMap : JsObject.t (list string)) :
    Thrown + JsObject.t (list string) :=
  match JsObject.get serviceMovieMap kv.1 with
  | Some movieList =>
      if Js.arr_includes movieList kv.2 then inr serviceMovieMap
      else inr (JsObject.set serviceMovieMap kv.1 (movieList ++ [kv.2]))
  | None =>
      if bool_decide (kv.1 ∈ JsObject.inherited) then inl TypeError
      else inr (serviceMovieMap ++ [(kv.1, [kv.2])])
  end.

Fixpoint note_pairs (pairs : list (string * string))
    (serviceMovieMap : JsObject.t (list string)) :
    Thrown + JsObject.t (list string) :=
  match pairs with
  | [] => inr serviceMovieMap
  | kv :: rest =>
      match note_pair kv serviceMovieMap with
      | inl e => inl e
      | inr m => note_pairs rest m
      end
  end.

(** [100 * count / total] rounded to the nearest integer, a half being
    rounded up. *)
Definition round_percent (count total : Z) : Z :=
  (200 * count + total) `div` (2 * total).

(** Two states in which every cache lookup answers the same. *)
Definition same_view (p q : Process) : Prop :=
  clock p = clock q ∧
  ∀ key, Cache.fresh (clock p) key (cache p) = Cache.fresh (clock q) key (cache q).

(** The entry under [key] was stored by the bundle helper: it has no
    [link], and it is stamped with the arrival of a reply. *)
Definition helper_entry (env : nat → Reply RapidReply) (key : string)
    (q : Process) : Prop :=
  ∃ e, cache q !! key = Some e ∧ link_of (data e) = None ∧
       ∃ j, timestamp e = arrival (env j).

(** ** Resolving a query

    The two ways the server resolves a free-text query: the search route,
    which answers with the whole list, and [searchMovie], which gives the
    first result to the bundle route. *)

Inductive Resolver := ViaSearchRoute | ViaSearchMovie.

Inductive Answer :=
| Routed (r : Response)
| Helped (v : Settled (option Movie.t)).

Definition resolve (how : Resolver) (query : string) (r : Reply OmdbReply) : M Answer :=
  match how with
  | ViaSearchRoute => a ← search_route (Some query) r; mret (Routed a)
  | ViaSearchMovie => v ← searchMovie query r; mret (Helped v)
  end.

(** The answer made of the list [results]. *)
Definition answer_of (how : Resolver) (results : list Movie.t) : Answer :=
  match how with
  | ViaSearchRoute => Routed (respond 200 (Json (SearchResults results)))
  | ViaSearchMovie => Helped (Fulfilled (head results))
  end.

(** ** Failed replies, and what a well-kept cache holds *)

(** The reply is a failure of the search: a rejected request, an error
    body, or a body without a result list. *)
Definition search_failed (reply : OmdbReply) : Prop :=
  match reply with
  | OmdbRejects _ => True
  | OmdbResponse d => Js.truthy (Error d) = true ∨ Search d = None
  end.

(** Every cached search list has at most five movies. *)
Definition short_lists (p : Process) : Prop :=
  ∀ key e l, cache p !! key = Some e → data e = SearchResults l →
             (length l ≤ 5)%nat.

(** The upstream requests the synchronous part of a helper issues from the
    state [p]: the search for a name that has no cached first result, the
    lookup for a found movie whose availability is not cached. *)
Definition search_issued (p : Process) (movieName : string) : list Upstream :=
  match first_cached (Cache.fresh (clock p) (search_key movieName) (cache p)) with
  | Some _ => []
  | None => [OmdbSearch movieName]
  end.

Definition lookup_issued (p : Process) (m : MovieResult) : list Upstream :=
  match m with
  | Found _ mv =>
      match Cache.fresh (clock p) (providers_key (Movie.id mv)) (cache p) with
      | Some _ => []
      | None => [RapidShow (Movie.id mv)]
      end
  | NotFound _ => []
  end.

(** The title of a found movie. *)
Definition found_title (w : WithProviders) : option string :=
  match w with
  | Located _ mv _ => Some (Movie.title mv)
  | Missing _ => None
  end.

(** The element of [moviesWithProviders] made of a result of the search:
    the same name and movie with some providers, or the same name
    alone. *)
Definition attached (m : MovieResult) (w : WithProviders) : Prop :=
  match m with
  | Found n mv => ∃ c, w = Located n mv c
  | NotFound n => w = Missing n
  end.

(** * Properties *)

(** ** The cache store *)

Module CacheFacts.
Section store.
Context {V : Type}.
Implicit Types (c : gmap string (CacheEntry V)) (key : string) (now : Z).
Import Cache.

Lemma getFromCache_hit now key c e :
  c !! key = Some e → now - timestamp e ≤ CACHE_TTL →
  getFromCache now key c = (Some (data e), c).
Proof.
  intros Hk Hle. unfold getFromCache. rewrite Hk.
  rewrite bool_decide_eq_false_2; [done | lia].
Qed.

Lemma getFromCache_expired now key c e :
  c !! key = Some e → now - timestamp e > CACHE_TTL →
  getFromCache now key c = (None, delete key c).
Proof.
  intros Hk Hgt. unfold getFromCache. rewrite Hk.
  by rewrite bool_decide_eq_true_2.
Qed.

Lemma getFromCache_miss now key c :
  c !! key = None → getFromCache now key c = (None, c).
Proof. intros Hk. unfold getFromCache. by rewrite Hk. Qed.

(** A lookup never changes what a later lookup at the same instant
    answers, for any key. *)
Lemma fresh_after_get now key key' c :
  fresh now key' (getFromCache now key c).2 = fresh now key' c.
Proof.
  unfold fresh, getFromCache.
  destruct (c !! key) as [e|] eqn:Hk; [|done].
  case_bool_decide as Hexp; [|done]. simpl.
  destruct (decide (key = key')) as [<-|Hne].
  - rewrite lookup_delete_eq, Hk. by rewrite bool_decide_eq_true_2.
  - rewrite lookup_delete_ne by done.
    destruct (c !! key'); [|done]. by case_bool_decide.
Qed.

Lemma fresh_setCache now key c (v : V) t :
  now - t ≤ CACHE_TTL → fresh now key (setCache t key v c) = Some v.
Proof.
  intros Hle. unfold fresh.
  rewrite (getFromCache_hit _ _ _ (mkEntry v t)); [done | apply lookup_insert_eq | done].
Qed.

Lemma getFromCache_setCache now key c (v : V) t :
  now - t ≤ CACHE_TTL →
  (getFromCache now key (setCache t key v c)).2 = setCache t key v c.
Proof.
  intros Hle.
  rewrite (getFromCache_hit _ _ _ (mkEntry v t)); [done | apply lookup_insert_eq | done].
Qed.

(** ** C3 *)

(** C3. [get(k)] after [put(k, v)] returns [v] unchanged (and leaves the
    store as it is) as long as no more than the 24h TTL has elapsed since
    the put; once more than the TTL has elapsed, [get(k)] returns absent
    and the lookup itself removes the entry: the key is gone and the
    store is one entry smaller. *)
Theorem cache_put_get (k : string) (v : V) (c : gmap string (CacheEntry V))
    (t_put t_get : Z) :
  let c1 := setCache t_put k v c in
  (t_get - t_put ≤ CACHE_TTL →
     getFromCache t_get k c1 = (Some v, c1)) ∧
  (t_get - t_put > CACHE_TTL →
     let '(r, c2) := getFromCache t_get k c1 in
     r = None ∧ c2 !! k = None ∧ size c1 = S (size c2) ∧
     ∀ k', k' ≠ k → c2 !! k' = c !! k').
Proof.
  intros c1. split; intros Ht.
  - apply (getFromCache_hit _ _ _ (mkEntry v t_put)); [|done].
    apply lookup_insert_eq.
  - rewrite (getFromCache_expired _ _ _ (mkEntry v t_put));
      [| apply lookup_insert_eq | done].
    split; [done|]. split; [apply lookup_delete_eq|]. split.
    + unfold c1, setCache. rewrite delete_insert_eq.
      destruct (c !! k) as [e|] eqn:Hk.
      * rewrite <- (insert_delete_eq c k (mkEntry v t_put)).
        rewrite map_size_insert_None by apply lookup_delete_eq. done.
      * rewrite map_size_insert_None by done.
        by rewrite delete_id.
    + intros k' Hne. unfold c1, setCache.
      rewrite lookup_delete_ne by done. by rewrite lookup_insert_ne.
Qed.

End store.

(** The two halves of [cache_put_get] at a concrete store: a value read
    back five milliseconds after it was put, and one millisecond after its
    expiry. *)
Lemma cache_put_get_witness :
  Cache.getFromCache 5 "tt0133093" (Cache.setCache 0 "tt0133093" 7%nat ∅)
    = (Some 7%nat, Cache.setCache 0 "tt0133093" 7%nat ∅) ∧
  (Cache.getFromCache (CACHE_TTL + 1) "tt0133093"
     (Cache.setCache 0 "tt0133093" 7%nat ∅)).1 = None.
Proof.
  split.
  - apply (cache_put_get "tt0133093" 7%nat ∅ 0 5). unfold CACHE_TTL. lia.
  - pose proof (proj2 (cache_put_get "tt0133093" 7%nat ∅ 0 (CACHE_TTL + 1))) as H.
    simpl in H.
    destruct (Cache.getFromCache (CACHE_TTL + 1) "tt0133093"
                (Cache.setCache 0 "tt0133093" 7%nat ∅)) as [r c2].
    apply H. lia.
Defined.

End CacheFacts.

(** ** Running the handlers *)

Lemma getFromCache_run key p :
  getFromCache key p =
    (Cache.fresh (clock p) key (cache p),
     with_cache (Cache.getFromCache (clock p) key (cache p)).2 p).
Proof.
  unfold getFromCache, Cache.fresh.
  by destruct (Cache.getFromCache (clock p) key (cache p)).
Qed.

Ltac run_M := unfold mbind, M_bind, mret, M_ret; simpl.

(** ** Classification of the streaming options *)

Lemma of_type_spec t opts o :
  o ∈ of_type t opts ↔ o ∈ opts ∧ type o = Some t.
Proof. unfold of_type. rewrite list_elem_of_filter. tauto. Qed.

(** C8. When the route fetches the availability of a title, every raw
    streaming option goes to [flatrate], [rent] or [buy] by exact equality
    of its [type] with ["subscription"], ["rent"] or ["buy"], in the order
    of the upstream array, and an option of any other type is in none of the
    three; on [[{type:"subscription"},{type:"rent"},{type:"unknown"}]] the
    result has the first option alone under [flatrate], the second alone
    under [rent], and nothing under [buy].  The bundle helper builds the
    same three lists. *)
Theorem providers_route_classifies imdbId headers d t p :
  Cache.fresh (clock p) (providers_key imdbId) (cache p) = None →
  let opts := default [] (streamingOptions_in d) in
  ∃ res,
    (providers_route imdbId (mkReply (RapidResponse headers d) t) p).1
      = respond 200 (Json (ProviderData res)) ∧
    flatrate res = filter (λ o, type o = Some "subscription") opts ∧
    rent res = filter (λ o, type o = Some "rent") opts ∧
    buy res = filter (λ o, type o = Some "buy") opts ∧
    (∀ o, o ∈ flatrate res ↔ o ∈ opts ∧ type o = Some "subscription") ∧
    (∀ o, o ∈ rent res ↔ o ∈ opts ∧ type o = Some "rent") ∧
    (∀ o, o ∈ buy res ↔ o ∈ opts ∧ type o = Some "buy") ∧
    (∀ o, type o ≠ Some "subscription" → type o ≠ Some "rent" →
          type o ≠ Some "buy" →
          (o ∉ flatrate res) ∧ (o ∉ rent res) ∧ (o ∉ buy res)) ∧
    (∀ s r u, opts = [mkOption (Some "subscription") s;
                      mkOption (Some "rent") r;
                      mkOption (Some "unknown") u] →
       flatrate res = [mkOption (Some "subscription") s] ∧
       rent res = [mkOption (Some "rent") r] ∧
       buy res = []) ∧
    (getProvidersForMovie imdbId (mkReply (RapidResponse headers d) t) p).1
      = Fulfilled (ProviderData
          (mkProviders None (flatrate res) (rent res) (buy res) false None)).
Proof.
  intros Hmiss opts.
  unfold providers_route, getProvidersForMovie, run_async,
    getProvidersForMovie_begin. run_M.
  rewrite !getFromCache_run, Hmiss. simpl.
  eexists. split; [reflexivity|]. simpl. fold opts.
  split_and!; try done.
  - intros o. apply of_type_spec.
  - intros o. apply of_type_spec.
  - intros o. apply of_type_spec.
  - intros o H1 H2 H3. rewrite !of_type_spec. split_and!; intros [_ ?]; done.
  - intros s r u Heq. by rewrite Heq.
Qed.

Lemma providers_route_classifies_witness :
  ∃ res,
    (providers_route "tt0133093"
       (mkReply (RapidResponse (mkHeaders None None)
          (mkRapidData (Some [mkOption (Some "subscription") None;
                              mkOption (Some "rent") None;
                              mkOption (Some "unknown") None]) None)) 10)
       Examples.boot).1 = respond 200 (Json (ProviderData res)) ∧
    flatrate res = [mkOption (Some "subscription") None] ∧
    rent res = [mkOption (Some "rent") None] ∧
    buy res = [].
Proof.
  destruct (providers_route_classifies "tt0133093" (mkHeaders None None)
    (mkRapidData (Some [mkOption (Some "subscription") None;
                        mkOption (Some "rent") None;
                        mkOption (Some "unknown") None]) None) 10 Examples.boot)
    as (res & Hres & _ & _ & _ & _ & _ & _ & _ & Hex & _).
  - reflexivity.
  - exists res. split; [exact Hres|]. apply (Hex None None None). reflexivity.
Defined.

(** ** A title unknown to the availability provider *)

(** C4, as the claim states it, fails on the bundle helper: its answer to
    a 404 carries no [notFound] flag. *)
Lemma helper_404_carries_no_flag :
  (getProvidersForMovie "tt0000001" (mkReply (RapidRejects (Some 404)) 10)
     Examples.boot).1
    = Fulfilled (ProviderData (mkProviders None [] [] [] false None)) ∧
  notFound (mkProviders None [] [] [] false None) ≠ true.
Proof. split; [reflexivity | discriminate]. Qed.

(** C4, amended. When the availability provider answers 404 for a title
    that is looked up, neither path fails and both give empty [flatrate],
    [rent] and [buy] lists: the route answers 200 with [notFound: true],
    the bundle helper returns the lists alone, without a [notFound]
    flag. *)
Theorem unknown_title_is_success imdbId t p :
  Cache.fresh (clock p) (providers_key imdbId) (cache p) = None →
  (providers_route imdbId (mkReply (RapidRejects (Some 404)) t) p).1
    = respond 200 (Json (ProviderData (mkProviders None [] [] [] true None))) ∧
  (getProvidersForMovie imdbId (mkReply (RapidRejects (Some 404)) t) p).1
    = Fulfilled (ProviderData (mkProviders None [] [] [] false None)).
Proof.
  intros Hmiss. split.
  - unfold providers_route. run_M. by rewrite getFromCache_run, Hmiss.
  - unfold getProvidersForMovie, run_async, getProvidersForMovie_begin. run_M.
    by rewrite getFromCache_run, Hmiss.
Qed.

Lemma unknown_title_is_success_witness :
  (providers_route "tt0000001" (mkReply (RapidRejects (Some 404)) 10)
     Examples.boot).1
    = respond 200 (Json (ProviderData (mkProviders None [] [] [] true None))) ∧
  (getProvidersForMovie "tt0000001" (mkReply (RapidRejects (Some 404)) 10)
     Examples.boot).1
    = Fulfilled (ProviderData (mkProviders None [] [] [] false None)).
Proof. apply (unknown_title_is_success "tt0000001" 10 Examples.boot). reflexivity. Defined.

(** ** One cache key, two shapes *)

(** The helper on its own.  When the helper fetches the availability of a
    title, the entry it stores under [providers:<imdbId>] has no [link]; a
    [GET /api/providers/<id>] that arrives within the TTL of that entry
    issues no upstream request and answers with the stored object, whereas
    the object the route builds from the same upstream response has a
    [link] and the same three lists. *)
Theorem helper_entry_served_without_link imdbId headers d t t2 r2 p :
  Cache.fresh (clock p) (providers_key imdbId) (cache p) = None →
  t2 - t ≤ CACHE_TTL →
  let fetched := getProvidersForMovie imdbId (mkReply (RapidResponse headers d) t) p in
  let served := at_time t2 (providers_route imdbId r2) fetched.2 in
  ∃ res,
    fetched.1 = Fulfilled (ProviderData res) ∧
    link res = None ∧
    cache fetched.2 !! providers_key imdbId = Some (mkEntry (ProviderData res) t) ∧
    sent fetched.2 = sent p ++ [RapidShow imdbId] ∧
    served.1 = respond 200 (Json (ProviderData res)) ∧
    sent served.2 = sent fetched.2 ∧
    link_of (ProviderData res) = None ∧
    ∃ res',
      (providers_route imdbId (mkReply (RapidResponse headers d) t) p).1
        = respond 200 (Json (ProviderData res')) ∧
      is_Some (link res') ∧
      flatrate res' = flatrate res ∧ rent res' = rent res ∧ buy res' = buy res.
Proof.
  intros Hmiss Httl fetched served.
  unfold served, fetched, at_time.
  unfold getProvidersForMovie, run_async, getProvidersForMovie_begin,
    getProvidersForMovie_resume, providers_route.
  run_M. rewrite !getFromCache_run, Hmiss. simpl.
  eexists. split; [reflexivity|]. split; [reflexivity|].
  split; [apply lookup_insert_eq|]. split; [reflexivity|].
  rewrite CacheFacts.fresh_setCache, CacheFacts.getFromCache_setCache by done.
  simpl. split; [reflexivity|]. split; [reflexivity|]. split; [reflexivity|].
  eexists. split; [reflexivity|]. simpl. split; [|done].
  unfold Js.or_else. destruct (Js.truthy (imdbLink d)) eqn:Ht; [|by eexists].
  destruct (imdbLink d); [by eexists | done].
Qed.

Lemma helper_entry_served_without_link_witness :
  let fetched :=
    getProvidersForMovie "tt0133093"
      (mkReply (Examples.shows [Examples.offer "subscription" "Netflix"]) 10)
      Examples.boot in
  ∃ res,
    fetched.1 = Fulfilled (ProviderData res) ∧ link res = None ∧
    (at_time 500 (providers_route "tt0133093" (mkReply (RapidRejects None) 600))
       fetched.2).1 = respond 200 (Json (ProviderData res)).
Proof.
  intros fetched.
  destruct (helper_entry_served_without_link "tt0133093" (mkHeaders None None)
    (mkRapidData (Some [Examples.offer "subscription" "Netflix"])
       (Some "https://www.imdb.com/")) 10 500 (mkReply (RapidRejects None) 600)
    Examples.boot) as (res & H1 & H2 & _ & _ & H5 & _).
  - reflexivity.
  - unfold CACHE_TTL. lia.
  - exists res. split; [exact H1|]. split; [exact H2 | exact H5].
Defined.

(** ** Resolving the same query twice *)

(** C2, as the claim states it, fails for a query the search provider does
    not know: nothing is cached, and the second resolution, one second
    after the first, calls the provider again. *)
Lemma resolve_twice_not_found :
  let r := mkReply (OmdbResponse (mkOmdbData (Some "Movie not found!") None)) 1000 in
  let first := at_time 0 (searchMovie "Zzzzznotreal" r) Examples.boot in
  let second := at_time 2000 (searchMovie "Zzzzznotreal" r) first.2 in
  2000 - 1000 ≤ CACHE_TTL ∧
  sent second.2 = [OmdbSearch "Zzzzznotreal"; OmdbSearch "Zzzzznotreal"].
Proof. split; [unfold CACHE_TTL; lia | reflexivity]. Qed.

(** C2, amended. Take a query that has no live cache entry, resolved a
    first time with the search provider answering a non-empty result list
    and no error text, and resolved again once the first resolution is
    over, no later than the TTL after that answer arrived, each time
    through the search route (the query being non-empty) or through
    [searchMovie].  The first resolution stores the cleaned list under
    [search:] followed by the lower-cased, trimmed query; the second is
    answered from that entry; the two together issue exactly one upstream
    search call. *)
Theorem resolve_twice_one_call how1 how2 query d movie rest t0 t1 t2 r2 p :
  (how1 = ViaSearchRoute ∨ how2 = ViaSearchRoute → query ≠ "") →
  Cache.fresh t0 (search_key query) (cache p) = None →
  Js.truthy (Error d) = false →
  Search d = Some (movie :: rest) →
  t2 - t1 ≤ CACHE_TTL →
  let results := clean_results (movie :: rest) in
  let first := at_time t0 (resolve how1 query (mkReply (OmdbResponse d) t1)) p in
  let second := at_time t2 (resolve how2 query r2) first.2 in
  first.1 = answer_of how1 results ∧
  search_key query = "search:" +:+ Js.trim (Js.toLowerCase query) ∧
  cache first.2 !! search_key query = Some (mkEntry (SearchResults results) t1) ∧
  sent first.2 = sent p ++ [OmdbSearch query] ∧
  second.1 = answer_of how2 results ∧
  sent second.2 = sent p ++ [OmdbSearch query] ∧
  cache second.2 = cache first.2.
Proof.
  intros Hq Hmiss Herr Hsearch Httl results first second.
  assert (Hfirst :
    first = (answer_of how1 results,
             let p1 := with_cache (Cache.getFromCache t0 (search_key query) (cache p)).2
                         (with_clock t0 p) in
             let p2 := match how1 with
                       | ViaSearchRoute =>
                           (count_omdb_call
                              (with_clock t1
                                 (with_sent (sent p ++ [OmdbSearch query])
                                    (checkOmdbReset p1).2))).2
                       | ViaSearchMovie =>
                           with_clock t1 (with_sent (sent p ++ [OmdbSearch query]) p1)
                       end in
             with_cache (Cache.setCache t1 (search_key query) (SearchResults results)
                           (cache p2)) p2)).
  { unfold first, at_time, resolve. destruct how1.
    - unfold search_route.
      destruct query as [|c q]; [exfalso; apply Hq; [by left | done] |]. simpl Js.truthy. cbv iota.
      simpl negb. cbv iota. run_M.
      rewrite getFromCache_run. simpl. rewrite Hmiss. simpl.
      unfold checkOmdbReset. simpl. case_bool_decide; simpl;
        rewrite Herr, Hsearch; done.
    - unfold searchMovie, run_async, searchMovie_begin, searchMovie_resume. run_M.
      rewrite getFromCache_run. simpl. rewrite Hmiss. simpl.
      rewrite Herr, Hsearch. done. }
  assert (Hcache : cache first.2 =
            Cache.setCache t1 (search_key query) (SearchResults results)
              (Cache.getFromCache t0 (search_key query) (cache p)).2).
  { rewrite Hfirst. simpl. destruct how1; simpl; [|done].
    unfold checkOmdbReset. simpl. by case_bool_decide. }
  assert (Hsent : sent first.2 = sent p ++ [OmdbSearch query]).
  { rewrite Hfirst. simpl. by destruct how1. }
  assert (Hsecond : second = (answer_of how2 results, with_clock t2 first.2)).
  { unfold second, at_time, resolve. destruct how2.
    - unfold search_route.
      destruct query as [|c q]; [exfalso; apply Hq; [by right | done] |]. simpl Js.truthy.
      simpl negb. cbv iota. run_M.
      rewrite getFromCache_run. simpl. rewrite Hcache.
      rewrite CacheFacts.fresh_setCache, CacheFacts.getFromCache_setCache by done.
      simpl. rewrite <- Hcache. f_equal; by destruct (first.2).
    - unfold searchMovie, run_async, searchMovie_begin. run_M.
      rewrite getFromCache_run. simpl. rewrite Hcache.
      rewrite CacheFacts.fresh_setCache, CacheFacts.getFromCache_setCache by done.
      simpl. rewrite <- Hcache. f_equal; by destruct (first.2). }
  split; [by rewrite Hfirst|]. split; [done|].
  split; [rewrite Hcache; apply lookup_insert_eq|].
  split; [done|]. rewrite Hsecond. simpl. done.
Qed.

Lemma resolve_twice_one_call_witness :
  let r := mkReply (Examples.hit "tt0133093" "The Matrix" "1999") 1000 in
  let first := at_time 0 (resolve ViaSearchMovie " The MATRIX " r) Examples.boot in
  let second := at_time 2000 (resolve ViaSearchRoute " The MATRIX " r) first.2 in
  cache first.2 !! "search:the matrix"
    = Some (mkEntry (SearchResults [Movie.mk "tt0133093" "The Matrix" "1999" "N/A"]) 1000) ∧
  sent second.2 = [OmdbSearch " The MATRIX "].
Proof.
  destruct (resolve_twice_one_call ViaSearchMovie ViaSearchRoute " The MATRIX "
    (mkOmdbData None (Some [mkOmdbMovie "tt0133093" "The Matrix" "1999" "N/A"]))
    (mkOmdbMovie "tt0133093" "The Matrix" "1999" "N/A") [] 0 1000 2000
    (mkReply (Examples.hit "tt0133093" "The Matrix" "1999") 1000) Examples.boot)
    as (_ & _ & H3 & _ & _ & H6 & _).
  - discriminate.
  - reflexivity.
  - reflexivity.
  - reflexivity.
  - unfold CACHE_TTL. lia.
  - split; [exact H3 | exact H6].
Defined.

(** ** [Array.prototype.sort] *)

Module JsArrayFacts.
Section sort.
Context {A : Type} (after : A → A → bool).

Lemma insert_Permutation a l : JsArray.insert after a l ≡ₚ a :: l.
Proof.
  induction l as [|b l IH]; simpl; [done|].
  destruct (after a b); [|done].
  rewrite IH. apply Permutation_swap.
Qed.

Lemma sort_Permutation l : JsArray.sort after l ≡ₚ l.
Proof.
  induction l as [|a l IH]; simpl; [done|].
  rewrite insert_Permutation. by f_equiv.
Qed.

Lemma elem_of_sort x l : x ∈ JsArray.sort after l ↔ x ∈ l.
Proof. by rewrite sort_Permutation. Qed.

Section sorted.
Hypothesis after_asym : ∀ a b, after a b = true → after b a = false.
Hypothesis after_trans :
  ∀ a b c, after a b = false → after b c = false → after a c = false.

Lemma insert_sorted a l :
  StronglySorted (λ x y, after x y = false) l →
  StronglySorted (λ x y, after x y = false) (JsArray.insert after a l).
Proof.
  induction 1 as [|b l Hl IH Hb]; simpl.
  { repeat constructor. }
  destruct (after a b) eqn:Hab.
  - constructor; [done|].
    rewrite insert_Permutation. constructor; [by apply after_asym | done].
  - constructor; [by constructor|].
    constructor; [done|].
    eapply Forall_impl; [exact Hb|]. intros c Hc. by eapply after_trans.
Qed.

Lemma sort_sorted l :
  StronglySorted (λ x y, after x y = false) (JsArray.sort after l).
Proof.
  induction l as [|a l IH]; simpl; [constructor | by apply insert_sorted].
Qed.
End sorted.

(** Stability: the elements of a class in which none is to come after
    another keep their order. *)
Lemma filter_insert (P : A → Prop) `{!∀ x, Decision (P x)} a l :
  (∀ b, P a → P b → after a b = false) →
  filter P (JsArray.insert after a l) = filter P (a :: l).
Proof.
  intros Hcls. induction l as [|b l IH]; simpl; [done|].
  destruct (after a b) eqn:Hab; [|done].
  rewrite (filter_cons P b), IH, !(filter_cons P a), (filter_cons P b).
  destruct (decide (P a)) as [Ha|Ha]; [|done].
  destruct (decide (P b)) as [Hb|Hb]; [|done].
  rewrite (Hcls b Ha Hb) in Hab. done.
Qed.

Lemma filter_sort (P : A → Prop) `{!∀ x, Decision (P x)} l :
  (∀ a b, P a → P b → after a b = false) →
  filter P (JsArray.sort after l) = filter P l.
Proof.
  intros Hcls. induction l as [|a l IH]; simpl; [done|].
  rewrite filter_insert by (intros b; apply Hcls).
  by rewrite !(filter_cons P a), IH.
Qed.

End sort.
End JsArrayFacts.

(** ** [Promise.all] *)

Lemma same_view_refl p : same_view p p.
Proof. done. Qed.

Lemma same_view_trans p q r : same_view p q → same_view q r → same_view p r.
Proof.
  intros [Hc1 Hf1] [Hc2 Hf2]. split; [congruence|].
  intros key. by rewrite Hf1, Hf2.
Qed.

Lemma same_view_getFromCache key p : same_view (getFromCache key p).2 p.
Proof.
  rewrite getFromCache_run. split; [done|]. intros key'. simpl.
  apply CacheFacts.fresh_after_get.
Qed.

Lemma same_view_send u p : same_view (send u p).2 p.
Proof. done. Qed.

Lemma getFromCache_view key p q :
  same_view p q → (getFromCache key p).1 = (getFromCache key q).1.
Proof. intros [Hc Hf]. rewrite !getFromCache_run. simpl. apply Hf. Qed.

Lemma StronglySorted_lt_seq a n : StronglySorted lt (seq a n).
Proof.
  revert a. induction n as [|n IH]; intros a; simpl; constructor; [apply IH|].
  apply Forall_forall. intros x Hx%elem_of_seq. lia.
Qed.

Lemma StronglySorted_filter {A} (R : relation A) (P : A → Prop)
    `{!∀ x, Decision (P x)} l :
  StronglySorted R l → StronglySorted R (filter P l).
Proof.
  induction 1 as [|x l Hl IH Hx]; [constructor|].
  rewrite filter_cons. destruct (decide (P x)); [|done].
  constructor; [done|]. rewrite Forall_forall in Hx. apply Forall_forall.
  intros y [_ Hy]%list_elem_of_filter. by apply Hx.
Qed.

Module PromiseFacts.
Section all.
Context {X A R : Type}.
Variable begin : X → M (Step (Settled A)).
Variable resume : X → R → M (Settled A).
Variable env : nat → Reply R.

Local Abbreviation alone := (Promise.alone begin resume env).

Section frame.
Context {T : Type} (f : Process → T).
Hypothesis f_clock : ∀ t p, f (with_clock t p) = f p.
Hypothesis f_begin : ∀ x p, f (begin x p).2 = f p.
Hypothesis f_resume : ∀ x r p, f (resume x r p).2 = f p.

Lemma start_all_frame items p : f (Promise.start_all begin items p).2 = f p.
Proof.
  revert p. induction items as [|x items IH]; intros p; simpl; [done|].
  run_M. destruct (begin x p) as [s p1] eqn:Hb.
  destruct (Promise.start_all begin items p1) as [ss p2] eqn:Hs. simpl.
  change p2 with (ss, p2).2. rewrite <- Hs, IH.
  change p1 with (s, p1).2. by rewrite <- Hb.
Qed.

Lemma deliver_frame order items slots p :
  f (Promise.deliver resume env order items slots p).2 = f p.
Proof.
  revert slots p. induction order as [|i order IH]; intros slots p; simpl; [done|].
  destruct (items !! i) as [x|]; [|apply IH].
  run_M. unfold await.
  destruct (resume x (payload (env i)) (with_clock (arrival (env i)) p))
    as [v p1] eqn:Hr.
  rewrite IH. change p1 with (v, p1).2. by rewrite <- Hr, f_resume.
Qed.

Lemma all_frame items p : f (Promise.all begin resume env items p).2 = f p.
Proof.
  unfold Promise.all. run_M.
  destruct (Promise.start_all begin items p) as [slots p1] eqn:Hs.
  destruct (Promise.deliver resume env _ items slots p1) as [slots' p2] eqn:Hd.
  simpl. change p2 with (slots', p2).2. rewrite <- Hd, deliver_frame.
  change p1 with (slots, p1).2. by rewrite <- Hs, start_all_frame.
Qed.
End frame.

Local Abbreviation resumed := (Promise.resumed resume env).

Section settle.
Hypothesis begin_view : ∀ x p, same_view (begin x p).2 p.
Hypothesis begin_result : ∀ x p q, same_view p q → (begin x p).1 = (begin x q).1.
Hypothesis resume_result : ∀ x r p q, (resume x r p).1 = (resume x r q).1.

Lemma start_all_spec items p q :
  same_view q p →
  (Promise.start_all begin items q).1 = (λ x, (begin x p).1) <$> items ∧
  same_view (Promise.start_all begin items q).2 p.
Proof.
  revert q. induction items as [|x items IH]; intros q Hv; simpl; [done|].
  run_M. destruct (begin x q) as [s q1] eqn:Hb.
  assert (Hv1 : same_view q1 p).
  { change q1 with (s, q1).2. rewrite <- Hb.
    eapply same_view_trans; [apply begin_view | done]. }
  destruct (IH q1 Hv1) as [IH1 IH2].
  destruct (Promise.start_all begin items q1) as [ss q2]. simpl in *.
  split; [|done]. f_equal; [|done].
  change s with (s, q1).1. rewrite <- Hb. by apply begin_result.
Qed.

Lemma deliver_spec p0 order items slots p :
  (Promise.deliver resume env order items slots p).1
    = foldl (resumed p0 items) slots order.
Proof.
  revert slots p. induction order as [|i order IH]; intros slots p; simpl; [done|].
  unfold resumed at 2. destruct (items !! i) as [x|]; [|apply IH].
  run_M. unfold await.
  destruct (resume x (payload (env i)) (with_clock (arrival (env i)) p))
    as [v p1] eqn:Hr.
  rewrite IH. do 3 f_equal.
  change v with (v, p1).1. rewrite <- Hr. apply resume_result.
Qed.

Lemma foldl_resumed_length p0 items slots order :
  length (foldl (resumed p0 items) slots order) = length slots.
Proof.
  revert slots. induction order as [|i order IH]; intros slots; simpl; [done|].
  rewrite IH. unfold resumed. destruct (items !! i); [|done].
  apply length_insert.
Qed.

Lemma foldl_resumed_lookup p0 items slots order i x :
  items !! i = Some x → (i < length slots)%nat →
  foldl (resumed p0 items) slots order !! i =
    if bool_decide (i ∈ order)
    then Some (Done (resume x (payload (env i)) p0).1)
    else slots !! i.
Proof.
  intros Hx. revert slots. induction order as [|j order IH]; intros slots Hi; simpl.
  { done. }
  rewrite IH; last first.
  { unfold resumed. destruct (items !! j); [by rewrite length_insert | done]. }
  destruct (decide (i = j)) as [<-|Hne].
  - rewrite (bool_decide_eq_true_2 (i ∈ i :: order)) by left.
    case_bool_decide; [done|].
    unfold resumed. rewrite Hx. by apply list_lookup_insert_eq.
  - assert (resumed p0 items slots j !! i = slots !! i) as ->.
    { unfold resumed. destruct (items !! j); [|done].
      by apply list_lookup_insert_ne. }
    assert (i ∈ j :: order ↔ i ∈ order) as Hiff
      by (rewrite elem_of_cons; split; [intros [?|?]; done | by right]).
    by rewrite (bool_decide_ext _ _ Hiff).
Qed.

Lemma alone_unfold p p0 i x :
  alone p i x =
    match (begin x p).1 with
    | Done v => v
    | Awaiting => (resume x (payload (env i)) p0).1
    end.
Proof.
  unfold Promise.alone, run_async. run_M.
  destruct (begin x p) as [[v|] p1]; simpl; [done|].
  unfold await. apply resume_result.
Qed.

Lemma elem_of_suspended (slots : list (Step (Settled A))) i :
  i ∈ Promise.suspended slots ↔ slots !! i = Some Awaiting.
Proof.
  unfold Promise.suspended. rewrite list_elem_of_filter, elem_of_seq.
  split.
  - intros [Hs _]. destruct (slots !! i) as [[v|]|]; simpl in Hs; naive_solver.
  - intros Hs. rewrite Hs. split; [done|].
    apply lookup_lt_Some in Hs. lia.
Qed.

Lemma elem_of_settled_at_start (slots : list (Step (Settled A))) i :
  i ∈ Promise.settled_at_start slots ↔ ∃ v, slots !! i = Some (Done v).
Proof.
  unfold Promise.settled_at_start. rewrite list_elem_of_filter, elem_of_seq.
  split.
  - intros [Hs _]. destruct (slots !! i) as [[v|]|]; simpl in Hs; naive_solver.
  - intros [v Hs]. rewrite Hs. split; [done|].
    apply lookup_lt_Some in Hs. lia.
Qed.

Lemma first_rejection_None order (slots : list (Step (Settled A))) :
  Promise.first_rejection order slots = None ↔
  ∀ i, i ∈ order → slots !! i ≫= Promise.rejection = None.
Proof.
  induction order as [|j order IH]; simpl.
  { split; [|done]. intros _ i Hi. by apply elem_of_nil in Hi. }
  destruct (slots !! j ≫= Promise.rejection) as [e|] eqn:Hj.
  - split; [done|]. intros H. specialize (H j). rewrite Hj in H.
    apply H. left.
  - rewrite IH. split.
    + intros H i [->|Hi]%elem_of_cons; [done | by apply H].
    + intros H i Hi. apply H. by right.
Qed.

Lemma first_rejection_Some order (slots : list (Step (Settled A))) e :
  Promise.first_rejection order slots = Some e →
  ∃ i, i ∈ order ∧ slots !! i ≫= Promise.rejection = Some e.
Proof.
  induction order as [|j order IH]; simpl; [done|].
  destruct (slots !! j ≫= Promise.rejection) as [e'|] eqn:Hj.
  - intros [= ->]. exists j. split; [left | done].
  - intros (i & Hi & He)%IH. exists i. split; [by right | done].
Qed.

Lemma mapM_value_fulfilled (settled : list (Settled A)) :
  (∀ e, Rejected e ∉ settled) →
  ∃ vs, settled = Fulfilled <$> vs ∧
        mapM Promise.value (Done <$> settled) = Some vs.
Proof.
  induction settled as [|[v|e] settled IH]; intros Hno.
  - by exists [].
  - destruct IH as (vs & -> & Hm).
    { intros e He. apply (Hno e). by right. }
    exists (v :: vs). split; [done|]. rewrite !fmap_cons. cbn. by rewrite Hm.
  - exfalso. apply (Hno e). left.
Qed.

(** The calls of [Promise.all] do not disturb one another: each settles
    as it would alone from the state in which [Promise.all] is called.
    The promise is fulfilled with the values of the calls when all are
    fulfilled, and rejected with the error of a rejected call
    otherwise. *)
Lemma all_spec items p :
  match (Promise.all begin resume env items p).1 with
  | Resolved vs => imap (alone p) items = Fulfilled <$> vs
  | Failed e => Rejected e ∈ imap (alone p) items
  | Unsettled => False
  end.
Proof.
  unfold Promise.all. run_M.
  destruct (start_all_spec items p p (same_view_refl p)) as [Hslots _].
  destruct (Promise.start_all begin items p) as [slots p1]. simpl in Hslots.
  pose proof (deliver_spec p (Promise.delivery_order env slots) items slots p1)
    as Hd.
  destruct (Promise.deliver resume env _ items slots p1) as [slots' p2].
  simpl in *.
  assert (Hlen : length slots = length items) by (by rewrite Hslots, length_fmap).
  assert (Hall : slots' = Done <$> imap (alone p) items).
  { apply list_eq. intros i. rewrite Hd, list_lookup_fmap, list_lookup_imap.
    destruct (items !! i) as [x|] eqn:Hx; simpl.
    - rewrite (foldl_resumed_lookup _ _ _ _ _ x) by
        (try done; rewrite Hlen; by eapply lookup_lt_Some).
      rewrite (alone_unfold p p).
      assert (Hsi : slots !! i = Some (begin x p).1)
        by (by rewrite Hslots, list_lookup_fmap, Hx).
      case_bool_decide as Hord.
      + unfold Promise.delivery_order in Hord.
        apply JsArrayFacts.elem_of_sort, elem_of_suspended in Hord.
        rewrite Hsi in Hord. injection Hord as ->. done.
      + rewrite Hsi. destruct ((begin x p).1) as [v|] eqn:Hb; [done|].
        exfalso. apply Hord. unfold Promise.delivery_order.
        apply JsArrayFacts.elem_of_sort, elem_of_suspended. done.
    - apply lookup_ge_None. rewrite foldl_resumed_length, Hlen.
      by apply lookup_ge_None. }
  unfold Promise.join.
  destruct (Promise.first_rejection _ slots') as [e|] eqn:Hrej.
  - apply first_rejection_Some in Hrej as (i & _ & Hi).
    rewrite Hall, list_lookup_fmap in Hi.
    destruct (imap (alone p) items !! i) as [[v|e']|] eqn:Hs; simpl in Hi; try done.
    injection Hi as ->. by eapply list_elem_of_lookup_2.
  - destruct (mapM_value_fulfilled (imap (alone p) items)) as (vs & Hvs & Hm).
    + intros e [i Hi]%list_elem_of_lookup_1.
      rewrite first_rejection_None in Hrej.
      assert (Hin : i ∈ Promise.settled_at_start slots ++ Promise.delivery_order env slots).
      { apply lookup_lt_Some in Hi. rewrite length_imap, <- Hlen in Hi.
        destruct (lookup_lt_is_Some_2 _ _ Hi) as [[v|] Hsi].
        - apply elem_of_app. left. apply elem_of_settled_at_start. by exists v.
        - apply elem_of_app. right. unfold Promise.delivery_order.
          by apply JsArrayFacts.elem_of_sort, elem_of_suspended. }
      specialize (Hrej i Hin). rewrite Hall, list_lookup_fmap, Hi in Hrej.
      done.
    + rewrite Hall, Hm. done.
Qed.

Lemma all_length items p vs :
  (Promise.all begin resume env items p).1 = Resolved vs →
  length vs = length items.
Proof.
  intros H. pose proof (all_spec items p) as Hs. rewrite H in Hs.
  apply (f_equal length) in Hs. by rewrite length_imap, length_fmap in Hs.
Qed.

(** What the continuation of one suspended call establishes, and every
    continuation keeps, holds once [Promise.all] is through. *)
Section invariant.
Variable Inv : Process → Prop.
Hypothesis resume_keeps :
  ∀ j y q, Inv q → Inv (resume y (payload (env j)) (with_clock (arrival (env j)) q)).2.

Lemma deliver_keeps order items slots p :
  Inv p → Inv (Promise.deliver resume env order items slots p).2.
Proof.
  revert slots p. induction order as [|j order IH]; intros slots p Hp; simpl; [done|].
  destruct (items !! j) as [y|]; [|by apply IH].
  run_M. unfold await.
  pose proof (resume_keeps j y p Hp) as Hk.
  destruct (resume y (payload (env j)) (with_clock (arrival (env j)) p)) as [v q].
  by apply IH.
Qed.

Lemma deliver_establishes order items slots p i x :
  items !! i = Some x → i ∈ order →
  (∀ q, Inv (resume x (payload (env i)) (with_clock (arrival (env i)) q)).2) →
  Inv (Promise.deliver resume env order items slots p).2.
Proof.
  intros Hx Hi Hest. revert slots p.
  induction order as [|j order IH]; intros slots p; simpl.
  { by apply elem_of_nil in Hi. }
  destruct (decide (i = j)) as [<-|Hne].
  - rewrite Hx. run_M. unfold await.
    pose proof (Hest p) as Hq.
    destruct (resume x (payload (env i)) (with_clock (arrival (env i)) p)) as [v q].
    by apply deliver_keeps.
  - apply elem_of_cons in Hi as [?|Hi]; [done|].
    destruct (items !! j) as [y|]; [|by apply IH].
    run_M. unfold await.
    destruct (resume y (payload (env j)) (with_clock (arrival (env j)) p)) as [v q].
    by apply IH.
Qed.

Lemma all_establishes items p i x :
  items !! i = Some x → (begin x p).1 = Awaiting →
  (∀ q, Inv (resume x (payload (env i)) (with_clock (arrival (env i)) q)).2) →
  Inv (Promise.all begin resume env items p).2.
Proof.
  intros Hx Hb Hest. unfold Promise.all. run_M.
  destruct (start_all_spec items p p (same_view_refl p)) as [Hslots _].
  destruct (Promise.start_all begin items p) as [slots p1]. simpl in Hslots.
  pose proof (deliver_establishes (Promise.delivery_order env slots) items slots p1
    i x Hx) as Hd.
  destruct (Promise.deliver resume env _ items slots p1) as [slots' p2].
  simpl in *. apply Hd; [|done].
  unfold Promise.delivery_order.
  apply JsArrayFacts.elem_of_sort, elem_of_suspended.
  by rewrite Hslots, list_lookup_fmap, Hx, <- Hb.
Qed.
End invariant.

(** Which rejection [Promise.all] reports. *)

Local Abbreviation before := (Promise.before env).

Lemma later_asym i j :
  Promise.later env i j = true → Promise.later env j i = false.
Proof.
  unfold Promise.later. intros H%bool_decide_eq_true.
  apply bool_decide_eq_false. lia.
Qed.

Lemma later_trans i j k :
  Promise.later env i j = false → Promise.later env j k = false →
  Promise.later env i k = false.
Proof.
  unfold Promise.later. intros H1%bool_decide_eq_false H2%bool_decide_eq_false.
  apply bool_decide_eq_false. lia.
Qed.

(** The replies are delivered in the order of [before]. *)
Lemma delivery_order_before (slots : list (Step (Settled A))) l1 i l2 j :
  Promise.delivery_order env slots = l1 ++ i :: l2 → j ∈ l2 → before i j.
Proof.
  intros Hord Hj. unfold Promise.delivery_order in Hord.
  pose proof (JsArrayFacts.sort_sorted (Promise.later env) later_asym later_trans
    (Promise.suspended slots)) as Hsorted.
  rewrite Hord in Hsorted.
  apply StronglySorted_app_1_r, StronglySorted_inv in Hsorted as [_ Hfa].
  rewrite Forall_forall in Hfa. specialize (Hfa j Hj).
  unfold Promise.later in Hfa. apply bool_decide_eq_false in Hfa.
  destruct (decide (arrival (env i) = arrival (env j))) as [Heq|Hne];
    [|left; lia].
  right. split; [done|].
  assert (Hst : filter (λ k, arrival (env k) = arrival (env i))
                  (JsArray.sort (Promise.later env) (Promise.suspended slots))
                = filter (λ k, arrival (env k) = arrival (env i))
                    (Promise.suspended slots)).
  { apply JsArrayFacts.filter_sort. intros a b Ha Hb.
    unfold Promise.later. apply bool_decide_eq_false. lia. }
  rewrite Hord, filter_app, filter_cons in Hst.
  destruct (decide (arrival (env i) = arrival (env i))); [|done].
  assert (Hs : StronglySorted lt
            (filter (λ k, arrival (env k) = arrival (env i))
               (Promise.suspended slots))).
  { apply StronglySorted_filter. unfold Promise.suspended.
    apply StronglySorted_filter, StronglySorted_lt_seq. }
  rewrite <- Hst in Hs.
  apply StronglySorted_app_1_r, StronglySorted_inv in Hs as [_ Hlt].
  rewrite Forall_forall in Hlt. apply Hlt.
  apply list_elem_of_filter. by split.
Qed.

Lemma first_rejection_app l1 l2 (slots : list (Step (Settled A))) :
  Promise.first_rejection (l1 ++ l2) slots =
    match Promise.first_rejection l1 slots with
    | Some e => Some e
    | None => Promise.first_rejection l2 slots
    end.
Proof.
  induction l1 as [|i l1 IH]; simpl; [done|].
  by destruct (slots !! i ≫= Promise.rejection).
Qed.

Lemma first_rejection_split order (slots : list (Step (Settled A))) e :
  Promise.first_rejection order slots = Some e →
  ∃ l1 i l2, order = l1 ++ i :: l2 ∧
             slots !! i ≫= Promise.rejection = Some e ∧
             ∀ j, j ∈ l1 → slots !! j ≫= Promise.rejection = None.
Proof.
  induction order as [|k order IH]; simpl; [done|].
  destruct (slots !! k ≫= Promise.rejection) as [e'|] eqn:Hk.
  - intros [= ->]. exists [], k, order. split; [done|]. split; [done|].
    intros j Hj. by apply elem_of_nil in Hj.
  - intros (l1 & i & l2 & -> & Hi & Hl1)%IH.
    exists (k :: l1), i, l2. split; [done|]. split; [done|].
    intros j [->|Hj]%elem_of_cons; [done | by apply Hl1].
Qed.

(** When no call is rejected before it is suspended, the rejection that
    [Promise.all] reports is that of the rejected call whose reply is
    delivered first. *)
Lemma all_failed_first items p e :
  (∀ x v, (begin x p).1 = Done v → ∃ a, v = Fulfilled a) →
  (Promise.all begin resume env items p).1 = Failed e →
  ∃ i x, items !! i = Some x ∧ alone p i x = Rejected e ∧
    ∀ j y e', items !! j = Some y → alone p j y = Rejected e' → j ≠ i →
              before i j.
Proof.
  intros Hbegin. unfold Promise.all. run_M.
  destruct (start_all_spec items p p
    (same_view_refl p)) as [Hslots _].
  destruct (Promise.start_all begin items p) as [slots p1]. simpl in Hslots.
  pose proof (deliver_spec p
    (Promise.delivery_order env slots) items slots p1) as Hd.
  destruct (Promise.deliver resume env _ items slots p1) as [slots' p2].
  simpl in *.
  assert (Hlen : length slots = length items) by (by rewrite Hslots, length_fmap).
  assert (Hsi : ∀ i x, items !! i = Some x → slots !! i = Some (begin x p).1).
  { intros i x Hx. by rewrite Hslots, list_lookup_fmap, Hx. }
  assert (Hin : ∀ i x, items !! i = Some x →
            (i ∈ Promise.delivery_order env slots ↔ (begin x p).1 = Awaiting)).
  { intros i x Hx. unfold Promise.delivery_order.
    rewrite JsArrayFacts.elem_of_sort, elem_of_suspended, (Hsi i x Hx).
    split; [by intros [= ->] | by intros ->]. }
  assert (Hall : ∀ i x, items !! i = Some x → slots' !! i = Some (Done (alone p i x))).
  { intros i x Hx. rewrite Hd.
    rewrite (foldl_resumed_lookup _ _ _ _ _ x) by
      (try done; rewrite Hlen; by eapply lookup_lt_Some).
    rewrite (alone_unfold p p).
    case_bool_decide as Hord.
    - apply (Hin i x Hx) in Hord. by rewrite Hord.
    - rewrite (Hsi i x Hx). destruct ((begin x p).1) as [v|] eqn:Hb; [done|].
      exfalso. by apply Hord, (Hin i x Hx). }
  assert (Hrej : ∀ i x e', items !! i = Some x →
            (slots' !! i ≫= Promise.rejection = Some e' ↔ alone p i x = Rejected e')).
  { intros i x e' Hx. rewrite (Hall i x Hx). simpl.
    destruct (alone p i x) as [v|e'']; simpl; split; congruence. }
  assert (Hitem : ∀ i, i ∈ Promise.delivery_order env slots → ∃ x, items !! i = Some x).
  { intros i Hi. unfold Promise.delivery_order in Hi.
    apply JsArrayFacts.elem_of_sort, elem_of_suspended in Hi.
    apply lookup_lt_Some in Hi. rewrite Hlen in Hi.
    by apply lookup_lt_is_Some_2. }
  unfold Promise.join. rewrite first_rejection_app.
  assert (Promise.first_rejection (Promise.settled_at_start slots) slots' = None)
    as ->.
  { apply first_rejection_None. intros i Hi.
    apply elem_of_settled_at_start in Hi as [v Hv].
    assert (is_Some (items !! i)) as [x Hx].
    { apply lookup_lt_is_Some_2. rewrite <- Hlen. by eapply lookup_lt_Some. }
    rewrite (Hall i x Hx). simpl.
    rewrite (Hsi i x Hx) in Hv. injection Hv as Hv.
    rewrite (alone_unfold p p), Hv.
    by destruct (Hbegin x v Hv) as [a ->]. }
  destruct (Promise.first_rejection (Promise.delivery_order env slots) slots')
    as [e0|] eqn:Hfirst; [|by destruct (mapM Promise.value slots')].
  intros [= ->].
  apply first_rejection_split in Hfirst as (l1 & i & l2 & Hord & Hi & Hl1).
  destruct (Hitem i) as [x Hx]; [rewrite Hord; apply elem_of_app; right; left|].
  exists i, x. split; [done|]. split; [by apply (Hrej i x e Hx)|].
  intros j y e' Hy Hj Hne.
  apply (delivery_order_before slots l1 i l2 j Hord).
  assert (Hjo : j ∈ Promise.delivery_order env slots).
  { apply (Hin j y Hy). destruct ((begin y p).1) as [v|] eqn:Hb; [|done].
    exfalso. rewrite (alone_unfold p p), Hb
      in Hj. by destruct (Hbegin y v Hb) as [a ->]. }
  rewrite Hord in Hjo. apply elem_of_app in Hjo as [Hjo|Hjo].
  - apply Hl1 in Hjo. apply (Hrej j y e' Hy) in Hj. congruence.
  - by apply elem_of_cons in Hjo as [?|?].
Qed.

End settle.
End all.
End PromiseFacts.

(** ** The helpers under [Promise.all] *)

Lemma searchMovie_begin_view query p : same_view (searchMovie_begin query p).2 p.
Proof.
  unfold searchMovie_begin. run_M.
  pose proof (same_view_getFromCache (search_key query) p) as Hv.
  destruct (getFromCache (search_key query) p) as [cached p1].
  by destruct (first_cached cached).
Qed.

Lemma searchMovie_begin_result query p q :
  same_view p q → (searchMovie_begin query p).1 = (searchMovie_begin query q).1.
Proof.
  intros Hv. unfold searchMovie_begin. run_M.
  pose proof (getFromCache_view (search_key query) p q Hv) as Hc.
  destruct (getFromCache (search_key query) p) as [c1 p1].
  destruct (getFromCache (search_key query) q) as [c2 q1].
  simpl in Hc. subst c2. by destruct (first_cached c1).
Qed.

Lemma searchMovie_resume_result query r p q :
  (searchMovie_resume query r p).1 = (searchMovie_resume query r q).1.
Proof.
  unfold searchMovie_resume. destruct r as [d|st]; [|done].
  destruct (Js.truthy (Error d)); [done|].
  by destruct (Search d) as [[|m l]|].
Qed.

Lemma searchMovie_resume_fulfilled query r p :
  ∃ m, (searchMovie_resume query r p).1 = Fulfilled m.
Proof.
  unfold searchMovie_resume. destruct r as [d|st]; [|by eexists].
  destruct (Js.truthy (Error d)); [by eexists|].
  destruct (Search d) as [[|m l]|]; by eexists.
Qed.

Lemma resolve_begin_view name p : same_view (resolve_begin name p).2 p.
Proof.
  unfold resolve_begin. run_M.
  pose proof (searchMovie_begin_view name p) as Hv.
  by destruct (searchMovie_begin name p).
Qed.

Lemma resolve_begin_result name p q :
  same_view p q → (resolve_begin name p).1 = (resolve_begin name q).1.
Proof.
  intros Hv. unfold resolve_begin. run_M.
  pose proof (searchMovie_begin_result name p q Hv) as Hr.
  destruct (searchMovie_begin name p), (searchMovie_begin name q).
  simpl in *. by subst.
Qed.

Lemma resolve_resume_result name r p q :
  (resolve_resume name r p).1 = (resolve_resume name r q).1.
Proof.
  unfold resolve_resume. run_M.
  pose proof (searchMovie_resume_result name r p q) as Hr.
  destruct (searchMovie_resume name r p), (searchMovie_resume name r q).
  simpl in *. by subst.
Qed.

(** [searchMovie] is never rejected. *)
Lemma searchMovie_fulfilled query r p :
  ∃ m, (searchMovie query r p).1 = Fulfilled m.
Proof.
  unfold searchMovie, run_async, searchMovie_begin. run_M.
  destruct (getFromCache (search_key query) p) as [cached p1].
  destruct (first_cached cached) as [m|]; simpl; [by eexists|].
  unfold await. apply searchMovie_resume_fulfilled.
Qed.

Lemma resolve_alone env p i name :
  Promise.alone resolve_begin resolve_resume env p i name
    = map_settled (as_result name) (searchMovie name (env i) p).1.
Proof.
  unfold Promise.alone, searchMovie, run_async, resolve_begin, resolve_resume.
  run_M. destruct (searchMovie_begin name p) as [[v|] p1]; simpl; [done|].
  by destruct (searchMovie_resume name (payload (env i)) _).
Qed.

Lemma getProvidersForMovie_begin_view imdbId p :
  same_view (getProvidersForMovie_begin imdbId p).2 p.
Proof.
  unfold getProvidersForMovie_begin. run_M.
  pose proof (same_view_getFromCache (providers_key imdbId) p) as Hv.
  destruct (getFromCache (providers_key imdbId) p) as [[c|] p1]; done.
Qed.

Lemma getProvidersForMovie_begin_result imdbId p q :
  same_view p q →
  (getProvidersForMovie_begin imdbId p).1 = (getProvidersForMovie_begin imdbId q).1.
Proof.
  intros Hv. unfold getProvidersForMovie_begin. run_M.
  pose proof (getFromCache_view (providers_key imdbId) p q Hv) as Hc.
  destruct (getFromCache (providers_key imdbId) p) as [c1 p1].
  destruct (getFromCache (providers_key imdbId) q) as [c2 q1].
  simpl in Hc. subst c2. by destruct c1.
Qed.

Lemma getProvidersForMovie_resume_result imdbId r p q :
  (getProvidersForMovie_resume imdbId r p).1
    = (getProvidersForMovie_resume imdbId r q).1.
Proof.
  unfold getProvidersForMovie_resume. destruct r as [h d|[st|]]; try done.
  by destruct (bool_decide (st = 429) || bool_decide (st = 402)).
Qed.

Lemma attach_begin_view m p : same_view (attach_begin m p).2 p.
Proof.
  destruct m as [n mv|n]; [|done]. unfold attach_begin. run_M.
  pose proof (getProvidersForMovie_begin_view (Movie.id mv) p) as Hv.
  by destruct (getProvidersForMovie_begin (Movie.id mv) p).
Qed.

Lemma attach_begin_result m p q :
  same_view p q → (attach_begin m p).1 = (attach_begin m q).1.
Proof.
  intros Hv. destruct m as [n mv|n]; [|done]. unfold attach_begin. run_M.
  pose proof (getProvidersForMovie_begin_result (Movie.id mv) p q Hv) as Hr.
  destruct (getProvidersForMovie_begin (Movie.id mv) p),
    (getProvidersForMovie_begin (Movie.id mv) q).
  simpl in *. by subst.
Qed.

Lemma attach_resume_result m r p q :
  (attach_resume m r p).1 = (attach_resume m r q).1.
Proof.
  destruct m as [n mv|n]; [|done]. unfold attach_resume. run_M.
  pose proof (getProvidersForMovie_resume_result (Movie.id mv) r p q) as Hr.
  destruct (getProvidersForMovie_resume (Movie.id mv) r p),
    (getProvidersForMovie_resume (Movie.id mv) r q).
  simpl in *. by subst.
Qed.

Lemma attach_alone env p i m :
  Promise.alone attach_begin attach_resume env p i m
    = match m with
      | Found n mv =>
          map_settled (Located n mv) (getProvidersForMovie (Movie.id mv) (env i) p).1
      | NotFound n => Fulfilled (Missing n)
      end.
Proof.
  destruct m as [n mv|n]; [|done].
  unfold Promise.alone, getProvidersForMovie, run_async, attach_begin, attach_resume.
  run_M. destruct (getProvidersForMovie_begin (Movie.id mv) p) as [[v|] p1];
    simpl; [done|].
  by destruct (getProvidersForMovie_resume (Movie.id mv) (payload (env i)) _).
Qed.

(** The search phase of the bundle route always completes: every name gets
    a result, found or not. *)
Lemma search_phase_resolves movies env p :
  ∃ movieResults,
    (Promise.all resolve_begin resolve_resume env movies p).1 = Resolved movieResults ∧
    imap (λ i name, (searchMovie name (env i) p).1) movies
      = (λ m, Fulfilled (match m with Found _ mv => Some mv | NotFound _ => None end))
          <$> movieResults ∧
    name_of <$> movieResults = movies.
Proof.
  pose proof (PromiseFacts.all_spec resolve_begin resolve_resume env
    resolve_begin_view resolve_begin_result resolve_resume_result movies p) as Hs.
  destruct (Promise.all resolve_begin resolve_resume env movies p).1 as [vs|e|].
  - exists vs. split; [done|].
    assert (Hpt : ∀ i name, movies !! i = Some name →
              ∃ m, vs !! i = Some (as_result name m) ∧
                   (searchMovie name (env i) p).1 = Fulfilled m).
    { intros i name Hi.
      assert (imap (Promise.alone resolve_begin resolve_resume env p) movies !! i
                = Some (Promise.alone resolve_begin resolve_resume env p i name))
        as Hl by (by rewrite list_lookup_imap, Hi).
      rewrite Hs, list_lookup_fmap, resolve_alone in Hl.
      destruct (searchMovie_fulfilled name (env i) p) as [m Hm].
      rewrite Hm in Hl. simpl in Hl.
      destruct (vs !! i) as [v|]; [|done]. injection Hl as ->. by exists m. }
    assert (Hlen : length vs = length movies).
    { apply (f_equal length) in Hs. by rewrite length_imap, length_fmap in Hs. }
    split; apply list_eq; intros i.
    + rewrite list_lookup_imap, list_lookup_fmap.
      destruct (movies !! i) as [name|] eqn:Hi; simpl.
      * destruct (Hpt i name Hi) as (m & -> & ->). simpl. by destruct m.
      * apply lookup_ge_None in Hi. rewrite <- Hlen in Hi.
        apply lookup_ge_None in Hi. by rewrite Hi.
    + rewrite list_lookup_fmap.
      destruct (movies !! i) as [name|] eqn:Hi; simpl.
      * destruct (Hpt i name Hi) as (m & -> & _). simpl. by destruct m.
      * apply lookup_ge_None in Hi. rewrite <- Hlen in Hi.
        apply lookup_ge_None in Hi. by rewrite Hi.
  - apply list_elem_of_lookup_1 in Hs as [i Hi].
    rewrite list_lookup_imap in Hi. destruct (movies !! i) as [name|]; [|done].
    simpl in Hi. rewrite resolve_alone in Hi.
    destruct (searchMovie_fulfilled name (env i) p) as [m Hm].
    by rewrite Hm in Hi.
  - done.
Qed.

(** ** The daily counter of the search provider *)

Lemma getFromCache_omdb key p : omdb (getFromCache key p).2 = omdb p.
Proof. by rewrite getFromCache_run. Qed.

Lemma searchMovie_begin_omdb query p : omdb (searchMovie_begin query p).2 = omdb p.
Proof.
  unfold searchMovie_begin. run_M.
  pose proof (getFromCache_omdb (search_key query) p) as Hc.
  destruct (getFromCache (search_key query) p) as [cached p1].
  by destruct (first_cached cached).
Qed.

Lemma searchMovie_resume_omdb query r p :
  omdb (searchMovie_resume query r p).2 = omdb p.
Proof.
  unfold searchMovie_resume. destruct r as [d|st]; [|done].
  destruct (Js.truthy (Error d)); [done|].
  by destruct (Search d) as [[|m l]|].
Qed.

Lemma resolve_begin_omdb name p : omdb (resolve_begin name p).2 = omdb p.
Proof.
  unfold resolve_begin. run_M.
  pose proof (searchMovie_begin_omdb name p) as H.
  by destruct (searchMovie_begin name p).
Qed.

Lemma resolve_resume_omdb name r p : omdb (resolve_resume name r p).2 = omdb p.
Proof.
  unfold resolve_resume. run_M.
  pose proof (searchMovie_resume_omdb name r p) as H.
  by destruct (searchMovie_resume name r p).
Qed.

Lemma getProvidersForMovie_begin_omdb imdbId p :
  omdb (getProvidersForMovie_begin imdbId p).2 = omdb p.
Proof.
  unfold getProvidersForMovie_begin. run_M.
  pose proof (getFromCache_omdb (providers_key imdbId) p) as Hc.
  by destruct (getFromCache (providers_key imdbId) p) as [[c|] p1].
Qed.

Lemma getProvidersForMovie_resume_omdb imdbId r p :
  omdb (getProvidersForMovie_resume imdbId r p).2 = omdb p.
Proof.
  unfold getProvidersForMovie_resume. destruct r as [h d|[st|]]; try done.
  by destruct (bool_decide (st = 429) || bool_decide (st = 402)).
Qed.

Lemma attach_begin_omdb m p : omdb (attach_begin m p).2 = omdb p.
Proof.
  destruct m as [n mv|n]; [|done]. unfold attach_begin. run_M.
  pose proof (getProvidersForMovie_begin_omdb (Movie.id mv) p) as H.
  by destruct (getProvidersForMovie_begin (Movie.id mv) p).
Qed.

Lemma attach_resume_omdb m r p : omdb (attach_resume m r p).2 = omdb p.
Proof.
  destruct m as [n mv|n]; [|done]. unfold attach_resume. run_M.
  pose proof (getProvidersForMovie_resume_omdb (Movie.id mv) r p) as H.
  by destruct (getProvidersForMovie_resume (Movie.id mv) r p).
Qed.

Lemma bundle_route_omdb movies omdb_env rapid_env p :
  omdb (bundle_route movies omdb_env rapid_env p).2 = omdb p.
Proof.
  unfold bundle_route.
  destruct (bool_decide (length movies = 0%nat) || bool_decide (10 < length movies)%nat);
    [done|].
  run_M.
  pose proof (PromiseFacts.all_frame resolve_begin resolve_resume omdb_env omdb
    (λ _ _, eq_refl) resolve_begin_omdb resolve_resume_omdb movies p) as H1.
  destruct (Promise.all resolve_begin resolve_resume omdb_env movies p)
    as [[movieResults|e|] p1]; simpl in H1; try done.
  pose proof (PromiseFacts.all_frame attach_begin attach_resume rapid_env omdb
    (λ _ _, eq_refl) attach_begin_omdb attach_resume_omdb movieResults p1) as H2.
  destruct (Promise.all attach_begin attach_resume rapid_env movieResults p1)
    as [[mwp|e|] p2]; simpl in H2; try (by rewrite <- H1).
  destruct (analyze movies movieResults mwp); simpl; by rewrite <- H1.
Qed.

(** C9. [searchMovie] never changes [apiUsage.omdb]: whatever upstream
    search calls a bundle request issues, the counter [dailyCount], and
    with it the daily usage [/api/status] reports, is after the request
    what it was before; the providers route leaves it alone as well.  The
    search route, when it calls the provider and gets a response, adds one
    to the counter. *)
Theorem searchMovie_leaves_dailyCount movies omdb_env rapid_env query r p :
  omdb (searchMovie query r p).2 = omdb p ∧
  omdb (bundle_route movies omdb_env rapid_env p).2 = omdb p ∧
  (∀ imdbId rr, omdb (providers_route imdbId rr p).2 = omdb p) ∧
  (∀ t, estimatedDailyUsage
          (at_time t status_route (bundle_route movies omdb_env rapid_env p).2).1
        = estimatedDailyUsage (at_time t status_route p).1) ∧
  (∀ d t, query ≠ "" →
     Cache.fresh (clock p) (search_key query) (cache p) = None →
     let p' := (search_route (Some query) (mkReply (OmdbResponse d) t) p).2 in
     dailyCount (omdb p') = dailyCount (omdb (checkOmdbReset p).2) + 1 ∧
     sent p' = sent p ++ [OmdbSearch query]).
Proof.
  split_and!.
  - unfold searchMovie, run_async. run_M.
    pose proof (searchMovie_begin_omdb query p) as Hb.
    destruct (searchMovie_begin query p) as [[v|] p1]; simpl in *; [done|].
    unfold await. by rewrite searchMovie_resume_omdb.
  - apply bundle_route_omdb.
  - intros imdbId rr. unfold providers_route. run_M.
    pose proof (getFromCache_omdb (providers_key imdbId) p) as Hc.
    destruct (getFromCache (providers_key imdbId) p) as [[c|] p1]; simpl in *;
      [done|].
    destruct (payload rr) as [h d|st]; simpl; [done|].
    repeat case_bool_decide; done.
  - intros t. unfold at_time, status_route, checkOmdbReset, snapshot. run_M.
    rewrite bundle_route_omdb.
    case_bool_decide; simpl; [done | by rewrite bundle_route_omdb].
  - intros d t Hq Hmiss. unfold search_route.
    destruct query as [|c q]; [done|]. simpl Js.truthy. simpl negb. cbv iota.
    run_M. rewrite getFromCache_run, Hmiss. simpl.
    unfold checkOmdbReset. simpl.
    case_bool_decide; simpl; destruct (Js.truthy (Error d)); simpl;
      try destruct (_ || _); simpl; try done;
      by destruct (Search d).
Qed.

Lemma searchMovie_leaves_dailyCount_witness :
  let '(_, p') :=
    search_route (Some "the matrix")
      (mkReply (Examples.hit "tt0133093" "The Matrix" "1999") 7) Examples.boot in
  dailyCount (omdb p') = 1 ∧ sent p' = [OmdbSearch "the matrix"].
Proof.
  pose proof (searchMovie_leaves_dailyCount [] (λ _, mkReply (OmdbRejects None) 0)
    (λ _, mkReply (RapidRejects None) 0) "the matrix"
    (mkReply (OmdbRejects None) 0) Examples.boot) as (_ & _ & _ & _ & H).
  specialize (H (mkOmdbData None (Some [mkOmdbMovie "tt0133093" "The Matrix" "1999" "N/A"])) 7).
  simpl in H. apply H; [discriminate | reflexivity].
Defined.

(** ** Failures of the availability provider during a bundle request *)

Lemma getProvidersForMovie_unfold imdbId r p :
  (getProvidersForMovie imdbId r p).1 =
    match Cache.fresh (clock p) (providers_key imdbId) (cache p) with
    | Some c => Fulfilled c
    | None =>
        match payload r with
        | RapidResponse _ d =>
            Fulfilled (ProviderData
              (mkProviders None
                 (of_type "subscription" (default [] (streamingOptions_in d)))
                 (of_type "rent" (default [] (streamingOptions_in d)))
                 (of_type "buy" (default [] (streamingOptions_in d)))
                 false None))
        | RapidRejects st =>
            if bool_decide (st = Some 429 ∨ st = Some 402)
            then Rejected (RateLimitError (default 0 st))
            else Fulfilled (ProviderData (no_providers false None))
        end
    end.
Proof.
  unfold getProvidersForMovie, run_async, getProvidersForMovie_begin. run_M.
  rewrite getFromCache_run.
  destruct (Cache.fresh _ _ _) as [c|]; simpl; [done|].
  unfold getProvidersForMovie_resume.
  destruct (payload r) as [h d|[st|]]; simpl; [done| |].
  - destruct (decide (st = 429)) as [->|H1]; [done|].
    destruct (decide (st = 402)) as [->|H2]; [done|].
    rewrite (bool_decide_eq_false_2 (st = 429)), (bool_decide_eq_false_2 (st = 402))
      by done.
    rewrite bool_decide_eq_false_2; [done|]. intros [[=]|[=]]; done.
  - done.
Qed.

Lemma getProvidersForMovie_rejected imdbId r p e :
  (getProvidersForMovie imdbId r p).1 = Rejected e →
  ∃ st, e = RateLimitError st ∧ (st = 429 ∨ st = 402) ∧
        payload r = RapidRejects (Some st).
Proof.
  rewrite getProvidersForMovie_unfold.
  destruct (Cache.fresh _ _ _); [done|].
  destruct (payload r) as [h d|st]; [done|].
  case_bool_decide as Hst; [|done].
  intros [= <-]. destruct Hst as [->| ->]; eexists; split_and!; eauto.
Qed.

Lemma bundle_catch_status st :
  st = 429 ∨ st = 402 →
  status (bundle_catch (RateLimitError st)) = st ∧
  ∃ msg, body (bundle_catch (RateLimitError st)) = JsonError msg true (Some "rapidapi").
Proof. intros [-> | ->]; split; try done; by eexists. Qed.

Lemma attach_begin_fulfils m p v :
  (attach_begin m p).1 = Done v → ∃ w, v = Fulfilled w.
Proof.
  destruct m as [n mv|n]; simpl.
  - unfold getProvidersForMovie_begin. run_M. rewrite getFromCache_run.
    destruct (Cache.fresh _ _ _) as [c|]; simpl; [|done].
    intros [= <-]. by eexists.
  - intros [= <-]. by eexists.
Qed.




(** ** A search provider that is rate limited during a bundle request *)

(** C1 fails on the code. With the search provider reporting its request
    limit on the second of five lookups, the bundle route answers 200 with a
    report that counts four movies found and lists the second name as not
    found, whereas the search route answers the same upstream reply with
    429. *)
Theorem bundle_hides_search_rate_limit :
  (∃ report,
     (bundle_route Examples.five Examples.second_limited Examples.on_netflix
        Examples.boot).1 = Some (respond 200 (JsonReport report)) ∧
     totalMovies report = 5%nat ∧
     foundMovies report = 4%nat ∧
     notFoundMovies report = ["Heat"]) ∧
  (searchMovie "Heat" (mkReply Examples.limit_reached 11) Examples.boot).1
    = Fulfilled None ∧
  status (search_route (Some "Heat") (mkReply Examples.limit_reached 11)
            Examples.boot).1 = 429.
Proof.
  split; [|split; reflexivity].
  eexists. split; [vm_compute; reflexivity|]. simpl. done.
Qed.

(** ** Objects used as maps *)

Module JsObjectFacts.
Section get.
Context {V : Type}.
Implicit Types (o : JsObject.t V) (k : string) (v : V).

Lemma get_None o k : JsObject.get o k = None ↔ k ∉ o.*1.
Proof.
  induction o as [|[k' v'] o IH]; simpl.
  { split; [|done]. intros _ H. by apply elem_of_nil in H. }
  case_bool_decide as Hk.
  - split; [done|]. intros H. exfalso. apply H. subst. left.
  - rewrite IH, elem_of_cons. split; [|tauto].
    intros H [->|?]; [done | tauto].
Qed.

Lemma get_Some_elem o k v : JsObject.get o k = Some v → (k, v) ∈ o.
Proof.
  induction o as [|[k' v'] o IH]; simpl; [done|].
  case_bool_decide as Hk.
  - intros [= ->]. subst. left.
  - intros H. right. by apply IH.
Qed.

Lemma elem_get o k v : NoDup o.*1 → (k, v) ∈ o → JsObject.get o k = Some v.
Proof.
  induction o as [|[k' v'] o IH]; simpl.
  { intros _ H. by apply elem_of_nil in H. }
  intros [Hk' Hnd]%NoDup_cons [[= -> ->]|Hin]%elem_of_cons.
  - by rewrite bool_decide_eq_true_2.
  - rewrite bool_decide_eq_false_2; [by apply IH|].
    intros ->. apply Hk'. by apply (list_elem_of_fmap_2 fst) in Hin.
Qed.

Lemma keys_set o k v : (JsObject.set o k v).*1 = o.*1.
Proof.
  induction o as [|[k' v'] o IH]; simpl; [done|].
  case_bool_decide; simpl; [done | f_equal; exact IH].
Qed.

Lemma get_set o k v k' :
  JsObject.get (JsObject.set o k v) k' =
    if bool_decide (k' = k) then (λ _, v) <$> JsObject.get o k
    else JsObject.get o k'.
Proof.
  induction o as [|[k1 v1] o IH]; simpl.
  { by case_bool_decide. }
  destruct (decide (k1 = k)) as [->|Hne].
  - rewrite (bool_decide_eq_true_2 (k = k)) by done. simpl.
    destruct (decide (k' = k)) as [->|Hne'].
    + by rewrite !(bool_decide_eq_true_2 (k = k)).
    + rewrite (bool_decide_eq_false_2 (k' = k)) by done.
      by rewrite (bool_decide_eq_false_2 (k = k')).
  - rewrite (bool_decide_eq_false_2 (k1 = k)) by done. simpl.
    rewrite IH.
    destruct (decide (k' = k)) as [->|Hne'].
    + rewrite (bool_decide_eq_true_2 (k = k)) by done.
      by rewrite (bool_decide_eq_false_2 (k1 = k)).
    + rewrite (bool_decide_eq_false_2 (k' = k)) by done. done.
Qed.

Lemma get_snoc o k v k' :
  JsObject.get (o ++ [(k, v)]) k' =
    match JsObject.get o k' with
    | Some w => Some w
    | None => if bool_decide (k = k') then Some v else None
    end.
Proof.
  induction o as [|[k1 v1] o IH]; simpl; [by case_bool_decide|].
  destruct (bool_decide (k1 = k')); [done | exact IH].
Qed.

Lemma filter_none {A} (P : A → Prop) `{!∀ x, Decision (P x)} (l : list A) :
  (∀ x, x ∈ l → ¬ P x) → filter P l = [].
Proof.
  induction l as [|x l IH]; intros Hno; [done|].
  rewrite filter_cons_False by (apply Hno; left).
  apply IH. intros y Hy. apply Hno. by right.
Qed.

Lemma filter_filter_implied {A} (P Q : A → Prop)
    `{!∀ x, Decision (P x), !∀ x, Decision (Q x)} (l : list A) :
  (∀ x, P x → Q x) → filter P (filter Q l) = filter P l.
Proof.
  intros HPQ. induction l as [|x l IH]; [done|].
  rewrite (filter_cons Q), (filter_cons P x l).
  destruct (decide (Q x)) as [HQ|HQ].
  - by rewrite filter_cons, IH.
  - rewrite IH. destruct (decide (P x)) as [HPx|]; [|done].
    by apply HPQ in HPx.
Qed.

(** Among the keys that are not array indices, [Object.entries] keeps the
    order of creation. *)
Lemma filter_entries (P : string * V → Prop) `{!∀ x, Decision (P x)} o :
  (∀ kv, P kv → JsObject.is_index kv.1 = false) →
  filter P (JsObject.entries o) = filter P o.
Proof.
  intros HP. unfold JsObject.entries. rewrite filter_app.
  rewrite (filter_none P (JsArray.sort _ _)).
  - rewrite app_nil_l. by apply filter_filter_implied.
  - intros kv Hin HPkv.
    apply JsArrayFacts.elem_of_sort, list_elem_of_filter in Hin as [Hidx _].
    apply HP in HPkv. congruence.
Qed.

Lemma entries_Permutation o : JsObject.entries o ≡ₚ o.
Proof.
  unfold JsObject.entries. rewrite JsArrayFacts.sort_Permutation.
  rewrite <- (filter_app_complement (λ kv, JsObject.is_index kv.1 = true) o) at 3.
  apply Permutation_app; [done|].
  assert (filter (λ kv : string * V, JsObject.is_index kv.1 = false) o
          = filter (λ kv : string * V, JsObject.is_index kv.1 ≠ true) o) as ->;
    [|done].
  apply list_filter_iff. intros kv.
  destruct (JsObject.is_index kv.1); split; congruence.
Qed.

End get.
End JsObjectFacts.

(** ** Step 3: the services and the titles they cover *)

Lemma first_seen_into_NoDup acc l : NoDup acc → NoDup (first_seen_into acc l).
Proof.
  revert acc. induction l as [|x l IH]; intros acc Hnd; simpl; [done|].
  apply IH. case_bool_decide as Hx; [done|].
  apply NoDup_app. split_and!; [done | | apply NoDup_singleton].
  intros y Hy ->%list_elem_of_singleton. done.
Qed.

Lemma elem_of_first_seen_into acc l x :
  x ∈ first_seen_into acc l ↔ x ∈ acc ∨ x ∈ l.
Proof.
  revert acc. induction l as [|y l IH]; intros acc; simpl.
  { split; [by left|]. intros [?|H]; [done | by apply elem_of_nil in H]. }
  rewrite IH, elem_of_cons. case_bool_decide as Hy.
  - split; [intros [?|?]; auto|]. intros [?|[->|?]]; auto.
  - rewrite elem_of_app, list_elem_of_singleton. tauto.
Qed.

Lemma if_bool_decide_ext {A} (P Q : Prop) `{!Decision P, !Decision Q} (x y : A) :
  (P ↔ Q) →
  (if bool_decide P then x else y) = (if bool_decide Q then x else y).
Proof. intros HPQ. by rewrite (bool_decide_ext P Q HPQ). Qed.

Lemma titles_on_cons s kv pairs :
  titles_on s (kv :: pairs) =
    if bool_decide (kv.1 = s) then kv.2 :: titles_on s pairs else titles_on s pairs.
Proof.
  unfold titles_on. rewrite filter_cons.
  destruct (decide (kv.1 = s)) as [Hs|Hs].
  - by rewrite bool_decide_eq_true_2.
  - by rewrite bool_decide_eq_false_2.
Qed.

Lemma note_providers_pairs mv l m :
  note_providers (Movie.title mv) l m =
    note_pairs
      (omap (λ provider,
               if Js.truthy (serviceName provider)
               then Some (default "" (serviceName provider), Movie.title mv)
               else None) l) m.
Proof.
  revert m. induction l as [|provider l IH]; intros m; simpl; [done|].
  unfold note_provider. destruct (Js.truthy (serviceName provider)); simpl.
  - unfold note_pair. simpl.
    destruct (JsObject.get m _) as [movieList|].
    + destruct (Js.arr_includes movieList (Movie.title mv)); apply IH.
    + case_bool_decide; [done | apply IH].
  - apply IH.
Qed.

Lemma note_pairs_app l1 l2 m :
  note_pairs (l1 ++ l2) m =
    match note_pairs l1 m with
    | inl e => inl e
    | inr m1 => note_pairs l2 m1
    end.
Proof.
  revert m. induction l1 as [|kv l1 IH]; intros m; simpl; [done|].
  destruct (note_pair kv m); [done | apply IH].
Qed.

Lemma build_map_pairs l m : build_map l m = note_pairs (scan l) m.
Proof.
  revert m. induction l as [|w l IH]; intros m; [done|].
  unfold scan. rewrite bind_cons, note_pairs_app. fold (scan l). simpl.
  destruct w as [n mv p|n]; simpl; [|apply IH].
  destruct (flatrate_of p) as [fl|]; simpl; [|apply IH].
  rewrite <- note_providers_pairs.
  destruct (note_providers (Movie.title mv) fl m); [done | apply IH].
Qed.

Lemma note_pairs_spec pairs m m' :
  note_pairs pairs m = inr m' →
  m'.*1 = first_seen_into m.*1 pairs.*1 ∧
  ∀ s, JsObject.get m' s =
         match JsObject.get m s with
         | Some l => Some (first_seen_into l (titles_on s pairs))
         | None =>
             if bool_decide (s ∈ pairs.*1)
             then Some (first_seen_into [] (titles_on s pairs))
             else None
         end.
Proof.
  revert m. induction pairs as [|[k t] pairs IH]; intros m; simpl.
  { intros [= <-]. split; [done|]. intros s. by destruct (JsObject.get m s). }
  unfold note_pair. simpl.
  destruct (JsObject.get m k) as [movieList|] eqn:Hk.
  - assert (Hin : k ∈ m.*1).
    { apply dec_stable. intros Hn. apply JsObjectFacts.get_None in Hn. congruence. }
    rewrite (bool_decide_eq_true_2 (k ∈ m.*1)) by done.
    unfold Js.arr_includes. case_bool_decide as Ht.
    + intros [Hkeys Hvals]%IH. split; [done|]. intros s. rewrite Hvals.
      rewrite titles_on_cons. simpl.
      destruct (JsObject.get m s) as [l|] eqn:Hs.
      * case_bool_decide as Hks; [|done]. subst s.
        rewrite Hk in Hs. injection Hs as <-. simpl.
        by rewrite bool_decide_eq_true_2.
      * assert (k ≠ s) by congruence.
        rewrite (bool_decide_eq_false_2 (k = s)) by done.
        apply if_bool_decide_ext. rewrite elem_of_cons. split; [by right | by intros [?|?]].
    + intros [Hkeys Hvals]%IH. rewrite JsObjectFacts.keys_set in Hkeys.
      split; [done|]. intros s. rewrite Hvals, JsObjectFacts.get_set, Hk.
      rewrite titles_on_cons. simpl.
      destruct (decide (s = k)) as [->|Hne].
      * rewrite !(bool_decide_eq_true_2 (k = k)) by done. simpl.
        rewrite Hk. by rewrite bool_decide_eq_false_2.
      * rewrite (bool_decide_eq_false_2 (s = k)), (bool_decide_eq_false_2 (k = s))
          by done.
        destruct (JsObject.get m s); [done|].
        apply if_bool_decide_ext. rewrite elem_of_cons. split; [by right | by intros [?|?]].
  - assert (Hin : k ∉ m.*1) by (by apply JsObjectFacts.get_None).
    rewrite (bool_decide_eq_false_2 (k ∈ m.*1)) by done.
    case_bool_decide as Hproto; [done|].
    intros [Hkeys Hvals]%IH. rewrite fmap_app in Hkeys.
    split; [done|]. intros s. rewrite Hvals, JsObjectFacts.get_snoc.
    rewrite titles_on_cons. simpl.
    destruct (JsObject.get m s) as [l|] eqn:Hs.
    + assert (k ≠ s) by congruence.
      by rewrite (bool_decide_eq_false_2 (k = s)).
    + destruct (decide (k = s)) as [->|Hne].
      * rewrite !(bool_decide_eq_true_2 (s = s)) by done.
        rewrite bool_decide_eq_true_2 by left. done.
      * rewrite !(bool_decide_eq_false_2 (k = s)) by done.
        apply if_bool_decide_ext. rewrite elem_of_cons. split; [by right | by intros [?|?]].
Qed.

Lemma filter_fmap {A B} (f : A → B) (P : B → Prop) `{!∀ y, Decision (P y)}
    (l : list A) :
  filter P (f <$> l) = f <$> filter (λ x, P (f x)) l.
Proof.
  induction l as [|x l IH]; [done|].
  rewrite fmap_cons, (filter_cons P), (filter_cons (λ x, P (f x))), IH.
  by destruct (decide (P (f x))).
Qed.

Lemma filter_ext_elem {A} (P Q : A → Prop)
    `{!∀ x, Decision (P x), !∀ x, Decision (Q x)} (l : list A) :
  (∀ x, x ∈ l → (P x ↔ Q x)) → filter P l = filter Q l.
Proof.
  induction l as [|x l IH]; intros Hext; [done|].
  rewrite (filter_cons P), (filter_cons Q), IH
    by (intros y Hy; apply Hext; by right).
  destruct (decide (P x)) as [HP|HP], (decide (Q x)) as [HQ|HQ]; try done.
  - exfalso. apply HQ, Hext; [left | done].
  - exfalso. apply HP, Hext; [left | done].
Qed.

Lemma StronglySorted_weaken {A} (R R' : A → A → Prop) (l : list A) :
  (∀ x y, R x y → R' x y) → StronglySorted R l → StronglySorted R' l.
Proof.
  intros HR. induction 1 as [|x l Hl IH Hx]; constructor; [done|].
  eapply Forall_impl; [exact Hx | by intros y; apply HR].
Qed.

Lemma build_map_spec l m :
  build_map l [] = inr m →
  m.*1 = encountered l ∧ NoDup m.*1 ∧ ∀ s v, (s, v) ∈ m → v = covered l s.
Proof.
  rewrite build_map_pairs. intros [Hkeys Hvals]%note_pairs_spec.
  assert (Hnd : NoDup m.*1).
  { rewrite Hkeys. apply first_seen_into_NoDup, NoDup_nil_2. }
  split; [done|]. split; [done|]. intros s v Hin.
  apply JsObjectFacts.elem_get in Hin; [|done].
  rewrite Hvals in Hin. simpl in Hin.
  case_bool_decide; [|done]. by injection Hin as <-.
Qed.

(** The title of a located movie (the name asked for, for a missing
    one). *)
Lemma scan_titles l kv :
  kv ∈ scan l →
  kv.2 ∈ (λ w, match w with Located _ mv _ => Movie.title mv | Missing n => n end) <$> l.
Proof.
  unfold scan. intros (w & Hkv & Hw)%list_elem_of_bind.
  apply list_elem_of_fmap. exists w. split; [|done].
  destruct w as [n mv p|n]; simpl in Hkv; [|by apply elem_of_nil in Hkv].
  apply list_elem_of_omap in Hkv as (o & _ & Ho).
  destruct (Js.truthy (serviceName o)); [|done]. by injection Ho as <-.
Qed.

(** A service covers at most as many titles as there are movies. *)
Lemma covered_length l s : (length (covered l s) ≤ length l)%nat.
Proof.
  set (wt := λ w, match w with Located _ mv _ => Movie.title mv | Missing n => n end).
  rewrite <- (length_fmap wt l).
  apply submseteq_length, NoDup_submseteq.
  - apply first_seen_into_NoDup, NoDup_nil_2.
  - intros x Hx. unfold covered, first_seen in Hx.
    apply elem_of_first_seen_into in Hx as [Hx|Hx]; [by apply elem_of_nil in Hx|].
    unfold titles_on in Hx.
    apply list_elem_of_fmap in Hx as (kv & -> & Hkv).
    apply list_elem_of_filter in Hkv as [_ Hkv].
    by apply scan_titles.
Qed.

(** ** Step 4: the percentages *)

Lemma coverage_of_round count total :
  (1 ≤ total ≤ 10)%nat → (count ≤ total)%nat →
  coverage_of count total
    = Some (round_percent (Z.of_nat count) (Z.of_nat total)).
Proof.
  intros Ht Hc.
  do 11 (destruct total as [|total];
    [ try lia;
      do 11 (destruct count as [|count]; [try lia; vm_compute; reflexivity|]);
      lia
    | ]).
  lia.
Qed.

Lemma round_percent_nearest count total :
  0 < total →
  2 * total * round_percent count total - total ≤ 200 * count
    < 2 * total * round_percent count total + total.
Proof.
  intros Ht. unfold round_percent.
  pose proof (Z.div_mod (200 * count + total) (2 * total)) as Hdm.
  pose proof (Z.mod_pos_bound (200 * count + total) (2 * total)) as Hb.
  lia.
Qed.

(** ** The report of a bundle request *)

Lemma bundle_catch_not_200 e b : bundle_catch e ≠ respond 200 b.
Proof. destruct e as [st|]; simpl; [case_bool_decide|]; discriminate. Qed.

Lemma bundle_report_inv movies omdb_env rapid_env p report :
  (bundle_route movies omdb_env rapid_env p).1
    = Some (respond 200 (JsonReport report)) →
  (0 < length movies ≤ 10)%nat ∧
  ∃ movieResults moviesWithProviders,
    length movieResults = length movies ∧
    length moviesWithProviders = length movies ∧
    analyze movies movieResults moviesWithProviders = inr report.
Proof.
  unfold bundle_route.
  destruct (decide (length movies = 0%nat)) as [H0|H0].
  { rewrite (bool_decide_eq_true_2 _ H0). simpl. discriminate. }
  destruct (decide (10 < length movies)%nat) as [H10|H10].
  { rewrite (bool_decide_eq_true_2 _ H10), orb_true_r. discriminate. }
  rewrite (bool_decide_eq_false_2 _ H0), (bool_decide_eq_false_2 _ H10). simpl.
  run_M.
  pose proof (PromiseFacts.all_length resolve_begin resolve_resume omdb_env
    resolve_begin_view resolve_begin_result resolve_resume_result movies p) as Hl1.
  destruct (Promise.all resolve_begin resolve_resume omdb_env movies p)
    as [[mr|e|] p1]; simpl in *.
  2: { intros [= H]. by apply bundle_catch_not_200 in H. }
  2: { done. }
  pose proof (PromiseFacts.all_length attach_begin attach_resume rapid_env
    attach_begin_view attach_begin_result attach_resume_result mr p1) as Hl2.
  destruct (Promise.all attach_begin attach_resume rapid_env mr p1)
    as [[mwp|e|] p2]; simpl in *.
  2: { intros [= H]. by apply bundle_catch_not_200 in H. }
  2: { done. }
  destruct (analyze movies mr mwp) as [e|r] eqn:Han; simpl.
  { intros [= H]. by apply bundle_catch_not_200 in H. }
  intros [= <-]. split; [lia|]. exists mr, mwp.
  specialize (Hl1 mr eq_refl). specialize (Hl2 mwp eq_refl).
  split_and!; [done | congruence | done].
Qed.

Lemma fewer_movies_false a b :
  fewer_movies a b = false ↔ (Rank.movieCount b ≤ Rank.movieCount a)%nat.
Proof. unfold fewer_movies. rewrite bool_decide_eq_false. lia. Qed.

Lemma fewer_movies_asym a b : fewer_movies a b = true → fewer_movies b a = false.
Proof.
  unfold fewer_movies. rewrite bool_decide_eq_true, bool_decide_eq_false. lia.
Qed.

Lemma fewer_movies_trans a b c :
  fewer_movies a b = false → fewer_movies b c = false → fewer_movies a c = false.
Proof. rewrite !fewer_movies_false. lia. Qed.

Lemma analyze_inv movies movieResults moviesWithProviders report :
  analyze movies movieResults moviesWithProviders = inr report →
  ∃ serviceMovieMap,
    build_map moviesWithProviders [] = inr serviceMovieMap ∧
    allServices report = rank_services (length movies) serviceMovieMap ∧
    bestService report = head (allServices report) ∧
    totalMovies report = length movies ∧
    movieDetails report = detail <$> moviesWithProviders.
Proof.
  unfold analyze. destruct (build_map moviesWithProviders []) as [e|m]; [done|].
  intros [= <-]. by exists m.
Qed.

Lemma elem_of_rank_services total m e :
  e ∈ rank_services total m ↔ ∃ kv, kv ∈ m ∧ e = rank_entry total kv.
Proof.
  unfold rank_services.
  rewrite JsArrayFacts.elem_of_sort, list_elem_of_fmap.
  split; intros (kv & H1 & H2).
  - exists kv. by rewrite <- (JsObjectFacts.entries_Permutation m).
  - exists kv. by rewrite (JsObjectFacts.entries_Permutation m).
Qed.

(** C6, as the claim states it, fails for a service whose name is an
    array index: with the first movie on "Netflix" and the second on "7",
    both services cover one title and "Netflix" is encountered first, yet
    [Object.entries] lists the key "7" first and the ranking begins with
    it. *)
Lemma ranking_puts_index_names_first :
  ∃ report,
    (bundle_route Examples.two Examples.found_all Examples.netflix_then_7
       Examples.boot).1 = Some (respond 200 (JsonReport report)) ∧
    (λ e, (Rank.service e, Rank.movieCount e)) <$> allServices report
      = [("7", 1%nat); ("Netflix", 1%nat)] ∧
    Detail.subscriptionServices <$> movieDetails report = [["Netflix"]; ["7"]] ∧
    Rank.service <$> allServices report ≠ ["Netflix"; "7"].
Proof.
  eexists. split; [vm_compute; reflexivity|].
  split; [reflexivity|]. split; [reflexivity | discriminate].
Qed.

(** C6, amended. In every report, [allServices] is sorted descending by
    the number of covered titles; it lists each service encountered once,
    with the distinct titles met under it; and the services with equal
    counts whose names are not array indices appear in the order in which
    they were first encountered while scanning the movies in input order.
    The ranking is a function of the movies with their providers and of
    the number of names, so it is the same on every run that gets the
    same ones. *)
Theorem ranking_order movies omdb_env rapid_env p report :
  (bundle_route movies omdb_env rapid_env p).1
    = Some (respond 200 (JsonReport report)) →
  ∃ moviesWithProviders serviceMovieMap,
    length moviesWithProviders = length movies ∧
    movieDetails report = detail <$> moviesWithProviders ∧
    build_map moviesWithProviders [] = inr serviceMovieMap ∧
    allServices report = rank_services (length movies) serviceMovieMap ∧
    bestService report = head (allServices report) ∧
    StronglySorted (λ a b, (Rank.movieCount b ≤ Rank.movieCount a)%nat)
      (allServices report) ∧
    Rank.service <$> allServices report ≡ₚ encountered moviesWithProviders ∧
    (∀ e, e ∈ allServices report →
       Rank.movies e = covered moviesWithProviders (Rank.service e) ∧
       Rank.movieCount e = length (covered moviesWithProviders (Rank.service e))) ∧
    (∀ c,
       Rank.service <$>
         filter (λ e, Rank.movieCount e = c ∧
                      JsObject.is_index (Rank.service e) = false)
                (allServices report)
       = filter (λ s, length (covered moviesWithProviders s) = c ∧
                      JsObject.is_index s = false)
                (encountered moviesWithProviders)).
Proof.
  intros (_ & mr & mwp & _ & Hlen & Han)%bundle_report_inv.
  apply analyze_inv in Han as (m & Hm & Hall & Hbest & _ & Hdet).
  destruct (build_map_spec _ _ Hm) as (Hkeys & Hnd & Hvals).
  exists mwp, m. split_and!; try done.
  - rewrite Hall. unfold rank_services.
    eapply StronglySorted_weaken;
      [| apply (JsArrayFacts.sort_sorted fewer_movies fewer_movies_asym
                  fewer_movies_trans)].
    intros x y. apply fewer_movies_false.
  - rewrite Hall. unfold rank_services.
    rewrite JsArrayFacts.sort_Permutation, <- list_fmap_compose.
    rewrite (JsObjectFacts.entries_Permutation m). by rewrite <- Hkeys.
  - intros e. rewrite Hall. intros (kv & Hkv & ->)%elem_of_rank_services.
    destruct kv as [k v]. simpl. by rewrite (Hvals k v Hkv).
  - intros c. rewrite Hall. unfold rank_services.
    rewrite JsArrayFacts.filter_sort; last first.
    { intros a b [Ha _] [Hb _]. apply fewer_movies_false. lia. }
    rewrite filter_fmap, <- list_fmap_compose.
    rewrite JsObjectFacts.filter_entries by (by intros kv [_ ?]).
    rewrite <- Hkeys, filter_fmap.
    apply (f_equal (fmap fst)). apply filter_ext_elem.
    intros [k v] Hkv. simpl. by rewrite (Hvals k v Hkv).
Qed.

Lemma ranking_order_witness :
  ∃ report,
    (bundle_route Examples.four Examples.found_all Examples.a_and_b
       Examples.boot).1 = Some (respond 200 (JsonReport report)) ∧
    StronglySorted (λ a b, (Rank.movieCount b ≤ Rank.movieCount a)%nat)
      (allServices report) ∧
    Rank.service <$> allServices report = ["A"; "B"].
Proof.
  eexists. split; [vm_compute; reflexivity|].
  destruct (ranking_order Examples.four Examples.found_all Examples.a_and_b
    Examples.boot _ eq_refl) as (mwp & m & _ & _ & _ & _ & _ & Hs & _).
  split; [exact Hs | reflexivity].
Defined.

(** C7. In every report, [totalMovies] is the number of names in the
    request, between 1 and 10, and for every entry of [allServices] the
    count is at most that number and [coverage] is [100 * count / total]
    rounded to the nearest integer (a half upwards); with 4 names, a
    service covering 3 shows 75 and one covering 2 shows 50. *)
Theorem coverage_is_rounded_percent movies omdb_env rapid_env p report :
  (bundle_route movies omdb_env rapid_env p).1
    = Some (respond 200 (JsonReport report)) →
  totalMovies report = length movies ∧
  (1 ≤ totalMovies report ≤ 10)%nat ∧
  (∀ e, e ∈ allServices report →
     let count := Z.of_nat (Rank.movieCount e) in
     let total := Z.of_nat (totalMovies report) in
     Rank.movieCount e = length (Rank.movies e) ∧
     count ≤ total ∧
     ∃ percent,
       Rank.coverage e = Some percent ∧
       percent = round_percent count total ∧
       2 * total * percent - total ≤ 200 * count < 2 * total * percent + total) ∧
  coverage_of 3 4 = Some 75 ∧ coverage_of 2 4 = Some 50.
Proof.
  intros (Hn & mr & mwp & _ & Hlen & Han)%bundle_report_inv.
  apply analyze_inv in Han as (m & Hm & Hall & _ & Htot & _).
  destruct (build_map_spec _ _ Hm) as (_ & _ & Hvals).
  split; [done|]. split; [lia|]. split; [|split; reflexivity].
  intros e. rewrite Hall, Htot.
  intros ([k v] & Hkv & ->)%elem_of_rank_services. simpl.
  assert (Hle : (length v ≤ length movies)%nat).
  { rewrite (Hvals k v Hkv), <- Hlen. apply covered_length. }
  split; [done|]. split; [lia|].
  eexists. split; [by apply coverage_of_round; lia|]. split; [done|].
  apply round_percent_nearest. lia.
Qed.

Lemma coverage_is_rounded_percent_witness :
  ∃ report,
    (bundle_route Examples.four Examples.found_all Examples.a_and_b
       Examples.boot).1 = Some (respond 200 (JsonReport report)) ∧
    totalMovies report = 4%nat ∧
    (λ e, (Rank.service e, Rank.movieCount e, Rank.coverage e))
      <$> allServices report
      = [("A", 3%nat, Some 75); ("B", 2%nat, Some 50)] ∧
    notOnAnySubscription report = [].
Proof.
  eexists. split; [vm_compute; reflexivity|].
  destruct (coverage_is_rounded_percent Examples.four Examples.found_all
    Examples.a_and_b Examples.boot _ eq_refl) as (Ht & _).
  split; [exact Ht|]. split; reflexivity.
Defined.

(** ** The availability entries a bundle request leaves in the cache *)

Lemma attach_resume_keeps env key j m q :
  helper_entry env key q →
  helper_entry env key
    (attach_resume m (payload (env j)) (with_clock (arrival (env j)) q)).2.
Proof.
  intros (e & He & Hl & Ht). destruct m as [n mv|n]; [|by exists e].
  unfold attach_resume, getProvidersForMovie_resume. run_M.
  destruct (payload (env j)) as [h d|[st|]]; simpl.
  - destruct (decide (providers_key (Movie.id mv) = key)) as [<-|Hne].
    + eexists. split; [apply lookup_insert_eq|]. split; [done | by exists j].
    + exists e. split; [|done]. simpl. unfold Cache.setCache.
      by rewrite lookup_insert_ne.
  - destruct (bool_decide (st = 429) || bool_decide (st = 402)); by exists e.
  - by exists e.
Qed.

Lemma attach_resume_establishes env i n mv h d q :
  payload (env i) = RapidResponse h d →
  helper_entry env (providers_key (Movie.id mv))
    (attach_resume (Found n mv) (payload (env i))
       (with_clock (arrival (env i)) q)).2.
Proof.
  intros ->. unfold attach_resume, getProvidersForMovie_resume. run_M.
  eexists. split; [apply lookup_insert_eq|]. split; [done | by exists i].
Qed.

Lemma attach_begin_awaiting n mv p :
  Cache.fresh (clock p) (providers_key (Movie.id mv)) (cache p) = None →
  (attach_begin (Found n mv) p).1 = Awaiting.
Proof.
  intros Hmiss. unfold attach_begin, getProvidersForMovie_begin. run_M.
  by rewrite getFromCache_run, Hmiss.
Qed.

Lemma providers_route_hit imdbId r t q e :
  cache q !! providers_key imdbId = Some e →
  t - timestamp e ≤ CACHE_TTL →
  at_time t (providers_route imdbId r) q
    = (respond 200 (Json (data e)), with_clock t q).
Proof.
  intros He Httl. unfold at_time, providers_route. run_M.
  rewrite getFromCache_run. unfold Cache.fresh. simpl.
  by rewrite (CacheFacts.getFromCache_hit _ _ _ e) by done.
Qed.

Lemma providers_route_links imdbId h d t q :
  Cache.fresh (clock q) (providers_key imdbId) (cache q) = None →
  ∃ res,
    (providers_route imdbId (mkReply (RapidResponse h d) t) q).1
      = respond 200 (Json (ProviderData res)) ∧
    is_Some (link res).
Proof.
  intros Hmiss. unfold providers_route. run_M.
  rewrite getFromCache_run, Hmiss. simpl.
  eexists. split; [reflexivity|]. simpl.
  unfold Js.or_else. destruct (Js.truthy (imdbLink d)) eqn:Ht; [|by eexists].
  destruct (imdbLink d); [by eexists | done].
Qed.

(** C10. The route and the bundle helper store under the same key
    [providers:<imdbId>].  When a bundle request fetches the availability
    of a title (its lookup misses the cache and the provider responds),
    the request leaves under that key an entry without [link]; a
    [GET /api/providers/<id>] that arrives within the TTL of the entry
    issues no upstream request and answers with the stored object, which
    has no [link], whereas the object the route builds from an upstream
    response always has one. *)
Theorem bundle_entry_served_without_link movies omdb_env rapid_env p
    movieResults i n mv headers d :
  (0 < length movies ≤ 10)%nat →
  let resolved := Promise.all resolve_begin resolve_resume omdb_env movies p in
  resolved.1 = Resolved movieResults →
  movieResults !! i = Some (Found n mv) →
  Cache.fresh (clock resolved.2) (providers_key (Movie.id mv)) (cache resolved.2)
    = None →
  payload (rapid_env i) = RapidResponse headers d →
  let p' := (bundle_route movies omdb_env rapid_env p).2 in
  ∃ e,
    cache p' !! providers_key (Movie.id mv) = Some e ∧
    link_of (data e) = None ∧
    (∀ t r, t - timestamp e ≤ CACHE_TTL →
       let served := at_time t (providers_route (Movie.id mv) r) p' in
       served.1 = respond 200 (Json (data e)) ∧
       sent served.2 = sent p') ∧
    (∀ q t,
       Cache.fresh (clock q) (providers_key (Movie.id mv)) (cache q) = None →
       ∃ res,
         (providers_route (Movie.id mv) (mkReply (RapidResponse headers d) t) q).1
           = respond 200 (Json (ProviderData res)) ∧
         is_Some (link res)).
Proof.
  intros [Hlo Hhi] resolved Hres Hi Hmiss Hreply p'.
  assert (Hinv : helper_entry rapid_env (providers_key (Movie.id mv)) p').
  { unfold p', bundle_route.
    rewrite (bool_decide_eq_false_2 (length movies = 0%nat)) by lia.
    rewrite (bool_decide_eq_false_2 (10 < length movies)%nat) by lia.
    simpl. run_M. fold resolved.
    destruct resolved as [found p1]. simpl in Hres, Hmiss. subst found.
    pose proof (PromiseFacts.all_establishes attach_begin attach_resume rapid_env
      attach_begin_view attach_begin_result
      (helper_entry rapid_env (providers_key (Movie.id mv)))
      (attach_resume_keeps rapid_env _) movieResults p1 i (Found n mv) Hi
      (attach_begin_awaiting n mv p1 Hmiss)
      (λ q, attach_resume_establishes rapid_env i n mv headers d q Hreply)) as Hq.
    destruct (Promise.all attach_begin attach_resume rapid_env movieResults p1)
      as [[mwp|e|] p2]; simpl in *; try done.
    by destruct (analyze movies movieResults mwp). }
  destruct Hinv as (e & He & Hl & _). exists e. split_and!; try done.
  - intros t r Httl. simpl. by rewrite (providers_route_hit _ _ _ _ e).
  - intros q t Hq. by apply providers_route_links.
Qed.

Lemma bundle_entry_served_without_link_witness :
  let p' := (bundle_route Examples.five Examples.found_all Examples.on_netflix
               Examples.boot).2 in
  ∃ e,
    cache p' !! "providers:tt0113277" = Some e ∧
    link_of (data e) = None ∧
    (at_time 500 (providers_route "tt0113277" (mkReply (RapidRejects None) 600)) p').1
      = respond 200 (Json (data e)).
Proof.
  intros p'.
  destruct (bundle_entry_served_without_link Examples.five Examples.found_all
    Examples.on_netflix Examples.boot
    [Found "Alien" (Movie.mk "tt0078748" "Alien" "1979" "N/A");
     Found "Heat" (Movie.mk "tt0113277" "Heat" "1995" "N/A");
     Found "Jaws" (Movie.mk "tt0073195" "Jaws" "1975" "N/A");
     Found "Rocky" (Movie.mk "tt0075148" "Rocky" "1976" "N/A");
     Found "Tron" (Movie.mk "tt0084827" "Tron" "1982" "N/A")]
    1%nat "Heat" (Movie.mk "tt0113277" "Heat" "1995" "N/A")
    (mkHeaders None None)
    (mkRapidData (Some [Examples.offer "subscription" "Netflix"])
       (Some "https://www.imdb.com/")))
    as (e & He & Hl & Hserved & _).
  - simpl. lia.
  - vm_compute. reflexivity.
  - reflexivity.
  - vm_compute. reflexivity.
  - reflexivity.
  - exists e. split; [exact He|]. split; [exact Hl|].
    apply (Hserved 500 (mkReply (RapidRejects None) 600)).
    assert (Ht : timestamp e = 21).
    { vm_compute in He. by injection He as <-. }
    rewrite Ht. unfold CACHE_TTL. lia.
Defined.

(** * Further properties of the cache store *)

Module CacheLaws.
Section store.
Context {V : Type}.
Implicit Types (c : gmap string (CacheEntry V)) (key : string) (now : Z).
Import Cache.

(** X1. A lookup is sound: a value it answers is the data of the entry
    stored under that key, which is not older than the TTL, and the store
    is then left as it is; a lookup that answers nothing leaves no entry
    under the key, the key being absent or its entry expired; in every case
    the store only loses the key looked up, and no other entry changes. *)
Theorem getFromCache_sound now key c :
  let r := (getFromCache now key c).1 in
  let c' := (getFromCache now key c).2 in
  c' ⊆ c ∧
  (∀ k, k ≠ key → c' !! k = c !! k) ∧
  (∀ v, r = Some v →
     c' = c ∧ ∃ e, c !! key = Some e ∧ data e = v ∧ now - timestamp e ≤ CACHE_TTL) ∧
  (r = None →
     c' !! key = None ∧
     (c !! key = None ∨ ∃ e, c !! key = Some e ∧ now - timestamp e > CACHE_TTL)).
Proof.
  unfold getFromCache. destruct (c !! key) as [e|] eqn:Hk; simpl.
  - case_bool_decide as Hexp; simpl.
    + split_and!; [apply delete_subseteq | | done |].
      * intros k Hne. by apply lookup_delete_ne.
      * intros _. split; [apply lookup_delete_eq|]. right. by exists e.
    + split_and!; [done | done | | done].
      intros v [= <-]. split; [done|]. exists e. split_and!; [done | done | lia].
  - split_and!; [done | done | done |]. intros _. split; [done | by left].
Qed.

(** X2. A put replaces the entry wholesale and stamps it anew: putting
    twice under one key is the same as the second put alone; the value is
    then served for a TTL counted from the second put, however old the
    first; the answers for other keys are unaffected; and the store grows
    by one entry exactly when the key was absent. *)
Theorem setCache_overwrites key c (v1 v2 : V) t1 t2 :
  setCache t2 key v2 (setCache t1 key v1 c) = setCache t2 key v2 c ∧
  (∀ now, now - t2 ≤ CACHE_TTL →
     fresh now key (setCache t2 key v2 (setCache t1 key v1 c)) = Some v2) ∧
  (∀ now key', key' ≠ key →
     fresh now key' (setCache t1 key v1 c) = fresh now key' c) ∧
  size (setCache t1 key v1 c)
    = match c !! key with Some _ => size c | None => S (size c) end.
Proof.
  unfold setCache. split_and!.
  - apply insert_insert_eq.
  - intros now Hle. rewrite insert_insert_eq.
    by apply CacheFacts.fresh_setCache.
  - intros now key' Hne. unfold fresh, getFromCache.
    rewrite lookup_insert_ne by done.
    destruct (c !! key') as [e|]; [|done]. by case_bool_decide.
  - destruct (c !! key) as [e|] eqn:Hk.
    + by apply map_size_insert_Some.
    + by apply map_size_insert_None.
Qed.

(** X3. The hourly sweep removes exactly the expired entries: what it
    keeps are the entries not older than the TTL, unchanged; it changes no
    answer a lookup gives at that instant; after it a lookup at that
    instant evicts nothing; sweeping twice is sweeping once; and the sweep
    also removes what a lookup would have evicted. *)
Theorem sweep_removes_expired now c :
  (∀ k e, sweep now c !! k = Some e ↔
          c !! k = Some e ∧ now - timestamp e ≤ CACHE_TTL) ∧
  (∀ k, fresh now k (sweep now c) = fresh now k c) ∧
  (∀ k, (getFromCache now k (sweep now c)).2 = sweep now c) ∧
  sweep now (sweep now c) = sweep now c ∧
  (size (sweep now c) ≤ size c)%nat ∧
  (∀ k, sweep now (getFromCache now k c).2 = sweep now c).
Proof.
  assert (Hlk : ∀ k e, sweep now c !! k = Some e ↔
                       c !! k = Some e ∧ now - timestamp e ≤ CACHE_TTL).
  { intros k e. unfold sweep. rewrite map_lookup_filter_Some. simpl.
    split; intros [? ?]; split; try done; lia. }
  assert (Hfr : ∀ k, fresh now k (sweep now c) = fresh now k c).
  { intros k. unfold fresh, getFromCache.
    destruct (sweep now c !! k) as [e|] eqn:Hs.
    - apply Hlk in Hs as [-> Hle].
      by rewrite bool_decide_eq_false_2 by lia.
    - destruct (c !! k) as [e|] eqn:Hk; [|done].
      case_bool_decide as Hexp; [done|].
      assert (sweep now c !! k = Some e) as Hin by (apply Hlk; split; [done | lia]).
      congruence. }
  split_and!; try done.
  - intros k. unfold getFromCache.
    destruct (sweep now c !! k) as [e|] eqn:Hs; [|done].
    apply Hlk in Hs as [_ Hle].
    by rewrite bool_decide_eq_false_2 by lia.
  - unfold sweep. rewrite map_filter_filter. apply map_filter_ext. tauto.
  - apply map_subseteq_size, map_filter_subseteq.
  - intros k. unfold getFromCache.
    destruct (c !! k) as [e|] eqn:Hk; [|done].
    case_bool_decide as Hexp; [|done]. simpl.
    unfold sweep. rewrite map_filter_delete. apply delete_id.
    apply map_lookup_filter_None. right. intros e' He'. simpl.
    rewrite Hk in He'. injection He' as <-. tauto.
Qed.

End store.

Lemma setCache_overwrites_witness :
  Cache.fresh (CACHE_TTL + 10) "k"
    (Cache.setCache 10 "k" 2%nat (Cache.setCache 0 "k" 1%nat ∅)) = Some 2%nat.
Proof.
  apply (setCache_overwrites "k" ∅ 1%nat 2%nat 0 10). lia.
Defined.

Lemma getFromCache_sound_witness :
  ∃ e, Cache.setCache 0 "k" 1%nat ∅ !! "k" = Some e ∧ data e = 1%nat ∧
       5 - timestamp e ≤ CACHE_TTL.
Proof.
  destruct (getFromCache_sound 5 "k" (Cache.setCache 0 "k" 1%nat ∅))
    as (_ & _ & Hhit & _).
  destruct (Hhit 1%nat) as [_ He]; [reflexivity | exact He].
Defined.

Lemma sweep_removes_expired_witness :
  Cache.sweep (CACHE_TTL + 1) (Cache.setCache 0 "k" 1%nat ∅) !! "k" = None.
Proof.
  destruct (sweep_removes_expired (CACHE_TTL + 1) (Cache.setCache 0 "k" 1%nat ∅))
    as (Hlk & _).
  destruct (Cache.sweep (CACHE_TTL + 1) (Cache.setCache 0 "k" 1%nat ∅) !! "k")
    as [e|] eqn:He; [|reflexivity].
  apply Hlk in He as [Hin Hle]. unfold Cache.setCache in Hin.
  rewrite lookup_insert_eq in Hin. injection Hin as <-. simpl in Hle.
  unfold CACHE_TTL in Hle. lia.
Defined.

End CacheLaws.

(** * Further properties of the cache keys *)

Lemma lower_unit_idemp c : Js.lower_unit (Js.lower_unit c) = Js.lower_unit c.
Proof. by destruct c as [[] [] [] [] [] [] [] []]. Qed.

Lemma is_space_lower_unit c : Js.is_space (Js.lower_unit c) = Js.is_space c.
Proof. by destruct c as [[] [] [] [] [] [] [] []]. Qed.

Lemma toLowerCase_idemp s : Js.toLowerCase (Js.toLowerCase s) = Js.toLowerCase s.
Proof.
  induction s as [|c s IH]; simpl; [done|]. by rewrite lower_unit_idemp, IH.
Qed.

Lemma toLowerCase_trimStart s :
  Js.toLowerCase (Js.trimStart s) = Js.trimStart (Js.toLowerCase s).
Proof.
  induction s as [|c s IH]; simpl; [done|].
  rewrite is_space_lower_unit. by destruct (Js.is_space c).
Qed.

Lemma toLowerCase_trimEnd s :
  Js.toLowerCase (Js.trimEnd s) = Js.trimEnd (Js.toLowerCase s).
Proof.
  induction s as [|c s IH]; simpl; [done|].
  rewrite <- IH, is_space_lower_unit.
  destruct (Js.trimEnd s) as [|c' s']; simpl; [|done].
  by destruct (Js.is_space c).
Qed.

Lemma trimStart_unspaced c s :
  Js.is_space c = false → Js.trimStart (String c s) = String c s.
Proof. intros H. simpl. by rewrite H. Qed.

Lemma trimStart_head s :
  Js.trimStart s = EmptyString ∨
  ∃ c r, Js.trimStart s = String c r ∧ Js.is_space c = false.
Proof.
  induction s as [|c s IH]; simpl; [by left|].
  destruct (Js.is_space c) eqn:Hc; [done|]. right. by exists c, s.
Qed.

Lemma trimEnd_idemp s : Js.trimEnd (Js.trimEnd s) = Js.trimEnd s.
Proof.
  induction s as [|c s IH]; simpl; [done|].
  destruct (Js.trimEnd s) as [|c' s'] eqn:Hs.
  - destruct (Js.is_space c) eqn:Hc; simpl; [done|]. by rewrite Hc.
  - simpl in *. by rewrite IH.
Qed.

Lemma trimEnd_head c s :
  Js.is_space c = false → ∃ r, Js.trimEnd (String c s) = String c r.
Proof.
  intros Hc. simpl. destruct (Js.trimEnd s) as [|c' s'].
  - rewrite Hc. by eexists.
  - by eexists.
Qed.

Lemma trim_idemp s : Js.trim (Js.trim s) = Js.trim s.
Proof.
  unfold Js.trim.
  destruct (trimStart_head s) as [->|(c & r & -> & Hc)]; [done|].
  destruct (trimEnd_head c r Hc) as [r' Hr]. rewrite Hr.
  rewrite (trimStart_unspaced c r' Hc), <- Hr. apply trimEnd_idemp.
Qed.

Lemma toLowerCase_trim s : Js.toLowerCase (Js.trim s) = Js.trim (Js.toLowerCase s).
Proof. unfold Js.trim. by rewrite toLowerCase_trimEnd, toLowerCase_trimStart. Qed.

Lemma getFromCache_other_keys {V} now key (c : gmap string (CacheEntry V)) k :
  k ≠ key → (Cache.getFromCache now key c).2 !! k = c !! k.
Proof.
  intros Hne. unfold Cache.getFromCache.
  destruct (c !! key) as [e|]; [|done].
  case_bool_decide; simpl; [by apply lookup_delete_ne | done].
Qed.

Lemma providers_route_other_keys imdbId r p k :
  k ≠ providers_key imdbId →
  cache (providers_route imdbId r p).2 !! k = cache p !! k.
Proof.
  intros Hne. unfold providers_route. run_M. rewrite getFromCache_run.
  destruct (Cache.fresh _ _ _) as [c|]; simpl.
  { by apply getFromCache_other_keys. }
  destruct (payload r) as [h d|st]; simpl.
  - unfold Cache.setCache. rewrite lookup_insert_ne by done.
    by apply getFromCache_other_keys.
  - repeat case_bool_decide; simpl; by apply getFromCache_other_keys.
Qed.

Lemma search_route_other_keys q r p k :
  k ≠ search_key (default "" q) →
  cache (search_route q r p).2 !! k = cache p !! k.
Proof.
  intros Hne. unfold search_route.
  destruct (Js.truthy q); simpl; [|done].
  run_M. rewrite getFromCache_run.
  destruct (Cache.fresh _ _ _) as [c|]; simpl.
  { by apply getFromCache_other_keys. }
  unfold checkOmdbReset. simpl.
  destruct (payload r) as [d|st]; simpl.
  - case_bool_decide; simpl;
      (destruct (Js.truthy (Error d)); simpl;
       [match goal with |- context [if ?b then _ else _] => destruct b end;
        simpl; by apply getFromCache_other_keys|]);
      (destruct (Search d) as [l|]; simpl;
       [unfold Cache.setCache; rewrite lookup_insert_ne by done|];
       by apply getFromCache_other_keys).
  - repeat case_bool_decide; simpl; by apply getFromCache_other_keys.
Qed.

(** X4. The two families of cache keys never meet, and each key says what
    it stands for: a search key is never a providers key, so that the
    providers route never touches the entry of a query and the search
    route never touches the entry of a title; two title ids with one
    providers key are equal; and two queries have one search key exactly
    when they are equal once lower-cased and trimmed. *)
Theorem cache_keys_do_not_collide (q q' imdbId imdbId' : string) :
  search_key q ≠ providers_key imdbId ∧
  (providers_key imdbId = providers_key imdbId' → imdbId = imdbId') ∧
  (search_key q = search_key q' ↔
   Js.trim (Js.toLowerCase q) = Js.trim (Js.toLowerCase q')) ∧
  (∀ r p, cache (providers_route imdbId r p).2 !! search_key q
          = cache p !! search_key q) ∧
  (∀ r p, cache (search_route (Some q) r p).2 !! providers_key imdbId
          = cache p !! providers_key imdbId).
Proof.
  assert (Hne : ∀ a b, search_key a ≠ providers_key b).
  { intros a b. unfold search_key, providers_key. simpl. discriminate. }
  split_and!.
  - apply Hne.
  - unfold providers_key. simpl. by intros [=].
  - unfold search_key. simpl. split; [by intros [=] | by intros ->].
  - intros r p. apply providers_route_other_keys, Hne.
  - intros r p. apply search_route_other_keys. simpl.
    intros H. by apply (Hne q imdbId).
Qed.

(** The query AMELIE and the query amelie, with the E acute (U+00C9) and
    the e acute (U+00E9). *)
Lemma cache_keys_do_not_collide_witness :
  search_key (String "A" (String "M" (String (ascii_of_nat 201) "LIE")))
    = search_key (String "a" (String "m" (String (ascii_of_nat 233) "lie"))).
Proof.
  apply (cache_keys_do_not_collide
           (String "A" (String "M" (String (ascii_of_nat 201) "LIE")))
           (String "a" (String "m" (String (ascii_of_nat 233) "lie"))) "" "").
  reflexivity.
Defined.

(** X5. A search key is canonical: the lower-cased, trimmed form of a
    query has the key of the query, and so has the query in any other
    letter case or with other outer white space (the queries being, as
    all strings here, those with code units below U+0100, accented
    letters and the no-break space included). *)
Theorem search_key_canonical (q : string) :
  search_key (Js.trim (Js.toLowerCase q)) = search_key q ∧
  search_key (Js.toLowerCase q) = search_key q ∧
  search_key (Js.trim q) = search_key q ∧
  (∀ c, Js.is_space c = true →
        search_key (String c q) = search_key q) .
Proof.
  unfold search_key. split_and!; f_equal.
  - by rewrite toLowerCase_trim, toLowerCase_idemp, trim_idemp.
  - by rewrite toLowerCase_idemp.
  - by rewrite toLowerCase_trim, trim_idemp.
  - intros c Hc. f_equal. unfold Js.trim. simpl.
    by rewrite is_space_lower_unit, Hc.
Qed.

(** A query that starts with a no-break space (U+00A0). *)
Lemma search_key_canonical_witness :
  search_key (String (ascii_of_nat 160) "The Matrix") = search_key "The Matrix".
Proof. apply (search_key_canonical "The Matrix"). reflexivity. Defined.

(** * Further properties of the usage tracker and of the status route *)

(** X6. The availability counters are the last ones observed: a header
    that is present replaces the stored value, a header that is absent or
    empty leaves it; recording the same headers twice is recording them
    once; and nothing else of the state is touched. *)
Theorem updateRapidApiUsage_keeps_last headers p :
  let p' := (updateRapidApiUsage headers p).2 in
  remaining (rapidApi p') =
    (if Js.truthy (x_ratelimit_requests_remaining headers)
     then parseInt <$> x_ratelimit_requests_remaining headers
     else remaining (rapidApi p)) ∧
  limit (rapidApi p') =
    (if Js.truthy (x_ratelimit_requests_limit headers)
     then parseInt <$> x_ratelimit_requests_limit headers
     else limit (rapidApi p)) ∧
  (updateRapidApiUsage headers p').2 = p' ∧
  (Js.truthy (x_ratelimit_requests_remaining headers) = false →
   Js.truthy (x_ratelimit_requests_limit headers) = false → p' = p) ∧
  cache p' = cache p ∧ omdb p' = omdb p ∧ sent p' = sent p ∧ clock p' = clock p.
Proof.
  unfold updateRapidApiUsage. simpl.
  destruct (Js.truthy (x_ratelimit_requests_remaining headers)) eqn:Hr,
    (Js.truthy (x_ratelimit_requests_limit headers)) eqn:Hl; simpl;
    split_and!; try done; destruct p as [c [rem lim] o t s]; done.
Qed.

Lemma updateRapidApiUsage_keeps_last_witness :
  (updateRapidApiUsage (mkHeaders (Some "") None) Examples.boot).2 = Examples.boot.
Proof.
  apply (updateRapidApiUsage_keeps_last (mkHeaders (Some "") None) Examples.boot);
    reflexivity.
Defined.

Lemma providers_route_omdb imdbId r p :
  omdb (providers_route imdbId r p).2 = omdb p.
Proof.
  unfold providers_route. run_M.
  pose proof (getFromCache_omdb (providers_key imdbId) p) as Hc.
  destruct (getFromCache (providers_key imdbId) p) as [[c|] p1]; simpl in *;
    [done|].
  destruct (payload r) as [h d|st]; simpl; [done|].
  repeat case_bool_decide; done.
Qed.

Lemma search_route_omdb q r p :
  let p' := (search_route q r p).2 in
  omdb p' = omdb p ∨
  omdb p' = omdb (checkOmdbReset p).2 ∨
  omdb p' = mkOmdbUsage (dailyCount (omdb (checkOmdbReset p).2) + 1)
              (lastReset (omdb (checkOmdbReset p).2)).
Proof.
  unfold search_route. destruct (Js.truthy q); simpl; [|by left].
  run_M. rewrite getFromCache_run.
  destruct (Cache.fresh _ _ _) as [c|]; simpl; [by left|].
  unfold checkOmdbReset. simpl.
  destruct (payload r) as [d|st]; simpl.
  - right. right.
    case_bool_decide; simpl; destruct (Js.truthy (Error d)); simpl;
      try destruct (_ || _); simpl; try done; by destruct (Search d).
  - right. left. by case_bool_decide; simpl; case_bool_decide.
Qed.

(** X7. The daily counter of the search provider never goes below zero:
    each of the four routes leaves it non-negative, since the only writes
    are the reset to zero and the increment. *)
Theorem dailyCount_stays_nonnegative p :
  0 ≤ dailyCount (omdb p) →
  (∀ q r, 0 ≤ dailyCount (omdb (search_route q r p).2)) ∧
  (∀ imdbId r, 0 ≤ dailyCount (omdb (providers_route imdbId r p).2)) ∧
  (∀ movies omdb_env rapid_env,
     0 ≤ dailyCount (omdb (bundle_route movies omdb_env rapid_env p).2)) ∧
  0 ≤ dailyCount (omdb (status_route p).2).
Proof.
  intros Hp.
  assert (Hreset : 0 ≤ dailyCount (omdb (checkOmdbReset p).2)).
  { unfold checkOmdbReset. by case_bool_decide. }
  split_and!.
  - intros q r. destruct (search_route_omdb q r p) as [->|[->| ->]]; simpl; lia.
  - intros imdbId r. by rewrite providers_route_omdb.
  - intros movies omdb_env rapid_env. by rewrite bundle_route_omdb.
  - unfold status_route, snapshot. run_M.
    by destruct (checkOmdbReset p) as [[] p1].
Qed.

Lemma dailyCount_stays_nonnegative_witness :
  0 ≤ dailyCount (omdb (status_route Examples.boot).2).
Proof. apply (dailyCount_stays_nonnegative Examples.boot). simpl. lia. Defined.

(** X8. The status route only reads: it calls no provider and leaves the
    cache and the availability counters as they are; it reports the number
    of cache entries, expired ones included, and as daily usage zero when
    more than 24 hours have passed since the last reset (which it then
    records) and the counter otherwise; asked again at the same instant it
    reports the same and changes nothing. *)
Theorem status_route_only_reads now p :
  let '(report, p') := at_time now status_route p in
  sent p' = sent p ∧ cache p' = cache p ∧ rapidApi p' = rapidApi p ∧
  entries report = size (cache p) ∧
  status_remaining report = remaining (rapidApi p) ∧
  status_limit report = limit (rapidApi p) ∧
  estimatedDailyUsage report =
    (if bool_decide (now - lastReset (omdb p) > 24 * 60 * 60 * 1000)
     then 0 else dailyCount (omdb p)) ∧
  now - lastReset (omdb p') ≤ 24 * 60 * 60 * 1000 ∧
  at_time now status_route p' = (report, p').
Proof.
  unfold at_time, status_route, snapshot, checkOmdbReset. run_M.
  case_bool_decide as Hexp; simpl.
  - split_and!; try done; try lia.
    by rewrite bool_decide_eq_false_2 by lia.
  - split_and!; try done; try lia.
    by rewrite bool_decide_eq_false_2 by done.
Qed.

(** * Further properties of the search route and of [searchMovie] *)

(** X9. The search route answers with one of five statuses and calls the
    search provider at most once, and not at all when the query is missing
    or empty (it then answers 400 and changes nothing) or when the answer
    comes from the cache; it never touches the availability counters. *)
Theorem search_route_calls_at_most_once q r p :
  let resp := (search_route q r p).1 in
  let p' := (search_route q r p).2 in
  status resp ∈ [200; 400; 401; 429; 500] ∧
  (sent p' = sent p ∨ sent p' = sent p ++ [OmdbSearch (default "" q)]) ∧
  rapidApi p' = rapidApi p ∧
  (Js.truthy q = false →
     resp = respond 400 (JsonError "Query required" false None) ∧ p' = p) ∧
  (∀ c, Js.truthy q = true →
     Cache.fresh (clock p) (search_key (default "" q)) (cache p) = Some c →
     resp = respond 200 (Json c) ∧ sent p' = sent p ∧ omdb p' = omdb p).
Proof.
  unfold search_route. destruct (Js.truthy q) eqn:Hq; simpl.
  2: { split_and!; try done; [set_solver | by left]. }
  run_M. rewrite getFromCache_run.
  destruct (Cache.fresh _ _ _) as [c|] eqn:Hc; simpl.
  { split_and!; try done; [set_solver | by left |]. by intros c' _ [= <-]. }
  unfold checkOmdbReset. simpl.
  destruct (payload r) as [d|st]; simpl.
  - case_bool_decide; simpl; destruct (Js.truthy (Error d)); simpl;
      try destruct (_ || _); simpl; try destruct (Search d); simpl;
      (split_and!; try done; [set_solver | by right]).
  - case_bool_decide; simpl; case_bool_decide; simpl;
      (split_and!; try done; [set_solver | by right]).
Qed.

Lemma search_route_calls_at_most_once_witness :
  (search_route (Some "") (mkReply (OmdbRejects None) 0) Examples.boot)
    = (respond 400 (JsonError "Query required" false None), Examples.boot).
Proof.
  destruct (search_route_calls_at_most_once (Some "") (mkReply (OmdbRejects None) 0)
    Examples.boot) as (_ & _ & _ & H & _).
  destruct (H eq_refl) as [H1 H2].
  rewrite (surjective_pairing (search_route _ _ _)). by rewrite H1, H2.
Defined.

(** ** What every call of [Promise.all] keeps *)

Module PromiseMore.
Section keeps.
Context {X A R : Type}.
Variable begin : X → M (Step (Settled A)).
Variable resume : X → R → M (Settled A).
Variable env : nat → Reply R.
Variable Inv : Process → Prop.
Hypothesis clock_keeps : ∀ t q, Inv q → Inv (with_clock t q).
Hypothesis begin_keeps : ∀ x q, Inv q → Inv (begin x q).2.
Hypothesis resume_keeps : ∀ x r q, Inv q → Inv (resume x r q).2.

Lemma start_all_keeps items p : Inv p → Inv (Promise.start_all begin items p).2.
Proof.
  revert p. induction items as [|x items IH]; intros p Hp; simpl; [done|].
  run_M. pose proof (begin_keeps x p Hp) as Hb.
  destruct (begin x p) as [s p1]. simpl in Hb.
  pose proof (IH p1 Hb) as Hs.
  by destruct (Promise.start_all begin items p1) as [ss p2].
Qed.

Lemma all_keeps items p : Inv p → Inv (Promise.all begin resume env items p).2.
Proof.
  intros Hp. unfold Promise.all. run_M.
  pose proof (start_all_keeps items p Hp) as Hs.
  destruct (Promise.start_all begin items p) as [slots p1]. simpl in Hs.
  pose proof (PromiseFacts.deliver_keeps resume env Inv
    (λ j y q Hq, resume_keeps y _ _ (clock_keeps _ q Hq))
    (Promise.delivery_order env slots) items slots p1 Hs) as Hd.
  by destruct (Promise.deliver resume env _ items slots p1) as [slots' p2].
Qed.
End keeps.
End PromiseMore.

(** * Further properties of the search route and of [searchMovie], continued *)

Lemma short_lists_sub p q : cache q ⊆ cache p → short_lists p → short_lists q.
Proof.
  intros Hsub Hp key e l He. apply (Hp key e l).
  by eapply lookup_weaken.
Qed.

Lemma short_lists_getFromCache key p :
  short_lists p → short_lists (getFromCache key p).2.
Proof.
  apply short_lists_sub. rewrite getFromCache_run. simpl.
  apply (CacheLaws.getFromCache_sound (clock p) key (cache p)).
Qed.

Lemma short_lists_insert q p t key d :
  short_lists p →
  (∀ l, d = SearchResults l → (length l ≤ 5)%nat) →
  cache q = Cache.setCache t key d (cache p) →
  short_lists q.
Proof.
  intros Hp Hd Hq k e l. rewrite Hq. unfold Cache.setCache.
  destruct (decide (key = k)) as [<-|Hne].
  - rewrite lookup_insert_eq. intros [= <-]. simpl. apply Hd.
  - rewrite lookup_insert_ne by done. apply Hp.
Qed.

Lemma clean_results_short l : (length (clean_results l) ≤ 5)%nat.
Proof.
  unfold clean_results, Js.slice0. rewrite length_fmap, length_take. lia.
Qed.

Lemma short_lists_same_cache p q : cache q = cache p → short_lists p → short_lists q.
Proof. intros Hc. apply short_lists_sub. by rewrite Hc. Qed.

Ltac case_if :=
  match goal with |- context [if ?b then _ else _] => destruct b end.

Ltac same_cache_from H := eapply short_lists_same_cache; [|exact H]; done.

Lemma search_route_short q r p :
  short_lists p →
  short_lists (search_route q r p).2 ∧
  ∀ l, body (search_route q r p).1 = Json (SearchResults l) → (length l ≤ 5)%nat.
Proof.
  intros Hp. unfold search_route. destruct (Js.truthy q); simpl; [|done].
  run_M.
  pose proof (short_lists_getFromCache (search_key (default "" q)) p Hp) as Hg.
  assert (Hhit : ∀ c, (getFromCache (search_key (default "" q)) p).1 = Some c →
            ∀ l, c = SearchResults l → (length l ≤ 5)%nat).
  { intros c Hc l ->. rewrite getFromCache_run in Hc. simpl in Hc.
    destruct (CacheLaws.getFromCache_sound (clock p) (search_key (default "" q))
      (cache p)) as (_ & _ & Hv & _).
    destruct (Hv _ Hc) as (_ & e & He & Hd & _). by apply (Hp _ e l He). }
  destruct (getFromCache (search_key (default "" q)) p) as [[c|] p1];
    simpl in *.
  { split; [done|]. intros l [= ->]. by apply (Hhit _ eq_refl). }
  assert (Hreset : short_lists (checkOmdbReset p1).2).
  { unfold checkOmdbReset. case_bool_decide; [|done].
    same_cache_from Hg. }
  destruct (checkOmdbReset p1) as [[] p2]. simpl in Hreset. simpl.
  unfold await. simpl.
  destruct (payload r) as [d|st]; simpl.
  - destruct (Js.truthy (Error d)); simpl.
    + case_if; simpl; (split; [same_cache_from Hreset|]);
        [by intros l [=] | intros l [= <-]; simpl; lia].
    + destruct (Search d) as [l0|]; simpl.
      * split.
        -- eapply (short_lists_insert _ p2); [exact Hreset | | reflexivity].
           intros l [= <-]. apply clean_results_short.
        -- intros l [= <-]. apply clean_results_short.
      * split; [same_cache_from Hreset | by intros l [=]].
  - case_bool_decide; simpl; (split; [same_cache_from Hreset | by intros l [=]]).
Qed.

Lemma searchMovie_begin_short query p :
  short_lists p → short_lists (searchMovie_begin query p).2.
Proof.
  intros Hp. unfold searchMovie_begin. run_M.
  pose proof (short_lists_getFromCache (search_key query) p Hp) as Hg.
  destruct (getFromCache (search_key query) p) as [cached p1]. simpl in Hg.
  destruct (first_cached cached); simpl; [done|].
  same_cache_from Hg.
Qed.

Lemma searchMovie_resume_short query r p :
  short_lists p → short_lists (searchMovie_resume query r p).2.
Proof.
  intros Hp. unfold searchMovie_resume. destruct r as [d|st]; [|done].
  destruct (Js.truthy (Error d)); [done|].
  destruct (Search d) as [[|m l]|]; try done. run_M.
  eapply (short_lists_insert _ p); [exact Hp | | reflexivity].
  intros l0 [= <-]. apply (clean_results_short (m :: l)).
Qed.

Lemma getProvidersForMovie_begin_short imdbId p :
  short_lists p → short_lists (getProvidersForMovie_begin imdbId p).2.
Proof.
  intros Hp. unfold getProvidersForMovie_begin. run_M.
  pose proof (short_lists_getFromCache (providers_key imdbId) p Hp) as Hg.
  destruct (getFromCache (providers_key imdbId) p) as [[c|] p1]; simpl in *;
    [done|]. same_cache_from Hg.
Qed.

Lemma getProvidersForMovie_resume_short imdbId r p :
  short_lists p → short_lists (getProvidersForMovie_resume imdbId r p).2.
Proof.
  intros Hp. unfold getProvidersForMovie_resume. destruct r as [h d|[st|]];
    try done.
  - run_M. by eapply (short_lists_insert _ p); [exact Hp | | reflexivity].
  - by destruct (bool_decide (st = 429) || bool_decide (st = 402)).
Qed.

Lemma bundle_route_keeps (Inv : Process → Prop) movies omdb_env rapid_env p :
  (∀ t q, Inv q → Inv (with_clock t q)) →
  (∀ query q, Inv q → Inv (searchMovie_begin query q).2) →
  (∀ query r q, Inv q → Inv (searchMovie_resume query r q).2) →
  (∀ imdbId q, Inv q → Inv (getProvidersForMovie_begin imdbId q).2) →
  (∀ imdbId r q, Inv q → Inv (getProvidersForMovie_resume imdbId r q).2) →
  Inv p → Inv (bundle_route movies omdb_env rapid_env p).2.
Proof.
  intros Hclk Hsb Hsr Hpb Hpr Hp. unfold bundle_route.
  destruct (bool_decide (length movies = 0%nat) || bool_decide (10 < length movies)%nat);
    [done|].
  run_M.
  pose proof (PromiseMore.all_keeps resolve_begin resolve_resume omdb_env Inv Hclk)
    as H1.
  specialize (H1
    (λ x q Hq, ltac:(unfold resolve_begin; run_M;
                     pose proof (Hsb x q Hq);
                     by destruct (searchMovie_begin x q)))
    (λ x r q Hq, ltac:(unfold resolve_resume; run_M;
                       pose proof (Hsr x r q Hq);
                       by destruct (searchMovie_resume x r q)))
    movies p Hp).
  destruct (Promise.all resolve_begin resolve_resume omdb_env movies p)
    as [[mr|e|] p1]; simpl in *; try done.
  pose proof (PromiseMore.all_keeps attach_begin attach_resume rapid_env Inv Hclk)
    as H2.
  specialize (H2
    (λ x q Hq, ltac:(destruct x as [n mv|n]; [|done]; unfold attach_begin; run_M;
                     pose proof (Hpb (Movie.id mv) q Hq);
                     by destruct (getProvidersForMovie_begin (Movie.id mv) q)))
    (λ x r q Hq, ltac:(destruct x as [n mv|n]; [|done]; unfold attach_resume; run_M;
                       pose proof (Hpr (Movie.id mv) r q Hq);
                       by destruct (getProvidersForMovie_resume (Movie.id mv) r q)))
    mr p1 H1).
  destruct (Promise.all attach_begin attach_resume rapid_env mr p1)
    as [[mwp|e|] p2]; simpl in *; try done.
  by destruct (analyze movies mr mwp).
Qed.

(** X10. The search route never answers with more than five movies, be
    they fetched or cached: every search list the routes and helpers put in
    the cache has at most five entries, each of the routes keeps the cache
    so, and on such a cache every list the search route sends has at most
    five. *)
Theorem search_lists_have_at_most_five p :
  short_lists p →
  (∀ q r,
     short_lists (search_route q r p).2 ∧
     ∀ l, body (search_route q r p).1 = Json (SearchResults l) → (length l ≤ 5)%nat) ∧
  (∀ query r, short_lists (searchMovie query r p).2) ∧
  (∀ imdbId r, short_lists (providers_route imdbId r p).2) ∧
  (∀ movies omdb_env rapid_env,
     short_lists (bundle_route movies omdb_env rapid_env p).2) ∧
  short_lists (status_route p).2.
Proof.
  intros Hp. split_and!.
  - intros q r. by apply search_route_short.
  - intros query r. unfold searchMovie, run_async. run_M.
    pose proof (searchMovie_begin_short query p Hp) as Hb.
    destruct (searchMovie_begin query p) as [[v|] p1]; simpl in *; [done|].
    unfold await. apply searchMovie_resume_short.
    same_cache_from Hb.
  - intros imdbId r. unfold providers_route. run_M.
    pose proof (short_lists_getFromCache (providers_key imdbId) p Hp) as Hg.
    destruct (getFromCache (providers_key imdbId) p) as [[c|] p1]; simpl in *;
      [done|].
    unfold await. simpl. destruct (payload r) as [h d|st]; simpl.
    + by eapply (short_lists_insert _ p1); [exact Hg | | reflexivity].
    + repeat case_bool_decide; simpl; same_cache_from Hg.
  - intros movies omdb_env rapid_env.
    apply (bundle_route_keeps short_lists);
      [ intros t q Hq; same_cache_from Hq
      | intros; by apply searchMovie_begin_short
      | intros; by apply searchMovie_resume_short
      | intros; by apply getProvidersForMovie_begin_short
      | intros; by apply getProvidersForMovie_resume_short
      | exact Hp ].
  - unfold status_route, snapshot, checkOmdbReset. run_M.
    case_bool_decide; simpl; same_cache_from Hp.
Qed.

Lemma search_lists_have_at_most_five_witness :
  short_lists (bundle_route Examples.five Examples.found_all Examples.on_netflix
                 Examples.boot).2.
Proof.
  apply (search_lists_have_at_most_five Examples.boot).
  intros key e l He. simpl in He. by rewrite lookup_empty in He.
Defined.

(** X11. Failures of the search are never cached.  When a query has no
    live entry and the provider's reply is a rejected request, an error
    body or a body without a result list, neither the search route (for a
    non-empty query) nor [searchMovie] stores anything: after the call the
    cache is what the lookup left, with no entry for the query;
    [searchMovie] gives no movie and the route sends no movie. *)
Theorem search_failures_are_not_cached query r p :
  Cache.fresh (clock p) (search_key query) (cache p) = None →
  search_failed (payload r) →
  let looked_up := (Cache.getFromCache (clock p) (search_key query) (cache p)).2 in
  looked_up !! search_key query = None ∧
  cache (searchMovie query r p).2 = looked_up ∧
  (searchMovie query r p).1 = Fulfilled None ∧
  (query ≠ "" →
     cache (search_route (Some query) r p).2 = looked_up ∧
     ∀ m l, body (search_route (Some query) r p).1 ≠ Json (SearchResults (m :: l))).
Proof.
  intros Hmiss Hfail looked_up. split_and!.
  - by apply (CacheLaws.getFromCache_sound (clock p) (search_key query) (cache p)).
  - unfold searchMovie, run_async, searchMovie_begin, searchMovie_resume. run_M.
    rewrite getFromCache_run, Hmiss. simpl.
    destruct (payload r) as [d|st]; simpl; [|done].
    destruct (Js.truthy (Error d)) eqn:He; simpl; [done|].
    destruct Hfail as [?|Hs]; [congruence|]. by rewrite Hs.
  - unfold searchMovie, run_async, searchMovie_begin, searchMovie_resume. run_M.
    rewrite getFromCache_run, Hmiss. simpl.
    destruct (payload r) as [d|st]; simpl; [|done].
    destruct (Js.truthy (Error d)) eqn:He; simpl; [done|].
    destruct Hfail as [?|Hs]; [congruence|]. by rewrite Hs.
  - intros Hq. unfold search_route.
    destruct query as [|c q]; [done|]. simpl Js.truthy. simpl negb. cbv iota.
    run_M. rewrite getFromCache_run, Hmiss. simpl.
    unfold checkOmdbReset. simpl.
    destruct (payload r) as [d|st]; simpl.
    + destruct (Js.truthy (Error d)) eqn:He; simpl.
      * case_bool_decide; simpl; case_if; simpl; by split.
      * destruct Hfail as [?|Hs]; [congruence|]. rewrite Hs.
        case_bool_decide; simpl; by split.
    + case_bool_decide; simpl; case_bool_decide; simpl; by split.
Qed.

Lemma search_failures_are_not_cached_witness :
  cache (searchMovie "Heat" (mkReply Examples.limit_reached 11) Examples.boot).2
    !! search_key "Heat" = None.
Proof.
  destruct (search_failures_are_not_cached "Heat"
    (mkReply Examples.limit_reached 11) Examples.boot) as (H1 & H2 & _).
  - reflexivity.
  - left. reflexivity.
  - by rewrite H2.
Defined.

(** X12. The daily counter counts the responses of the search provider
    that the search route receives: a response adds one, the rate-limit
    error body included, a rejected request adds nothing, and in both
    cases the lazy reset has been applied first. *)
Theorem dailyCount_counts_responses query r p :
  query ≠ "" →
  Cache.fresh (clock p) (search_key query) (cache p) = None →
  let reset := omdb (checkOmdbReset p).2 in
  omdb (search_route (Some query) r p).2 =
    match payload r with
    | OmdbResponse _ => mkOmdbUsage (dailyCount reset + 1) (lastReset reset)
    | OmdbRejects _ => reset
    end.
Proof.
  intros Hq Hmiss. unfold search_route.
  destruct query as [|c q]; [done|]. simpl Js.truthy. simpl negb. cbv iota.
  run_M. rewrite getFromCache_run, Hmiss. simpl.
  unfold checkOmdbReset. simpl.
  destruct (payload r) as [d|st]; simpl.
  - destruct (Js.truthy (Error d)); simpl.
    + by case_bool_decide; simpl; case_if.
    + by case_bool_decide; simpl; destruct (Search d).
  - by case_bool_decide; simpl; case_bool_decide.
Qed.

Lemma dailyCount_counts_responses_witness :
  dailyCount (omdb (search_route (Some "Heat") (mkReply Examples.limit_reached 11)
                      Examples.boot).2) = 1 ∧
  dailyCount (omdb (search_route (Some "Heat") (mkReply (OmdbRejects (Some 401)) 11)
                      Examples.boot).2) = 0.
Proof.
  split.
  - rewrite (dailyCount_counts_responses "Heat" (mkReply Examples.limit_reached 11)
      Examples.boot); [reflexivity | discriminate | reflexivity].
  - rewrite (dailyCount_counts_responses "Heat" (mkReply (OmdbRejects (Some 401)) 11)
      Examples.boot); [reflexivity | discriminate | reflexivity].
Defined.

(** X13. [searchMovie] agrees with the search route: whenever the route
    answers a query with a non-empty list, [searchMovie], called in the
    same state with the same reply, gives the first movie of that list and
    leaves the same cache. *)
Theorem searchMovie_gives_first_of_route query r p m l :
  (search_route (Some query) r p).1 = respond 200 (Json (SearchResults (m :: l))) →
  (searchMovie query r p).1 = Fulfilled (Some m) ∧
  cache (searchMovie query r p).2 = cache (search_route (Some query) r p).2.
Proof.
  unfold search_route, searchMovie, run_async, searchMovie_begin, searchMovie_resume.
  destruct query as [|c q]; [done|]. simpl Js.truthy. simpl negb. cbv iota.
  run_M. rewrite !getFromCache_run. simpl.
  destruct (Cache.fresh _ _ _) as [cached|]; simpl.
  { by intros [= ->]. }
  unfold checkOmdbReset. simpl.
  destruct (payload r) as [d|st]; simpl.
  - destruct (Js.truthy (Error d)); simpl.
    + by case_bool_decide; simpl; case_if.
    + destruct (Search d) as [[|m0 l0]|]; simpl.
      * by case_bool_decide.
      * case_bool_decide; simpl; by intros [= <- <-].
      * by case_bool_decide.
  - by case_bool_decide; simpl; case_bool_decide.
Qed.

Lemma searchMovie_gives_first_of_route_witness :
  (searchMovie "Heat" (mkReply (Examples.hit "tt0113277" "Heat" "1995") 11)
     Examples.boot).1
    = Fulfilled (Some (Movie.mk "tt0113277" "Heat" "1995" "N/A")).
Proof.
  apply (searchMovie_gives_first_of_route "Heat"
    (mkReply (Examples.hit "tt0113277" "Heat" "1995") 11) Examples.boot
    (Movie.mk "tt0113277" "Heat" "1995" "N/A") []).
  reflexivity.
Defined.

(** * Further properties of the providers route and of [getProvidersForMovie] *)

(** X14. The providers route answers 200, 402, 403 or 429 and nothing
    else, calls the availability provider at most once, and never touches
    the counter of the search provider; an answer from the cache changes
    nothing; and the answer is an error exactly when the title is not
    cached and the provider refuses with 429, 402 or 403. *)
Theorem providers_route_calls_at_most_once imdbId r p :
  let resp := (providers_route imdbId r p).1 in
  let p' := (providers_route imdbId r p).2 in
  status resp ∈ [200; 402; 403; 429] ∧
  (sent p' = sent p ∨ sent p' = sent p ++ [RapidShow imdbId]) ∧
  omdb p' = omdb p ∧
  (∀ c, Cache.fresh (clock p) (providers_key imdbId) (cache p) = Some c →
     resp = respond 200 (Json c) ∧ p' = p) ∧
  (status resp ≠ 200 ↔
     Cache.fresh (clock p) (providers_key imdbId) (cache p) = None ∧
     ∃ st, payload r = RapidRejects (Some st) ∧ st ∈ [429; 402; 403]).
Proof.
  unfold providers_route. run_M. rewrite getFromCache_run.
  destruct (Cache.fresh _ _ _) as [c|] eqn:Hc; simpl.
  { split_and!; try done; [set_solver | by left | |].
    - intros c' [= <-]. split; [done|].
      destruct (CacheLaws.getFromCache_sound (clock p) (providers_key imdbId)
        (cache p)) as (_ & _ & Hv & _).
      destruct (Hv c Hc) as [-> _]. by destruct p.
    - split; [done | by intros [? _]]. }
  destruct (payload r) as [h d|st]; simpl.
  { split_and!; try done; [set_solver | by right |].
    split; [done | by intros (_ & st & ? & _)]. }
  destruct (decide (st = Some 429)) as [->|H429].
  { simpl. split_and!; try done; [set_solver | by right |].
    split; [|done]. intros _. split; [done|]. exists 429. split; [done | set_solver]. }
  rewrite (bool_decide_eq_false_2 _ H429).
  destruct (decide (st = Some 402)) as [->|H402].
  { simpl. split_and!; try done; [set_solver | by right |].
    split; [|done]. intros _. split; [done|]. exists 402. split; [done | set_solver]. }
  rewrite (bool_decide_eq_false_2 _ H402).
  destruct (decide (st = Some 403)) as [->|H403].
  { simpl. split_and!; try done; [set_solver | by right |].
    split; [|done]. intros _. split; [done|]. exists 403. split; [done | set_solver]. }
  rewrite (bool_decide_eq_false_2 _ H403).
  case_bool_decide; simpl;
    (split_and!; try done; [set_solver | by right |];
     split; [done|]; intros (_ & st' & [= ->] & Hin);
     apply elem_of_cons in Hin as [->|Hin]; [done|];
     apply elem_of_cons in Hin as [->|Hin]; [done|];
     apply elem_of_cons in Hin as [->|Hin]; [done|];
     by apply elem_of_nil in Hin).
Qed.

Lemma providers_route_calls_at_most_once_witness :
  status (providers_route "tt0113277" (mkReply (RapidRejects (Some 403)) 5)
            Examples.boot).1 ≠ 200.
Proof.
  apply (providers_route_calls_at_most_once "tt0113277"
    (mkReply (RapidRejects (Some 403)) 5) Examples.boot).
  split; [reflexivity|]. exists 403. split; [reflexivity | set_solver].
Defined.

(** X15. Failures of the availability provider are never cached and
    record no telemetry.  When a title has no live entry and the request
    is rejected, with any status or none, neither the route nor the helper
    stores anything or touches the availability counters; on a 403 the
    route answers 403 while the helper gives the empty result. *)
Theorem availability_failures_are_not_cached imdbId st t p :
  Cache.fresh (clock p) (providers_key imdbId) (cache p) = None →
  let r := mkReply (RapidRejects st) t in
  let looked_up :=
    (Cache.getFromCache (clock p) (providers_key imdbId) (cache p)).2 in
  looked_up !! providers_key imdbId = None ∧
  cache (providers_route imdbId r p).2 = looked_up ∧
  rapidApi (providers_route imdbId r p).2 = rapidApi p ∧
  cache (getProvidersForMovie imdbId r p).2 = looked_up ∧
  rapidApi (getProvidersForMovie imdbId r p).2 = rapidApi p ∧
  (st = Some 403 →
     status (providers_route imdbId r p).1 = 403 ∧
     (getProvidersForMovie imdbId r p).1
       = Fulfilled (ProviderData (mkProviders None [] [] [] false None))).
Proof.
  intros Hmiss r looked_up.
  assert (Hroute : cache (providers_route imdbId r p).2 = looked_up ∧
                   rapidApi (providers_route imdbId r p).2 = rapidApi p).
  { unfold providers_route. run_M. rewrite getFromCache_run, Hmiss. simpl.
    repeat case_bool_decide; by simpl. }
  assert (Hhelper : cache (getProvidersForMovie imdbId r p).2 = looked_up ∧
                    rapidApi (getProvidersForMovie imdbId r p).2 = rapidApi p).
  { unfold getProvidersForMovie, run_async, getProvidersForMovie_begin,
      getProvidersForMovie_resume. run_M.
    rewrite getFromCache_run, Hmiss. simpl.
    destruct st as [s|]; simpl; [|done]. by case_if. }
  split_and!; try tauto.
  - by apply (CacheLaws.getFromCache_sound (clock p) (providers_key imdbId) (cache p)).
  - intros ->. split.
    + unfold providers_route. run_M. by rewrite getFromCache_run, Hmiss.
    + by rewrite getProvidersForMovie_unfold, Hmiss.
Qed.

Lemma availability_failures_are_not_cached_witness :
  cache (getProvidersForMovie "tt0113277" (mkReply (RapidRejects (Some 403)) 5)
           Examples.boot).2 !! providers_key "tt0113277" = None ∧
  status (providers_route "tt0113277" (mkReply (RapidRejects (Some 403)) 5)
            Examples.boot).1 = 403.
Proof.
  destruct (availability_failures_are_not_cached "tt0113277" (Some 403) 5
    Examples.boot) as (H1 & _ & _ & H4 & _ & H6).
  - reflexivity.
  - split; [by rewrite H4 | by apply H6].
Defined.

(** X16. The availability of a title is fetched once per TTL.  After the
    route has fetched a title, a second request for it no later than the
    TTL after the reply, whatever the provider would now say, gets the same
    answer from the cache: no upstream request, no change to the cache or
    to the availability counters, which hold what the first response
    carried; the bundle helper, called instead, gets that same object. *)
Theorem availability_is_fetched_once imdbId headers d t1 t2 r2 p :
  Cache.fresh (clock p) (providers_key imdbId) (cache p) = None →
  t2 - t1 ≤ CACHE_TTL →
  let first := providers_route imdbId (mkReply (RapidResponse headers d) t1) p in
  let again := at_time t2 (providers_route imdbId r2) first.2 in
  let helped := at_time t2 (getProvidersForMovie imdbId r2) first.2 in
  sent first.2 = sent p ++ [RapidShow imdbId] ∧
  rapidApi first.2 = rapidApi (updateRapidApiUsage headers p).2 ∧
  again.1 = first.1 ∧
  again.2 = with_clock t2 first.2 ∧
  helped.2 = with_clock t2 first.2 ∧
  ∃ res, first.1 = respond 200 (Json (ProviderData res)) ∧
         helped.1 = Fulfilled (ProviderData res).
Proof.
  intros Hmiss Httl first again helped.
  assert (Hfirst : ∃ res p1,
    first = (respond 200 (Json (ProviderData res)), p1) ∧
    cache p1 !! providers_key imdbId = Some (mkEntry (ProviderData res) t1) ∧
    sent p1 = sent p ++ [RapidShow imdbId] ∧
    rapidApi p1 = rapidApi (updateRapidApiUsage headers p).2).
  { unfold first, providers_route. run_M. rewrite getFromCache_run, Hmiss. simpl.
    eexists _, _. split; [reflexivity|]. simpl.
    split; [apply lookup_insert_eq | done]. }
  destruct Hfirst as (res & p1 & Hf & Hc & Hs & Hu).
  assert (Hget : getFromCache (providers_key imdbId) (with_clock t2 p1)
                 = (Some (ProviderData res), with_clock t2 p1)).
  { rewrite getFromCache_run. unfold Cache.fresh. simpl.
    by rewrite (CacheFacts.getFromCache_hit _ _ _ _ Hc) by done. }
  unfold again, helped. rewrite Hf. simpl.
  split_and!; try done.
  - unfold at_time, providers_route. run_M. by rewrite Hget.
  - unfold at_time, providers_route. run_M. by rewrite Hget.
  - unfold at_time, getProvidersForMovie, run_async, getProvidersForMovie_begin.
    run_M. by rewrite Hget.
  - exists res. split; [done|].
    unfold at_time, getProvidersForMovie, run_async, getProvidersForMovie_begin.
    run_M. by rewrite Hget.
Qed.

Lemma availability_is_fetched_once_witness :
  let r := mkReply (Examples.shows [Examples.offer "subscription" "Netflix"]) 10 in
  let first := providers_route "tt0113277" r Examples.boot in
  (at_time 500 (providers_route "tt0113277" (mkReply (RapidRejects (Some 429)) 600))
     first.2).1 = first.1.
Proof.
  intros r first.
  apply (availability_is_fetched_once "tt0113277" (mkHeaders None None)
    (mkRapidData (Some [Examples.offer "subscription" "Netflix"])
       (Some "https://www.imdb.com/")) 10 500
    (mkReply (RapidRejects (Some 429)) 600) Examples.boot).
  - reflexivity.
  - unfold CACHE_TTL. lia.
Defined.

(** * Further properties of the bundle route *)

Ltac in_list := rewrite ?elem_of_cons; repeat (first [by left | right]).

Lemma attach_phase_shape rapid_env mr p1 mwp :
  (Promise.all attach_begin attach_resume rapid_env mr p1).1 = Resolved mwp →
  Forall2 attached mr mwp.
Proof.
  intros Hres.
  pose proof (PromiseFacts.all_spec attach_begin attach_resume rapid_env
    attach_begin_view attach_begin_result attach_resume_result mr p1) as Hs.
  rewrite Hres in Hs.
  apply Forall2_same_length_lookup. split.
  { apply (f_equal length) in Hs. by rewrite length_imap, length_fmap in Hs. }
  intros i m w Hm Hw.
  assert (Hl : imap (Promise.alone attach_begin attach_resume rapid_env p1) mr !! i
               = Some (Fulfilled w)).
  { by rewrite Hs, list_lookup_fmap, Hw. }
  rewrite list_lookup_imap, Hm in Hl. simpl in Hl. rewrite attach_alone in Hl.
  destruct m as [n mv|n]; simpl.
  - destruct (getProvidersForMovie (Movie.id mv) (rapid_env i) p1).1 as [c|e];
      simpl in Hl; [|done]. exists c. by injection Hl as <-.
  - by injection Hl as <-.
Qed.

Lemma bundle_route_unfold movies omdb_env rapid_env p :
  (0 < length movies ≤ 10)%nat →
  ∃ mr p1,
    Promise.all resolve_begin resolve_resume omdb_env movies p = (Resolved mr, p1) ∧
    name_of <$> mr = movies ∧
    bundle_route movies omdb_env rapid_env p =
      let '(attached, p2) :=
        Promise.all attach_begin attach_resume rapid_env mr p1 in
      (match attached with
       | Failed e => Some (bundle_catch e)
       | Unsettled => None
       | Resolved mwp =>
           Some (match analyze movies mr mwp with
                 | inl e => bundle_catch e
                 | inr report => respond 200 (JsonReport report)
                 end)
       end, p2).
Proof.
  intros [Hlo Hhi].
  destruct (search_phase_resolves movies omdb_env p) as (mr & Hres & _ & Hnames).
  destruct (Promise.all resolve_begin resolve_resume omdb_env movies p)
    as [found p1] eqn:Hfound.
  simpl in Hres. subst found. exists mr, p1. split; [done|]. split; [done|].
  unfold bundle_route.
  rewrite (bool_decide_eq_false_2 (length movies = 0%nat)) by lia.
  rewrite (bool_decide_eq_false_2 (10 < length movies)%nat) by lia.
  simpl. run_M. rewrite Hfound.
  destruct (Promise.all attach_begin attach_resume rapid_env mr p1)
    as [[mwp|e|] p2]; simpl; try done.
  by destruct (analyze movies mr mwp).
Qed.

Lemma attach_phase_settles rapid_env mr p1 :
  (Promise.all attach_begin attach_resume rapid_env mr p1).1 ≠ Unsettled.
Proof.
  pose proof (PromiseFacts.all_spec attach_begin attach_resume rapid_env
    attach_begin_view attach_begin_result attach_resume_result mr p1) as Hs.
  by destruct (Promise.all attach_begin attach_resume rapid_env mr p1).1.
Qed.

Lemma attach_phase_failure rapid_env mr p1 e :
  (Promise.all attach_begin attach_resume rapid_env mr p1).1 = Failed e →
  ∃ st, e = RateLimitError st ∧ (st = 429 ∨ st = 402).
Proof.
  intros Hres.
  pose proof (PromiseFacts.all_spec attach_begin attach_resume rapid_env
    attach_begin_view attach_begin_result attach_resume_result mr p1) as Hs.
  rewrite Hres in Hs. apply list_elem_of_lookup_1 in Hs as [i Hi].
  rewrite list_lookup_imap in Hi.
  destruct (mr !! i) as [[n mv|n]|]; simpl in Hi; try done.
  rewrite attach_alone in Hi.
  destruct (getProvidersForMovie (Movie.id mv) (rapid_env i) p1).1 as [c|e'] eqn:Hl;
    simpl in Hi; [done|]. injection Hi as ->.
  destruct (getProvidersForMovie_rejected _ _ _ _ Hl) as (st & -> & Hst & _).
  by exists st.
Qed.



Lemma bundle_report_shape movies omdb_env rapid_env p report :
  (bundle_route movies omdb_env rapid_env p).1
    = Some (respond 200 (JsonReport report)) →
  (0 < length movies ≤ 10)%nat ∧
  ∃ mr mwp,
    name_of <$> mr = movies ∧
    Forall2 attached mr mwp ∧
    analyze movies mr mwp = inr report.
Proof.
  intros Hresp.
  assert (Hlen : (0 < length movies ≤ 10)%nat)
    by (by apply bundle_report_inv in Hresp as [? _]).
  split; [done|].
  destruct (bundle_route_unfold movies omdb_env rapid_env p Hlen)
    as (mr & p1 & _ & Hnames & Heq).
  rewrite Heq in Hresp.
  pose proof (attach_phase_shape rapid_env mr p1) as Hshape.
  destruct (Promise.all attach_begin attach_resume rapid_env mr p1)
    as [[mwp|e|] p2]; simpl in *; [| |done].
  - exists mr, mwp. split; [done|]. split; [by apply Hshape|].
    destruct (analyze movies mr mwp) as [e|r]; [|congruence].
    injection Hresp as H. by apply bundle_catch_not_200 in H.
  - injection Hresp as H. by apply bundle_catch_not_200 in H.
Qed.

Lemma attached_detail m w :
  attached m w →
  Detail.searchQuery (detail w) = name_of m ∧
  Detail.found (detail w) = is_found m.
Proof. destruct m as [n mv|n]; simpl; [intros [c ->] | intros ->]; done. Qed.

Lemma attached_details mr mwp :
  Forall2 attached mr mwp →
  Detail.searchQuery <$> (detail <$> mwp) = name_of <$> mr ∧
  (∀ b, Detail.searchQuery <$> filter (λ d, Detail.found d = b) (detail <$> mwp)
        = name_of <$> filter (λ m, is_found m = b) mr).
Proof.
  induction 1 as [|m w mr mwp Hmw _ [IH1 IH2]]; [done|].
  destruct (attached_detail m w Hmw) as [Hq Hf].
  split.
  - rewrite !fmap_cons. by rewrite Hq, IH1.
  - intros b. rewrite !fmap_cons, (filter_cons _ (detail w)), (filter_cons _ m).
    rewrite Hf. destruct (decide (is_found m = b)).
    + rewrite !fmap_cons. by rewrite Hq, IH2.
    + apply IH2.
Qed.

Lemma filter_bool_length {A} (f : A → bool) (l : list A) :
  (length (filter (λ x, f x = true) l) + length (filter (λ x, f x = false) l)
   = length l)%nat.
Proof.
  induction l as [|x l IH]; [done|].
  rewrite !filter_cons. destruct (f x); simpl; lia.
Qed.

(** X18. A report accounts for every name of the request: [totalMovies]
    is their number, the movies found and the names not found add up to
    it, [movieDetails] has one entry per name in the order of the request,
    [foundMovies] counts the entries marked found, [notFoundMovies] lists
    the names of the others in that order, and an entry not found has no
    title, no year and no services. *)
Theorem report_accounts_for_every_name movies omdb_env rapid_env p report :
  (bundle_route movies omdb_env rapid_env p).1
    = Some (respond 200 (JsonReport report)) →
  totalMovies report = length movies ∧
  (foundMovies report + length (notFoundMovies report) = totalMovies report)%nat ∧
  Detail.searchQuery <$> movieDetails report = movies ∧
  foundMovies report
    = length (filter (λ d, Detail.found d = true) (movieDetails report)) ∧
  notFoundMovies report
    = Detail.searchQuery <$>
        filter (λ d, Detail.found d = false) (movieDetails report) ∧
  notFoundMovies report `sublist_of` movies ∧
  (∀ d, d ∈ movieDetails report → Detail.found d = false →
     Detail.title d = None ∧ Detail.year d = None ∧
     Detail.subscriptionServices d = []).
Proof.
  intros (_ & mr & mwp & Hnames & Hshape & Han)%bundle_report_shape.
  unfold analyze in Han. destruct (build_map mwp []) as [e|m]; [done|].
  injection Han as <-. simpl.
  destruct (attached_details mr mwp Hshape) as [Hq Hf].
  assert (Hlen : length mr = length movies) by (by rewrite <- Hnames, length_fmap).
  split_and!.
  - done.
  - rewrite length_fmap, <- Hlen. apply (filter_bool_length is_found).
  - by rewrite Hq.
  - rewrite <- (length_fmap Detail.searchQuery), (Hf true). by rewrite length_fmap.
  - by rewrite (Hf false).
  - rewrite <- Hnames. apply fmap_sublist, sublist_filter.
  - intros d (w & -> & _)%list_elem_of_fmap. by destruct w.
Qed.

Lemma report_accounts_for_every_name_witness :
  ∃ report,
    (bundle_route Examples.five Examples.second_limited Examples.on_netflix
       Examples.boot).1 = Some (respond 200 (JsonReport report)) ∧
    (foundMovies report + length (notFoundMovies report) = totalMovies report)%nat ∧
    Detail.searchQuery <$> movieDetails report = Examples.five.
Proof.
  eexists. split; [vm_compute; reflexivity|].
  destruct (report_accounts_for_every_name Examples.five Examples.second_limited
    Examples.on_netflix Examples.boot _ eq_refl) as (_ & H2 & H3 & _).
  split; [exact H2 | exact H3].
Defined.

Lemma elem_of_concat {A} (x : A) (ls : list (list A)) :
  x ∈ concat ls ↔ ∃ l, l ∈ ls ∧ x ∈ l.
Proof.
  induction ls as [|l ls IH]; simpl.
  { split; [by intros ?%elem_of_nil | by intros (l & ?%elem_of_nil & _)]. }
  rewrite elem_of_app, IH. split.
  - intros [Hx|(l' & Hl' & Hx)]; [exists l; split; [left|done] |].
    exists l'. split; [by right | done].
  - intros (l' & [->|Hl']%elem_of_cons & Hx); [by left|].
    right. by exists l'.
Qed.

Lemma on_subscription_iff total m t :
  t ∈ concat (JsObject.values m) ↔
  ∃ e, e ∈ rank_services total m ∧ t ∈ Rank.movies e.
Proof.
  rewrite elem_of_concat. unfold JsObject.values. split.
  - intros (l & ([k v] & -> & Hkv)%list_elem_of_fmap & Ht).
    exists (rank_entry total (k, v)). split; [|done].
    apply elem_of_rank_services. exists (k, v). split; [|done].
    by rewrite <- (JsObjectFacts.entries_Permutation m).
  - intros (e & (kv & Hkv & ->)%elem_of_rank_services & Ht).
    exists kv.2. split; [|done]. apply list_elem_of_fmap. exists kv.
    split; [done|]. by rewrite (JsObjectFacts.entries_Permutation m).
Qed.

Lemma covered_titles_found l s t :
  t ∈ covered l s → ∃ w, w ∈ l ∧ found_title w = Some t.
Proof.
  unfold covered, first_seen. intros [Hx|Hx]%elem_of_first_seen_into;
    [by apply elem_of_nil in Hx|].
  unfold titles_on in Hx.
  apply list_elem_of_fmap in Hx as ([k t'] & -> & Hkv).
  apply list_elem_of_filter in Hkv as [_ Hkv].
  unfold scan in Hkv. apply list_elem_of_bind in Hkv as (w & Hkv & Hw).
  exists w. split; [done|].
  destruct w as [n mv p|n]; simpl in Hkv; [|by apply elem_of_nil in Hkv].
  apply list_elem_of_omap in Hkv as (o & _ & Ho).
  destruct (Js.truthy (serviceName o)); [|done]. by injection Ho as _ <-.
Qed.

(** X19. The found movies are split between the services and
    [notOnAnySubscription]: a title is listed there exactly when it is the
    title of a found movie and no service of the ranking lists it; every
    title a service lists is the title of a found movie; so each found
    movie is under some service or in [notOnAnySubscription], and a name
    that was not found is in neither. *)
Theorem found_titles_are_covered_or_listed movies omdb_env rapid_env p report :
  (bundle_route movies omdb_env rapid_env p).1
    = Some (respond 200 (JsonReport report)) →
  ∃ moviesWithProviders,
    length moviesWithProviders = length movies ∧
    movieDetails report = detail <$> moviesWithProviders ∧
    (∀ t, t ∈ notOnAnySubscription report ↔
          (∃ w, w ∈ moviesWithProviders ∧ found_title w = Some t) ∧
          ∀ e, e ∈ allServices report → t ∉ Rank.movies e) ∧
    (∀ e t, e ∈ allServices report → t ∈ Rank.movies e →
            ∃ w, w ∈ moviesWithProviders ∧ found_title w = Some t) ∧
    (∀ w t, w ∈ moviesWithProviders → found_title w = Some t →
            t ∈ notOnAnySubscription report ∨
            ∃ e, e ∈ allServices report ∧ t ∈ Rank.movies e).
Proof.
  intros (_ & mr & mwp & _ & Hlen & Han)%bundle_report_inv.
  unfold analyze in Han. destruct (build_map mwp []) as [e|m] eqn:Hm; [done|].
  injection Han as <-. simpl.
  destruct (build_map_spec _ _ Hm) as (_ & _ & Hvals).
  assert (Hlisted : ∀ t, t ∈ not_on_subscription m mwp ↔
            (∃ w, w ∈ mwp ∧ found_title w = Some t) ∧
            ∀ e, e ∈ rank_services (length movies) m → t ∉ Rank.movies e).
  { intros t. unfold not_on_subscription. rewrite list_elem_of_omap. split.
    - intros (w & Hw & Hf). destruct w as [n mv c|n]; [|done].
      case_bool_decide as Hin; [done|]. injection Hf as <-.
      split; [by exists (Located n mv c)|].
      intros e He Ht. apply Hin. apply elem_of_list_to_set.
      apply (on_subscription_iff (length movies)). by exists e.
    - intros [(w & Hw & Hf) Hno]. exists w. split; [done|].
      destruct w as [n mv c|n]; [|done]. injection Hf as <-.
      rewrite bool_decide_eq_false_2; [done|].
      intros Hin. apply elem_of_list_to_set in Hin.
      apply (on_subscription_iff (length movies)) in Hin as (e & He & Ht).
      by apply (Hno e). }
  exists mwp. split_and!; try done.
  - intros e t (kv & Hkv & ->)%elem_of_rank_services Ht. destruct kv as [k v].
    simpl in Ht. rewrite (Hvals k v Hkv) in Ht. by eapply covered_titles_found.
  - intros w t Hw Hf.
    destruct (decide (t ∈ concat (JsObject.values m))) as [Hin|Hout].
    + right. by apply (on_subscription_iff (length movies)).
    + left. apply Hlisted. split; [by exists w|].
      intros e He Ht. apply Hout.
      apply (on_subscription_iff (length movies)). by exists e.
Qed.

Lemma found_titles_are_covered_or_listed_witness :
  ∃ report,
    (bundle_route Examples.four Examples.found_all Examples.a_and_b
       Examples.boot).1 = Some (respond 200 (JsonReport report)) ∧
    notOnAnySubscription report = [] ∧
    ∃ l, length l = 4%nat ∧ movieDetails report = detail <$> l.
Proof.
  eexists. split; [vm_compute; reflexivity|]. split; [reflexivity|].
  destruct (found_titles_are_covered_or_listed Examples.four Examples.found_all
    Examples.a_and_b Examples.boot _ eq_refl) as (l & Hl & Hd & _).
  by exists l.
Defined.

Lemma titles_on_nonempty s pairs : s ∈ pairs.*1 → ∃ t, t ∈ titles_on s pairs.
Proof.
  intros ([k t] & -> & Hkv)%list_elem_of_fmap. exists t.
  unfold titles_on. apply list_elem_of_fmap. exists (k, t). split; [done|].
  by apply list_elem_of_filter.
Qed.

Lemma covered_nonempty l s : s ∈ encountered l → (1 ≤ length (covered l s))%nat.
Proof.
  unfold encountered, first_seen.
  intros [Hs|Hs]%elem_of_first_seen_into; [by apply elem_of_nil in Hs|].
  destruct (titles_on_nonempty s _ Hs) as [t Ht].
  assert (Hin : t ∈ covered l s).
  { unfold covered, first_seen. apply elem_of_first_seen_into. by right. }
  destruct (covered l s); [by apply elem_of_nil in Hin | simpl; lia].
Qed.

Lemma round_percent_range count total :
  1 ≤ count ≤ total → total ≤ 10 → 10 ≤ round_percent count total ≤ 100.
Proof.
  intros Hc Ht.
  pose proof (round_percent_nearest count total ltac:(lia)) as Hr.
  nia.
Qed.

(** X20. In a report every service of the ranking appears once, lists at
    least one title and no title twice, and shows a coverage between 10
    and 100; [bestService] is the first of the ranking, no service covers
    more titles than it does, and it is absent exactly when the ranking is
    empty. *)
Theorem services_list_distinct_titles movies omdb_env rapid_env p report :
  (bundle_route movies omdb_env rapid_env p).1
    = Some (respond 200 (JsonReport report)) →
  NoDup (Rank.service <$> allServices report) ∧
  (∀ e, e ∈ allServices report →
     NoDup (Rank.movies e) ∧
     (1 ≤ Rank.movieCount e ≤ totalMovies report)%nat ∧
     ∃ percent, Rank.coverage e = Some percent ∧ 10 ≤ percent ≤ 100) ∧
  (∀ best, bestService report = Some best →
     best ∈ allServices report ∧
     ∀ e, e ∈ allServices report →
          (Rank.movieCount e ≤ Rank.movieCount best)%nat) ∧
  (bestService report = None ↔ allServices report = []).
Proof.
  intros (Hn & mr & mwp & _ & Hlen & Han)%bundle_report_inv.
  apply analyze_inv in Han as (m & Hm & Hall & Hbest & Htot & _).
  destruct (build_map_spec _ _ Hm) as (Hkeys & Hnd & Hvals).
  assert (Hsorted : StronglySorted (λ a b, fewer_movies a b = false)
                      (allServices report)).
  { rewrite Hall. apply (JsArrayFacts.sort_sorted fewer_movies fewer_movies_asym
      fewer_movies_trans). }
  split_and!.
  - rewrite Hall. unfold rank_services.
    rewrite JsArrayFacts.sort_Permutation, <- list_fmap_compose.
    by rewrite (JsObjectFacts.entries_Permutation m).
  - intros e. rewrite Hall, Htot.
    intros ([k v] & Hkv & ->)%elem_of_rank_services. simpl.
    pose proof (Hvals k v Hkv) as ->.
    assert (Hk : k ∈ encountered mwp).
    { rewrite <- Hkeys. by apply (list_elem_of_fmap_2 fst) in Hkv. }
    pose proof (covered_nonempty mwp k Hk) as H1.
    pose proof (covered_length mwp k) as H2. rewrite Hlen in H2.
    split; [apply first_seen_into_NoDup, NoDup_nil_2|]. split; [lia|].
    eexists. split; [apply coverage_of_round; lia|].
    apply round_percent_range; lia.
  - intros best. rewrite Hbest. intros Hh.
    destruct (allServices report) as [|b rest] eqn:Hr; [done|].
    injection Hh as ->. split; [left|].
    intros e [->|He]%elem_of_cons; [done|].
    apply StronglySorted_inv in Hsorted as [_ Hfa].
    rewrite Forall_forall in Hfa. by apply fewer_movies_false, Hfa.
  - rewrite Hbest. by destruct (allServices report).
Qed.

Lemma services_list_distinct_titles_witness :
  ∃ report,
    (bundle_route Examples.four Examples.found_all Examples.a_and_b
       Examples.boot).1 = Some (respond 200 (JsonReport report)) ∧
    NoDup (Rank.service <$> allServices report) ∧
    Rank.service <$> bestService report = Some "A".
Proof.
  eexists. split; [vm_compute; reflexivity|].
  destruct (services_list_distinct_titles Examples.four Examples.found_all
    Examples.a_and_b Examples.boot _ eq_refl) as (Hnd & _).
  split; [exact Hnd | reflexivity].
Defined.

Lemma keys_note_pair kv m m' :
  note_pair kv m = inr m' →
  ∀ k, k ∈ m'.*1 → k ∈ m.*1 ∨ (k = kv.1 ∧ kv.1 ∉ JsObject.inherited).
Proof.
  unfold note_pair. destruct (JsObject.get m kv.1) as [ml|].
  - case_if; intros [= <-] k Hk; [by left|].
    rewrite JsObjectFacts.keys_set in Hk. by left.
  - case_bool_decide as Hin; [done|]. intros [= <-] k.
    rewrite fmap_app, elem_of_app. simpl. rewrite list_elem_of_singleton.
    intros [Hk|Hk]; [by left | subst k; by right].
Qed.

Lemma note_pairs_fails pairs m :
  (∀ k, k ∈ m.*1 → k ∉ JsObject.inherited) →
  (note_pairs pairs m = inl TypeError ↔
   ∃ kv, kv ∈ pairs ∧ kv.1 ∈ JsObject.inherited) ∧
  (∀ st, note_pairs pairs m ≠ inl (RateLimitError st)).
Proof.
  revert m. induction pairs as [|kv pairs IH]; intros m Hm; simpl.
  { split; [|done]. split; [done | by intros (kv & ?%elem_of_nil & _)]. }
  destruct (note_pair kv m) as [e|m'] eqn:Hkv.
  - unfold note_pair in Hkv.
    destruct (JsObject.get m kv.1) as [ml|];
      [by destruct (Js.arr_includes ml kv.2)|].
    case_bool_decide as Hin; [|done]. injection Hkv as <-.
    split; [|done]. split; [|done]. intros _. exists kv. split; [left | done].
  - assert (Hm' : ∀ k, k ∈ m'.*1 → k ∉ JsObject.inherited).
    { intros k Hk. destruct (keys_note_pair kv m m' Hkv k Hk) as [?|[-> ?]];
        [by apply Hm | done]. }
    destruct (IH m' Hm') as [IH1 IH2]. split; [|done].
    rewrite IH1. split.
    + intros (kv' & ? & ?). exists kv'. split; [by right | done].
    + intros (kv' & [->|?]%elem_of_cons & Hin); [|by exists kv'].
      exfalso. unfold note_pair in Hkv.
      destruct (JsObject.get m kv.1) as [ml|] eqn:Hg.
      * apply JsObjectFacts.get_Some_elem in Hg.
        apply (list_elem_of_fmap_2 fst) in Hg. by apply (Hm kv.1).
      * by rewrite bool_decide_eq_true_2 in Hkv.
Qed.

(** X21. Steps 3 to 5 fail, and the route then answers 500, exactly when
    some subscription offer carries a service name that every object
    inherits from [Object.prototype] (such as "constructor" or
    "toString"); with no such name there is always a report. *)
Theorem analysis_fails_on_inherited_names movies movieResults moviesWithProviders :
  (analyze movies movieResults moviesWithProviders = inl TypeError ↔
   ∃ name, name ∈ (scan moviesWithProviders).*1 ∧ name ∈ JsObject.inherited) ∧
  ((∀ name, name ∈ (scan moviesWithProviders).*1 → name ∉ JsObject.inherited) →
   ∃ report, analyze movies movieResults moviesWithProviders = inr report) ∧
  (∀ e, analyze movies movieResults moviesWithProviders = inl e →
        status (bundle_catch e) = 500).
Proof.
  destruct (note_pairs_fails (scan moviesWithProviders) []) as [Hf Hn].
  { intros k Hk. by apply elem_of_nil in Hk. }
  assert (Hiff : analyze movies movieResults moviesWithProviders = inl TypeError ↔
                 ∃ name, name ∈ (scan moviesWithProviders).*1 ∧
                         name ∈ JsObject.inherited).
  { unfold analyze. rewrite build_map_pairs.
    destruct (note_pairs (scan moviesWithProviders) []) as [e|m] eqn:Hp.
    - destruct e as [st|]; [by destruct (Hn st)|].
      split; [|done]. intros _. destruct (proj1 Hf eq_refl) as (kv & Hkv & Hin).
      exists kv.1. split; [by apply list_elem_of_fmap_2 | done].
    - split; [done|]. intros (name & ([k t] & -> & Hkv)%list_elem_of_fmap & Hin).
      assert (inr m = inl TypeError) as Habs; [|done].
      apply Hf. by exists (k, t). }
  split_and!; [done | |].
  - intros Hnone.
    destruct (analyze movies movieResults moviesWithProviders) as [e|r] eqn:Ha;
      [|by exists r].
    exfalso. unfold analyze in Ha. rewrite build_map_pairs in Ha.
    destruct (note_pairs (scan moviesWithProviders) []) as [e'|m] eqn:Hp; [|done].
    injection Ha as ->. destruct e as [st|]; [by destruct (Hn st)|].
    destruct (proj1 Hf eq_refl) as (kv & Hkv & Hin).
    apply (Hnone kv.1); [by apply list_elem_of_fmap_2 | done].
  - intros e Ha. unfold analyze in Ha. rewrite build_map_pairs in Ha.
    destruct (note_pairs (scan moviesWithProviders) []) as [e'|m] eqn:Hp; [|done].
    injection Ha as ->. destruct e as [st|]; [by destruct (Hn st) | done].
Qed.

Lemma analysis_fails_on_inherited_names_witness :
  ∃ report,
    analyze ["Heat"] [Found "Heat" (Movie.mk "tt0113277" "Heat" "1995" "N/A")]
      [Located "Heat" (Movie.mk "tt0113277" "Heat" "1995" "N/A")
         (ProviderData (mkProviders None [Examples.offer "subscription" "Netflix"]
                          [] [] false None))] = inr report.
Proof.
  apply (analysis_fails_on_inherited_names ["Heat"]).
  intros name Hn. apply list_elem_of_singleton in Hn as ->.
  unfold JsObject.inherited. rewrite !elem_of_cons.
  intros H. repeat (destruct H as [H|H]; [discriminate H|]).
  by apply elem_of_nil in H.
Defined.

(** ** The requests a bundle sends *)

Module PromiseSent.
Section all.
Context {X A R : Type}.
Variable begin : X → M (Step (Settled A)).
Variable resume : X → R → M (Settled A).
Variable env : nat → Reply R.
Variable issued : Process → X → list Upstream.

Hypothesis begin_view : ∀ x p, same_view (begin x p).2 p.
Hypothesis begin_sent : ∀ x p, sent (begin x p).2 = sent p ++ issued p x.
Hypothesis issued_view : ∀ x p q, same_view p q → issued p x = issued q x.
Hypothesis resume_sent : ∀ x r p, sent (resume x r p).2 = sent p.

Lemma start_all_sent items p q :
  same_view q p →
  sent (Promise.start_all begin items q).2 = sent q ++ (items ≫= issued p).
Proof.
  revert q. induction items as [|x items IH]; intros q Hv; simpl.
  { by rewrite app_nil_r. }
  run_M. pose proof (begin_view x q) as Hv1. pose proof (begin_sent x q) as Hs1.
  destruct (begin x q) as [s q1]. simpl in *.
  assert (Hv2 : same_view q1 p) by (by eapply same_view_trans).
  specialize (IH q1 Hv2).
  destruct (Promise.start_all begin items q1) as [ss q2]. simpl in *.
  by rewrite IH, Hs1, (issued_view x q p Hv), <- app_assoc.
Qed.

Lemma all_sent items p :
  sent (Promise.all begin resume env items p).2 = sent p ++ (items ≫= issued p).
Proof.
  unfold Promise.all. run_M.
  pose proof (start_all_sent items p p (same_view_refl p)) as Hs.
  destruct (Promise.start_all begin items p) as [slots p1]. simpl in Hs.
  pose proof (PromiseFacts.deliver_frame resume env sent
    (λ _ _, eq_refl) resume_sent (Promise.delivery_order env slots) items slots p1)
    as Hd.
  destruct (Promise.deliver resume env _ items slots p1) as [slots' p2].
  simpl in *. by rewrite Hd.
Qed.
End all.
End PromiseSent.

Lemma search_issued_view name p q :
  same_view p q → search_issued p name = search_issued q name.
Proof. intros [Hc Hf]. unfold search_issued. by rewrite Hf. Qed.

Lemma lookup_issued_view m p q :
  same_view p q → lookup_issued p m = lookup_issued q m.
Proof.
  intros [Hc Hf]. destruct m as [n mv|n]; [|done]. simpl. by rewrite Hf.
Qed.

Lemma resolve_begin_sent name p :
  sent (resolve_begin name p).2 = sent p ++ search_issued p name.
Proof.
  unfold resolve_begin, searchMovie_begin, search_issued. run_M.
  rewrite getFromCache_run.
  destruct (first_cached _); simpl; [by rewrite app_nil_r | done].
Qed.

Lemma resolve_resume_sent name r p : sent (resolve_resume name r p).2 = sent p.
Proof.
  unfold resolve_resume, searchMovie_resume. run_M.
  destruct r as [d|st]; [|done].
  destruct (Js.truthy (Error d)); [done|].
  by destruct (Search d) as [[|mv rest]|].
Qed.

Lemma attach_begin_sent m p :
  sent (attach_begin m p).2 = sent p ++ lookup_issued p m.
Proof.
  destruct m as [n mv|n]; simpl; [|by rewrite app_nil_r].
  unfold getProvidersForMovie_begin. run_M. rewrite getFromCache_run.
  destruct (Cache.fresh _ _ _); simpl; [by rewrite app_nil_r | done].
Qed.

Lemma attach_resume_sent m r p : sent (attach_resume m r p).2 = sent p.
Proof.
  destruct m as [n mv|n]; [|done]. simpl.
  unfold getProvidersForMovie_resume. run_M.
  destruct r as [h d|[st|]]; try done.
  by case_if.
Qed.

Lemma bind_length_le {A B} (f : A → list B) (l : list A) :
  (∀ x, length (f x) ≤ 1)%nat → (length (l ≫= f) ≤ length l)%nat.
Proof.
  intros Hf. induction l as [|x l IH]; [done|].
  rewrite bind_cons, length_app. specialize (Hf x). simpl. lia.
Qed.

(** X22. A bundle of one to ten names sends one OMDb search for every
    name that has no cached first result when the request starts, a name
    that appears twice being searched twice, then one availability lookup
    for every found movie whose availability is not cached once the
    searches are over, and nothing else: at most two requests per name. *)
Theorem bundle_sends_one_search_per_name movies omdb_env rapid_env p :
  (0 < length movies ≤ 10)%nat →
  ∃ movieResults p1,
    Promise.all resolve_begin resolve_resume omdb_env movies p
      = (Resolved movieResults, p1) ∧
    name_of <$> movieResults = movies ∧
    sent (bundle_route movies omdb_env rapid_env p).2
      = sent p ++ (movies ≫= search_issued p)
               ++ (movieResults ≫= lookup_issued p1) ∧
    (length (sent (bundle_route movies omdb_env rapid_env p).2)
       ≤ length (sent p) + 2 * length movies)%nat.
Proof.
  intros Hlen.
  destruct (bundle_route_unfold movies omdb_env rapid_env p Hlen)
    as (mr & p1 & Hfound & Hnames & Hroute).
  exists mr, p1. split; [done|]. split; [done|].
  assert (Hs1 : sent p1 = sent p ++ (movies ≫= search_issued p)).
  { change p1 with (Resolved mr, p1).2. rewrite <- Hfound.
    apply (PromiseSent.all_sent resolve_begin resolve_resume omdb_env search_issued
      resolve_begin_view resolve_begin_sent search_issued_view resolve_resume_sent). }
  assert (Hs2 : sent (bundle_route movies omdb_env rapid_env p).2
                = sent p1 ++ (mr ≫= lookup_issued p1)).
  { rewrite Hroute.
    pose proof (PromiseSent.all_sent attach_begin attach_resume rapid_env lookup_issued
      attach_begin_view attach_begin_sent lookup_issued_view attach_resume_sent mr p1)
      as Ha.
    by destruct (Promise.all attach_begin attach_resume rapid_env mr p1)
      as [[mwp|e|] p2]. }
  assert (Heq : sent (bundle_route movies omdb_env rapid_env p).2
                = sent p ++ (movies ≫= search_issued p) ++ (mr ≫= lookup_issued p1)).
  { by rewrite Hs2, Hs1, <- app_assoc. }
  split; [done|].
  rewrite Heq, !length_app.
  pose proof (bind_length_le (search_issued p) movies) as H1.
  pose proof (bind_length_le (lookup_issued p1) mr) as H2.
  assert (length mr = length movies) as Hl.
  { by rewrite <- Hnames, length_fmap. }
  rewrite Hl in H2.
  assert ((length (movies ≫= search_issued p) ≤ length movies)%nat).
  { apply H1. intros x. unfold search_issued.
    destruct (first_cached _); simpl; lia. }
  assert ((length (mr ≫= lookup_issued p1) ≤ length movies)%nat).
  { apply H2. intros [n mv|n]; simpl; [|lia]. destruct (Cache.fresh _ _ _); simpl; lia. }
  lia.
Qed.

Lemma bundle_sends_one_search_per_name_witness :
  sent (bundle_route ["Heat"; "Heat"] Examples.found_all Examples.a_and_b
          Examples.boot).2
    = [OmdbSearch "Heat"; OmdbSearch "Heat"] ++
      drop 2 (sent (bundle_route ["Heat"; "Heat"] Examples.found_all
                      Examples.a_and_b Examples.boot).2).
Proof.
  destruct (bundle_sends_one_search_per_name ["Heat"; "Heat"] Examples.found_all
    Examples.a_and_b Examples.boot ltac:(simpl; lia)) as (mr & p1 & _ & _ & Hs & _).
  rewrite Hs. reflexivity.
Defined.
